(** * Exact-rational Gauss-Jordan solver (eqsolver.h / eqsolver.cpp)

    A shallow embedding of the [eqsolver] class: the [fraction] value type
    with its overflow-checked arithmetic, the two coefficient matrices, the
    row operations and [solveSystem], followed by the properties of the
    design document that concern them.

    Conventions of the embedding.
    - [unsigned int] fields are integers of [Z]; every C expression that is
      evaluated in 32 bits is wrapped with [uint32] (or [int32] where the
      result is stored in an [int]), every 64-bit one with [uint64] or
      [int64].
    - The member [overFlow] is threaded through the arithmetic: a routine of
      type [Flag A] takes the flag and returns it beside its result.
    - Matrices are lists of rows (the row-pointer array of the source), read
      with [!!] and written with [<[ _ := _ ]>]; row and column counters are
      natural numbers.
    - What a call finds outside the object (the outcome of [malloc], the
      content of locals the source reads without having assigned them) is
      an explicit [environment]. *)

From Stdlib Require Import QArith ZArith Lia Bool List.
From stdpp Require Import base tactics option list.
Import ListNotations.

Local Open Scope Z_scope.

(** ** Machine integers *)

Module Machine.

(** The three limits of eqsolver.h, digit for digit. *)
Definition UINT32MAX : Z := 42946972195.
Definition INT32MAX : Z := 2147483647.
Definition INT32MIN : Z := -2147483648.

(** The largest value an [unsigned int] holds. *)
Definition max_unsigned32 : Z := 4294967295.

Definition uint32 (z : Z) : Z := z mod 2 ^ 32.
Definition uint64 (z : Z) : Z := z mod 2 ^ 64.
Definition int32 (z : Z) : Z := (z + 2 ^ 31) mod 2 ^ 32 - 2 ^ 31.
Definition int64 (z : Z) : Z := (z + 2 ^ 63) mod 2 ^ 64 - 2 ^ 63.

Definition is_uint32 (z : Z) : Prop := 0 <= z <= max_unsigned32.
Definition is_int32 (z : Z) : Prop := INT32MIN <= z <= INT32MAX.

End Machine.
Import Machine.

(** ** struct fraction *)

Record fraction : Type := mkFraction {
  numerator : Z;
  denominator : Z;
  sign : Z   (* 1 = negative, 0 = positive *)
}.

Definition zeroFraction : fraction := mkFraction 0 0 0.

(** The test the source writes as
    [(x.numerator == 0) && (x.denominator == 0)]. *)
Definition isEmpty (f : fraction) : bool :=
  (numerator f =? 0) && (denominator f =? 0).

Definition fraction_eqb (a b : fraction) : bool :=
  (numerator a =? numerator b) && (denominator a =? denominator b)
  && (sign a =? sign b).

(** ** The overflow flag as state *)

(** An arithmetic routine reads and writes the member [overFlow]. *)
Definition Flag (A : Type) : Type := Z -> A * Z.

Definition ret {A} (a : A) : Flag A := fun overFlow => (a, overFlow).

(** [overFlow = 1; result = 0/0; return result;] *)
Definition signalOverflow : Flag fraction := fun _ => (zeroFraction, 1).

(** ** reduce *)

(** The [while (num2)] loop of [reduce].  Two iterations at least halve
    [num2], so 65 iterations exhaust any 32-bit operand
    (lemma [euclid_gcd]). *)
Fixpoint euclid (fuel : nat) (num1 num2 : Z) : Z :=
  match fuel with
  | O => num1
  | S fuel' =>
      if num2 =? 0 then num1 else euclid fuel' num2 (num1 mod num2)
  end.

Definition euclidFuel : nat := 65.

Definition reduce (unreducedFraction : fraction) : fraction :=
  if (numerator unreducedFraction =? 0) || (denominator unreducedFraction =? 0)
  then zeroFraction
  else if numerator unreducedFraction =? denominator unreducedFraction
  then mkFraction 1 1 (sign unreducedFraction)
  else
    let gcf := euclid euclidFuel (numerator unreducedFraction)
                      (denominator unreducedFraction) in
    mkFraction (numerator unreducedFraction / gcf)
               (denominator unreducedFraction / gcf)
               (sign unreducedFraction).

(** ** divide, multiply, add *)

(** The sign table shared by [divide] and [multiply]. *)
Definition combineSign (sign1 sign2 : Z) : Z :=
  if sign1 =? 1
  then (if sign2 =? 1 then 0 else 1)
  else (if sign2 =? 1 then 1 else 0).

Definition divide (dividend divisor : fraction) : Flag fraction :=
  if uint64 (numerator dividend * denominator divisor) >? UINT32MAX
  then signalOverflow
  else
    let result_numerator := uint32 (numerator dividend * denominator divisor) in
    if uint64 (denominator dividend * numerator divisor) >? UINT32MAX
    then signalOverflow
    else
      let result_denominator :=
        uint32 (denominator dividend * numerator divisor) in
      if negb (result_numerator =? 0) && (result_denominator =? 0)
      then ret dividend
      else ret (reduce (mkFraction result_numerator result_denominator
                          (combineSign (sign dividend) (sign divisor)))).

Definition multiply (fraction1 fraction2 : fraction) : Flag fraction :=
  if uint64 (numerator fraction1 * numerator fraction2) >? UINT32MAX
  then signalOverflow
  else
    let result_numerator :=
      uint32 (numerator fraction1 * numerator fraction2) in
    if uint64 (denominator fraction1 * denominator fraction2) >? UINT32MAX
    then signalOverflow
    else
      let result_denominator :=
        uint32 (denominator fraction1 * denominator fraction2) in
      if negb (result_numerator =? 0) && (result_denominator =? 0)
      then ret fraction1
      else ret (reduce (mkFraction result_numerator result_denominator
                          (combineSign (sign fraction1) (sign fraction2)))).

(** The tail of [add] from the comment "Set Denominator" on, entered with
    the numerator and sign already decided. *)
Definition addDenominator (fraction1 fraction2 : fraction)
    (result_numerator result_sign : Z) : Flag fraction :=
  if uint64 (denominator fraction1 * denominator fraction2) >? UINT32MAX
  then signalOverflow
  else
    let result_denominator :=
      uint32 (denominator fraction1 * denominator fraction2) in
    if negb (result_numerator =? 0) && (result_denominator =? 0)
    then ret fraction1
    else ret (reduce (mkFraction result_numerator result_denominator
                        result_sign)).

(** [numXOverflowCheckWithSign]: the numerator as an [INT64], negated when
    the sign word is 1. *)
Definition signedNumerator64 (f : fraction) : Z :=
  if sign f =? 1 then int64 (numerator f * -1) else numerator f.

(** [numX]: the same numerator dropped to [int]; the product with [-1] is an
    [unsigned int] product. *)
Definition signedNumerator32 (f : fraction) : Z :=
  if sign f =? 1 then int32 (uint32 (numerator f * uint32 (-1)))
  else int32 (numerator f).

Definition outsideInt32 (z : Z) : bool := (z >? INT32MAX) || (z <? INT32MIN).

(** In the branch for two positive operands the source never assigns
    [result.sign], and [reduce] copies that word into the value returned.
    [result_sign] is the content of the unassigned local on entry. *)
Definition add (result_sign : Z) (fraction1 fraction2 : fraction)
    : Flag fraction :=
  if isEmpty fraction1 then ret fraction2
  else if isEmpty fraction2 then ret fraction1
  else if (sign fraction1 =? 0) && (sign fraction2 =? 0)
  then
    if uint64 (uint64 (numerator fraction1 * denominator fraction2)
               + uint64 (numerator fraction2 * denominator fraction1))
       >? UINT32MAX
    then signalOverflow
    else
      addDenominator fraction1 fraction2
        (uint32 (uint32 (numerator fraction1 * denominator fraction2)
                 + uint32 (numerator fraction2 * denominator fraction1)))
        result_sign
  else
    let num1OverflowCheckWithSign := signedNumerator64 fraction1 in
    if (if sign fraction1 =? 1
        then num1OverflowCheckWithSign <? INT32MIN
        else num1OverflowCheckWithSign >? INT32MAX)
    then signalOverflow
    else
      let num2OverflowCheckWithSign := signedNumerator64 fraction2 in
      if (if sign fraction2 =? 1
          then num2OverflowCheckWithSign <? INT32MIN
          else num1OverflowCheckWithSign >? INT32MAX)
      then signalOverflow
      else if outsideInt32
                (int64 (num1OverflowCheckWithSign * denominator fraction2))
      then signalOverflow
      else if outsideInt32
                (int64 (num2OverflowCheckWithSign * denominator fraction1))
      then signalOverflow
      else if outsideInt32
                (int64 (int64 (num1OverflowCheckWithSign * denominator fraction2)
                        + int64 (num2OverflowCheckWithSign
                                 * denominator fraction1)))
      then signalOverflow
      else
        let num1 := signedNumerator32 fraction1 in
        let num2 := signedNumerator32 fraction2 in
        let resultNum :=
          int32 (uint32 (uint32 (uint32 num1 * denominator fraction2)
                         + uint32 (uint32 num2 * denominator fraction1))) in
        addDenominator fraction1 fraction2
          (uint32 (Z.abs resultNum))
          (if resultNum <? 0 then 1 else 0).

(** ** Matrices *)

(** [struct fraction **]: an array of row pointers.  A read outside the
    allocated cells has no meaning in the source; [cell] then yields the
    empty fraction, and a write there is dropped. *)
Abbreviation matrix := (list (list fraction)).

Definition cell (m : matrix) (i j : nat) : fraction :=
  default zeroFraction (m !! i ≫= (.!! j)).

Definition setCell (m : matrix) (i j : nat) (x : fraction) : matrix :=
  alter (<[j := x]>) i m.

(** [count] rows of [count + 1] empty fractions. *)
Definition zeroMatrix (count : nat) : matrix :=
  replicate count (replicate (count + 1) zeroFraction).

(** ** class eqsolver *)

Record eqsolver : Type := mkEqsolver {
  coefficient : matrix;
  originalCoefficient : matrix;
  eqCount : nat;
  overFlow : Z;
  solutionCoefficient : list fraction
}.

(** The constructor: null pointers, no equations. *)
Definition newEqsolver : eqsolver := mkEqsolver [] [] 0 0 [].

(** Status words of eqsolver.h. *)
Inductive status : Type :=
  | SOLVED | NO_SOLUTIONS | INFINITE_SOLUTIONS | MEMORY_ERROR | OVERFLOW.

Definition statusWord (s : status) : Z :=
  match s with
  | SOLVED => 1 | NO_SOLUTIONS => 2 | INFINITE_SOLUTIONS => 3
  | MEMORY_ERROR => 4 | OVERFLOW => 5
  end.

(** What a call meets that the object does not own: whether [malloc]
    succeeds, the words [add] finds in its unassigned [result.sign] (one per
    call, in call order) and the word found in the local
    [solutionCheck.sign] of [solveSystem]. *)
Record environment : Type := mkEnvironment {
  mallocSucceeds : bool;
  stackWord : nat -> Z;
  solutionCheckSign : Z
}.

(** The bounds test shared by the accessors:
    [(row > eqCount) || (column > (eqCount+1)) || (row < 1) || (column < 1)]. *)
Definition outOfBounds (st : eqsolver) (row column : nat) : bool :=
  (eqCount st <? row)%nat || (eqCount st + 1 <? column)%nat
  || (row <? 1)%nat || (column <? 1)%nat.

(** After a failed allocation the source leaves the object half built; the
    embedding keeps the new count and no storage. *)
Definition setSystemEqCount (mallocOk : bool) (count : nat) (st : eqsolver)
    : Z * eqsolver :=
  if (count =? 0)%nat then (1, st)
  else if negb mallocOk
  then (0, mkEqsolver [] [] count (overFlow st) [])
  else (1, mkEqsolver (zeroMatrix count) (zeroMatrix count) count
             (overFlow st) (replicate count zeroFraction)).

(** Both matrices receive the same cell. *)
Definition storeCoefficient (st : eqsolver) (row column : nat) (x : fraction)
    : eqsolver :=
  mkEqsolver (setCell (coefficient st) (row - 1) (column - 1) x)
             (setCell (originalCoefficient st) (row - 1) (column - 1) x)
             (eqCount st) (overFlow st) (solutionCoefficient st).

Definition setCoefficient (row column : nat) (value : Z) (st : eqsolver)
    : eqsolver :=
  if outOfBounds st row column then st
  else
    storeCoefficient st row column
      (mkFraction (if value <? 0 then uint32 (Z.abs value) else uint32 value)
                  (if value =? 0 then 0 else 1)
                  (if value <? 0 then 1 else 0)).

Definition setCoefficientFraction (row column : nat)
    (numerator' denominator' : Z) (st : eqsolver) : eqsolver :=
  if outOfBounds st row column then st
  else
    storeCoefficient st row column
      (mkFraction
         (if denominator' =? 0 then 0 else uint32 (Z.abs numerator'))
         (if denominator' =? 0 then 0 else uint32 (Z.abs denominator'))
         (if numerator' <? 0
          then (if denominator' <? 0 then 0 else 1)
          else (if denominator' <? 0 then 1 else 0))).

Definition getOriginalMatrixCoefficient (st : eqsolver) (row column : nat)
    : Z :=
  if outOfBounds st row column then 0
  else
    let x := cell (originalCoefficient st) (row - 1) (column - 1) in
    let coefficientValue := int32 (numerator x) in
    if sign x =? 1 then int32 (coefficientValue * -1) else coefficientValue.

(** The two output parameters, as a pair (numerator, denominator). *)
Definition getOriginalMatrixCoefficientFraction (st : eqsolver)
    (row column : nat) : Z * Z :=
  if outOfBounds st row column then (0, 0)
  else
    let x := cell (originalCoefficient st) (row - 1) (column - 1) in
    let numerator' := int32 (numerator x) in
    (if sign x =? 1 then int32 (numerator' * -1) else numerator',
     int32 (denominator x)).

(** [coefficientValue] is the caller's structure; the result is its content
    after the call. *)
Definition getAlteredMatrixCoefficient (st : eqsolver) (row column : nat)
    (coefficientValue : fraction) : fraction :=
  if outOfBounds st row column then coefficientValue
  else
    let x := cell (coefficient st) (row - 1) (column - 1) in
    mkFraction (numerator x) (denominator x) (sign x).

(** ** Row operations on a caller-supplied matrix *)

(** The matrix a row operation works on, the overflow flag, and the number
    of calls of [add] made so far (the position in [stackWord]). *)
Record work : Type := mkWork {
  cells : matrix;
  flag : Z;
  reads : nat
}.

Definition swapRows (eqCount : nat) (row1 row2 : nat) (coeffPtr : matrix)
    : matrix :=
  if (row1 <? 1)%nat || (row2 <? 1)%nat
     || (eqCount <? row1)%nat || (eqCount <? row2)%nat
  then coeffPtr
  else
    match coeffPtr !! (row1 - 1)%nat, coeffPtr !! (row2 - 1)%nat with
    | Some r1, Some r2 =>
        <[(row2 - 1)%nat := r1]> (<[(row1 - 1)%nat := r2]> coeffPtr)
    | _, _ => coeffPtr
    end.

(** The column loop of [multiplyMatrixRow], [count] columns still to do. *)
Fixpoint multiplyColumns (count column row : nat) (multiplier : fraction)
    (w : work) : work :=
  match count with
  | O => w
  | S count' =>
      let '(x, overFlow') :=
        multiply (cell (cells w) (row - 1) column) multiplier (flag w) in
      let w' := mkWork (setCell (cells w) (row - 1) column x) overFlow'
                       (reads w) in
      if overFlow' =? 0
      then multiplyColumns count' (S column) row multiplier w'
      else w'
  end.

Definition multiplyMatrixRow (eqCount row : nat) (multiplier : fraction)
    (w : work) : work :=
  if (row <? 1)%nat || (eqCount <? row)%nat then w
  else multiplyColumns (eqCount + 1) 0 row multiplier w.

Fixpoint divideColumns (count column row : nat) (divisor : fraction)
    (w : work) : work :=
  match count with
  | O => w
  | S count' =>
      let '(x, overFlow') :=
        divide (cell (cells w) (row - 1) column) divisor (flag w) in
      let w' := mkWork (setCell (cells w) (row - 1) column x) overFlow'
                       (reads w) in
      if overFlow' =? 0
      then divideColumns count' (S column) row divisor w'
      else w'
  end.

Definition divideMatrixRow (eqCount row : nat) (divisor : fraction)
    (w : work) : work :=
  if (row <? 1)%nat || (eqCount <? row)%nat then w
  else divideColumns (eqCount + 1) 0 row divisor w.

Fixpoint addColumns (stack : nat -> Z) (count column row rowToAdd : nat)
    (w : work) : work :=
  match count with
  | O => w
  | S count' =>
      let '(x, overFlow') :=
        add (stack (reads w)) (cell (cells w) (row - 1) column)
            (cell (cells w) (rowToAdd - 1) column) (flag w) in
      let w' := mkWork (setCell (cells w) (row - 1) column x) overFlow'
                       (S (reads w)) in
      if overFlow' =? 0
      then addColumns stack count' (S column) row rowToAdd w'
      else w'
  end.

Definition addMatrixRows (stack : nat -> Z) (eqCount row rowToAdd : nat)
    (w : work) : work :=
  if (row <? 1)%nat || (eqCount <? row)%nat
     || (rowToAdd <? 1)%nat || (eqCount <? rowToAdd)%nat
  then w
  else addColumns stack (eqCount + 1) 0 row rowToAdd w.

(** ** The public overloads: row operations on the member matrix *)

(** The same object with another content of the member [coefficient]. *)
Definition withCoefficient (st : eqsolver) (m : matrix) : eqsolver :=
  mkEqsolver m (originalCoefficient st) (eqCount st) (overFlow st)
             (solutionCoefficient st).

(** The member matrix and the member flag as the state of a row operation,
    and back. *)
Definition memberWork (st : eqsolver) : work :=
  mkWork (coefficient st) (overFlow st) 0.

Definition withWork (st : eqsolver) (w : work) : eqsolver :=
  mkEqsolver (cells w) (originalCoefficient st) (eqCount st) (flag w)
             (solutionCoefficient st).

Definition swapRowsAltered (row1 row2 : nat) (st : eqsolver) : eqsolver :=
  withCoefficient st (swapRows (eqCount st) row1 row2 (coefficient st)).

Definition multiplyMatrixRowAltered (row : nat) (multiplier : fraction)
    (st : eqsolver) : eqsolver :=
  withWork st (multiplyMatrixRow (eqCount st) row multiplier (memberWork st)).

Definition divideMatrixRowAltered (row : nat) (divisor : fraction)
    (st : eqsolver) : eqsolver :=
  withWork st (divideMatrixRow (eqCount st) row divisor (memberWork st)).

Definition addMatrixRowsAltered (stack : nat -> Z) (row rowToAdd : nat)
    (st : eqsolver) : eqsolver :=
  withWork st (addMatrixRows stack (eqCount st) row rowToAdd (memberWork st)).

(** [cleanup]: all storage released, the object as constructed. *)
Definition cleanup (st : eqsolver) : eqsolver := newEqsolver.

(** ** solveSystem *)

(** A piece of [solveSystem] either executes a [return] or hands on. *)
Inductive step (A : Type) : Type :=
  | Return (s : status) (w : work)
  | Next (a : A).
Arguments Return {A} s w.
Arguments Next {A} a.

(** The working copy: fresh rows, filled cell by cell from the original. *)
Definition copyMatrix (eqCount : nat) (original : matrix) : matrix :=
  map (fun i => map (fun j => cell original i j) (seq 0 (eqCount + 1)))
      (seq 0 eqCount).

(** [(x.numerator != 0) && (x.denominator != 0)] *)
Definition usablePivot (x : fraction) : bool :=
  negb (numerator x =? 0) && negb (denominator x =? 0).

(** The inner [while (rowCounter < eqCount)] of the pivot search, with
    [count] rows left to look at. *)
Fixpoint searchBelow (count rowCounter column : nat) (coeffPtr : matrix)
    : option nat :=
  match count with
  | O => None
  | S count' =>
      if usablePivot (cell coeffPtr rowCounter column)
      then Some rowCounter
      else searchBelow count' (S rowCounter) column coeffPtr
  end.

(** The scan for a row whose [eqCount + 1] numerators are all 0. *)
Definition rowAllZero (eqCount : nat) (coeffPtr : matrix) (row : nat) : bool :=
  forallb (fun column => numerator (cell coeffPtr row column) =? 0)
          (seq 0 (eqCount + 1)).

Definition zeroRowExists (eqCount : nat) (coeffPtr : matrix) : bool :=
  existsb (rowAllZero eqCount coeffPtr) (seq 0 eqCount).

Inductive pivot : Type :=
  | NoPivot (s : status)
  | PivotAt (column : nat) (coeffPtr : matrix).

(** The loop [while (!nonZeroFound)].  Every turn that finds nothing moves
    to the next column, so [eqCount - column] turns are enough
    (lemma [findPivot_fuel]); [None] is the turn count running out. *)
Fixpoint findPivot (fuel eqCount row column : nat) (coeffPtr : matrix)
    : option pivot :=
  match fuel with
  | O => None
  | S fuel' =>
      match searchBelow (eqCount - (row + 1)) (row + 1) column coeffPtr with
      | Some rowCounter =>
          Some (PivotAt column
                  (swapRows eqCount (row + 1) (rowCounter + 1) coeffPtr))
      | None =>
          let column := (column + 1)%nat in
          if (column =? eqCount)%nat
          then
            if isEmpty (cell coeffPtr row column)
            then Some (NoPivot INFINITE_SOLUTIONS)
            else if zeroRowExists eqCount coeffPtr
            then Some (NoPivot INFINITE_SOLUTIONS)
            else Some (NoPivot NO_SOLUTIONS)
          else findPivot fuel' eqCount row column coeffPtr
      end
  end.

(** [(numerator == 1) && (denominator == 1) && (sign == 0)] *)
Definition isOne (x : fraction) : bool :=
  (numerator x =? 1) && (denominator x =? 1) && (sign x =? 0).

(** The loop commented "Make Pivot -1": flip the sign of every cell of the
    row that is not empty. *)
Fixpoint negateColumns (count i row : nat) (coeffPtr : matrix) : matrix :=
  match count with
  | O => coeffPtr
  | S count' =>
      let x := cell coeffPtr row i in
      negateColumns count' (S i) row
        (if isEmpty x then coeffPtr
         else setCell coeffPtr row i
                (mkFraction (numerator x) (denominator x)
                            (if sign x =? 0 then 1 else 0)))
  end.

Definition negateRow (eqCount row : nat) (w : work) : work :=
  mkWork (negateColumns (eqCount + 1) 0 row (cells w)) (flag w) (reads w).

(** The body both clearing loops share: clear [column] in [rowCounter]
    with the pivot row [row]. *)
Definition clearRow (stack : nat -> Z) (eqCount row column rowCounter : nat)
    (w : work) : step work :=
  if isEmpty (cell (cells w) rowCounter column) then Next w
  else
    let multiplier := cell (cells w) rowCounter column in
    let w1 := multiplyMatrixRow eqCount (row + 1) multiplier w in
    if negb (flag w1 =? 0) then Return OVERFLOW w1
    else
      let w2 := addMatrixRows stack eqCount (rowCounter + 1) (row + 1) w1 in
      if negb (flag w2 =? 0) then Return OVERFLOW w2
      else
        let w3 := divideMatrixRow eqCount (row + 1) multiplier w2 in
        if negb (flag w3 =? 0) then Return OVERFLOW w3
        else Next w3.

(** [for (rowCounter = row-1; rowCounter >= 0; rowCounter--)]; [count] is
    [rowCounter + 1]. *)
Fixpoint clearAbove (stack : nat -> Z) (eqCount row column count : nat)
    (w : work) : step work :=
  match count with
  | O => Next w
  | S rowCounter =>
      match clearRow stack eqCount row column rowCounter w with
      | Return s w' => Return s w'
      | Next w' => clearAbove stack eqCount row column rowCounter w'
      end
  end.

(** [for (rowCounter = row+1; rowCounter < eqCount; rowCounter++)] *)
Fixpoint clearBelow (stack : nat -> Z) (eqCount row column count rowCounter
    : nat) (w : work) : step work :=
  match count with
  | O => Next w
  | S count' =>
      match clearRow stack eqCount row column rowCounter w with
      | Return s w' => Return s w'
      | Next w' =>
          clearBelow stack eqCount row column count' (S rowCounter) w'
      end
  end.

(** One pivot, from "Is Pivot-Point = 1?" to the second sign flip. *)
Definition pivotStep (stack : nat -> Z) (eqCount row column : nat)
    (w : work) : step work :=
  let normalised :=
    if negb (isOne (cell (cells w) row column))
    then
      let w1 :=
        divideMatrixRow eqCount (row + 1) (cell (cells w) row column) w in
      if negb (flag w1 =? 0) then Return OVERFLOW w1 else Next w1
    else Next w in
  match normalised with
  | Return s w' => Return s w'
  | Next w1 =>
      match clearAbove stack eqCount row column row
              (negateRow eqCount row w1) with
      | Return s w' => Return s w'
      | Next w2 =>
          match clearBelow stack eqCount row column
                  (eqCount - (row + 1)) (row + 1) w2 with
          | Return s w' => Return s w'
          | Next w3 => Next (negateRow eqCount row w3)
          end
      end
  end.

(** The loop [while (column < eqCount)].  Every turn advances [column], so
    [eqCount - column] turns are enough (lemma [eliminate_fuel]). *)
Fixpoint eliminate (fuel : nat) (stack : nat -> Z)
    (eqCount row column : nat) (w : work) : option (step work) :=
  if negb (column <? eqCount)%nat then Some (Next w)
  else
    match fuel with
    | O => None
    | S fuel' =>
        match (if isEmpty (cell (cells w) row column)
               then findPivot (eqCount - column) eqCount row column (cells w)
               else Some (PivotAt column (cells w))) with
        | None => None
        | Some (NoPivot s) => Some (Return s w)
        | Some (PivotAt column' coeffPtr) =>
            match pivotStep stack eqCount row column'
                    (mkWork coeffPtr (flag w) (reads w)) with
            | Return s w' => Some (Return s w')
            | Next w' => eliminate fuel' stack eqCount (S row) (S column') w'
            end
        end
    end.

(** The loop commented "Total Row": [count] columns left, [j] the next. *)
Fixpoint totalRow (stack : nat -> Z) (eqCount : nat) (original : matrix)
    (i count j : nat) (solutionCheck : fraction) (w : work)
    : step (fraction * work) :=
  match count with
  | O => Next (solutionCheck, w)
  | S count' =>
      let '(product, overFlow1) :=
        multiply (cell original i j) (cell (cells w) j eqCount) (flag w) in
      let '(total, overFlow2) :=
        add (stack (reads w)) solutionCheck product overFlow1 in
      let w' := mkWork (cells w) overFlow2 (S (reads w)) in
      if negb (overFlow2 =? 0) then Return OVERFLOW w'
      else totalRow stack eqCount original i count' (S j) total w'
  end.

(** The check of every original equation; [solutionCheck] keeps its sign
    word from one row to the next. *)
Fixpoint verifyRows (stack : nat -> Z) (eqCount : nat) (original : matrix)
    (count i : nat) (solutionCheck : fraction) (w : work) : step work :=
  match count with
  | O => Next w
  | S count' =>
      match totalRow stack eqCount original i eqCount 0
              (mkFraction 0 0 (sign solutionCheck)) w with
      | Return s w' => Return s w'
      | Next (total, w') =>
          if negb (fraction_eqb total (cell original i eqCount))
          then Return NO_SOLUTIONS w'
          else verifyRows stack eqCount original count' (S i) total w'
      end
  end.

(** "Perform Added Checking On Result": the last diagonal cell decides
    between a classification and the verification. *)
Definition checkResult (stack : nat -> Z) (eqCount : nat) (original : matrix)
    (solutionCheck : fraction) (w : work) : step work :=
  if isEmpty (cell (cells w) (eqCount - 1) (eqCount - 1))
  then
    if isEmpty (cell (cells w) (eqCount - 1) eqCount)
    then Return INFINITE_SOLUTIONS w
    else Return NO_SOLUTIONS w
  else verifyRows stack eqCount original eqCount 0 solutionCheck w.

(** [for (i=0; i<eqCount; i++) solutionCoefficient[i] = coeffPtr[i][eqCount]] *)
Fixpoint storeSolution (count i eqCount : nat) (coeffPtr : matrix)
    (solution : list fraction) : list fraction :=
  match count with
  | O => solution
  | S count' =>
      storeSolution count' (S i) eqCount coeffPtr
        (<[i := cell coeffPtr i eqCount]> solution)
  end.

Definition withOverFlow (st : eqsolver) (overFlow' : Z) : eqsolver :=
  mkEqsolver (coefficient st) (originalCoefficient st) (eqCount st)
             overFlow' (solutionCoefficient st).

(** [None] only if a loop of the embedding ran out of turns, which
    [solveSystem_returns] excludes. *)
Definition solveSystem (env : environment) (st : eqsolver)
    : option (status * eqsolver) :=
  if negb (mallocSucceeds env) then Some (MEMORY_ERROR, withOverFlow st 0)
  else
    let coeffPtr := copyMatrix (eqCount st) (originalCoefficient st) in
    match eliminate (eqCount st) (stackWord env) (eqCount st) 0 0
            (mkWork coeffPtr 0 0) with
    | None => None
    | Some (Return s w) => Some (s, withOverFlow st (flag w))
    | Some (Next w) =>
        match checkResult (stackWord env) (eqCount st)
                (originalCoefficient st)
                (mkFraction 0 0 (solutionCheckSign env)) w with
        | Return s w' => Some (s, withOverFlow st (flag w'))
        | Next w' =>
            Some (SOLVED,
                  mkEqsolver (coefficient st) (originalCoefficient st)
                    (eqCount st) (flag w')
                    (storeSolution (eqCount st) 0 (eqCount st) (cells w')
                       (solutionCoefficient st)))
        end
    end.

(** ** Notions of the design document *)

(** The data model of a fraction as far as its magnitudes go: both fit 32
    bits, and a zero denominator comes only with a zero numerator. *)
Definition wellFormed (f : fraction) : Prop :=
  is_uint32 (numerator f) /\ is_uint32 (denominator f)
  /\ (denominator f = 0 -> numerator f = 0).

(** The numerator with its sign applied, as an unbounded integer; the sign
    word 1 means negative, as in the source. *)
Definition signedNumerator (f : fraction) : Z :=
  if sign f =? 1 then - numerator f else numerator f.

(** One of the five signed quantities of a mixed-sign addition leaves the
    signed 32-bit range. *)
Definition addBoundViolated (fraction1 fraction2 : fraction) : Prop :=
  ~ is_int32 (signedNumerator fraction1)
  \/ ~ is_int32 (signedNumerator fraction2)
  \/ ~ is_int32 (signedNumerator fraction1 * denominator fraction2)
  \/ ~ is_int32 (signedNumerator fraction2 * denominator fraction1)
  \/ ~ is_int32 (signedNumerator fraction1 * denominator fraction2
                 + signedNumerator fraction2 * denominator fraction1).

(** A system entered through the public interface: [setSystemEqCount], then
    [setCoefficient] for every cell, rows and columns counted from 1. *)
Fixpoint setRow (row column : nat) (values : list Z) (st : eqsolver)
    : eqsolver :=
  match values with
  | [] => st
  | value :: values' =>
      setRow row (S column) values' (setCoefficient row column value st)
  end.

Fixpoint setRows (row : nat) (rows : list (list Z)) (st : eqsolver)
    : eqsolver :=
  match rows with
  | [] => st
  | values :: rows' => setRows (S row) rows' (setRow row 1 values st)
  end.

Definition systemOf (rows : list (list Z)) : eqsolver :=
  setRows 1 rows (snd (setSystemEqCount true (length rows) newEqsolver)).

(** An environment whose unassigned words all hold [word]. *)
Definition constantStack (word : Z) : environment :=
  mkEnvironment true (fun _ => word) word.

(** A matrix allocated by [setSystemEqCount]: [eqCount] rows of
    [eqCount + 1] cells. *)
Definition shaped (eqCount : nat) (m : matrix) : Prop :=
  length m = eqCount /\ Forall (fun r => length r = (eqCount + 1)%nat) m.

(** A configured system: between 1 and 32767 equations (the row counter of
    [solveSystem] is a [short int]) and all three stores allocated. *)
Definition configured (st : eqsolver) : Prop :=
  1 <= Z.of_nat (eqCount st) <= 32767
  /\ shaped (eqCount st) (coefficient st)
  /\ shaped (eqCount st) (originalCoefficient st)
  /\ length (solutionCoefficient st) = eqCount st.

(** [row], [column] address a cell of a configured system. *)
Definition inRange (st : eqsolver) (row column : nat) : Prop :=
  (1 <= row <= eqCount st)%nat /\ (1 <= column <= eqCount st + 1)%nat.

(** What a caller sees of a call of [solveSystem]: the status and the
    solution vector. *)
Definition report (r : option (status * eqsolver))
    : option (status * list fraction) :=
  match r with
  | Some (s, st) => Some (s, solutionCoefficient st)
  | None => None
  end.

(** The three sample systems of the design document. *)
Definition dependentSystem : eqsolver := systemOf [[1; 1; 2]; [2; 2; 4]].
Definition contradictorySystem : eqsolver := systemOf [[1; 1; 2]; [1; 1; 5]].
Definition regularSystem : eqsolver := systemOf [[2; 1; 5]; [1; -1; 1]].



(** The rational a fraction stands for; the empty fraction and every
    fraction with denominator 0 stand for 0. *)
Definition toQ (f : fraction) : Q :=
  if denominator f =? 0 then 0%Q
  else Qmake (signedNumerator f) (Z.to_pos (denominator f)).




(** ** Notions used in the further properties *)

(** The flag agrees with the way a piece of [solveSystem] is left: 1 with
    a [return OVERFLOW], 0 with any other [return] and when it hands on;
    no piece returns SOLVED or MEMORY_ERROR. *)
Definition flagMatches (r : step work) : Prop :=
  match r with
  | Return s w' =>
      flag w' = match s with OVERFLOW => 1 | _ => 0 end
      /\ s <> SOLVED /\ s <> MEMORY_ERROR
  | Next w' => flag w' = 0
  end.

(** The cell [setCoefficient] stores for a 16-bit [value], and the cell
    [setCoefficientFraction] stores for a 16-bit numerator and
    denominator. *)
Definition stored (value : Z) : fraction :=
  mkFraction (Z.abs value) (if value =? 0 then 0 else 1)
             (if value <? 0 then 1 else 0).

Definition storedFraction (numerator' denominator' : Z) : fraction :=
  mkFraction (if denominator' =? 0 then 0 else Z.abs numerator')
             (if denominator' =? 0 then 0 else Z.abs denominator')
             (if numerator' <? 0
              then (if denominator' <? 0 then 0 else 1)
              else (if denominator' <? 0 then 1 else 0)).

(** The solution of a * x = b for integers: |b|/|a| in lowest terms, with
    the sign word 1 when a and b differ in sign. *)
Definition quotient (a b : Z) : fraction :=
  reduce (mkFraction (Z.abs b) (Z.abs a)
            (if xorb (a <? 0) (b <? 0) then 1 else 0)).

(** Cell (i, j) of the diagonal system a_i * x_i = b_i, the same cell once
    the first [k] pivots are done, and a working state that has got there
    with the flag clear. *)
Definition diagonalCell (eqCount : nat) (a b : nat -> Z) (i j : nat)
    : fraction :=
  if (j =? i)%nat then stored (a i)
  else if (j =? eqCount)%nat then stored (b i) else zeroFraction.

Definition reducedCell (eqCount : nat) (a b : nat -> Z) (k i j : nat)
    : fraction :=
  if (i <? k)%nat
  then if (j =? i)%nat then mkFraction 1 1 0
       else if (j =? eqCount)%nat then quotient (a i) (b i)
       else zeroFraction
  else diagonalCell eqCount a b i j.

Definition reducedTo (eqCount : nat) (a b : nat -> Z) (k : nat) (w : work)
    : Prop :=
  shaped eqCount (cells w) /\ flag w = 0
  /\ forall i j, (i < eqCount)%nat -> (j <= eqCount)%nat ->
       cell (cells w) i j = reducedCell eqCount a b k i j.

(** What one turn of the loops "Make Pivot -1" does to a cell. *)
Definition flipSign (x : fraction) : fraction :=
  if isEmpty x then x
  else mkFraction (numerator x) (denominator x)
                  (if sign x =? 0 then 1 else 0).

(** A cell the clearing loops can clear exactly: empty already, or well
    formed with a numerator other than 0 and small enough for the pivot
    row to be divided back without truncation. *)
Definition clearable (m : fraction) : Prop :=
  isEmpty m = true
  \/ (wellFormed m /\ numerator m <> 0
      /\ numerator m * denominator m <= max_unsigned32).

(** The product of the pivot -1 with a multiplier [m]. *)
Definition timesMinusOne (m : fraction) : fraction :=
  reduce (mkFraction (numerator m) (denominator m) (combineSign 1 (sign m))).

(** The state between the two sign flips of a pivot: the flag is clear
    and the pivot cell holds -1. *)
Definition clearing (eqCount row column : nat) (w : work) : Prop :=
  shaped eqCount (cells w) /\ flag w = 0
  /\ cell (cells w) row column = mkFraction 1 1 1.

(** * Properties *)

(** ** Machine arithmetic *)

Lemma uint64_small z : 0 <= z < 2 ^ 64 -> uint64 z = z.
Proof. unfold uint64. intros H. now apply Z.mod_small. Qed.

Lemma int64_small z : - 2 ^ 63 <= z < 2 ^ 63 -> int64 z = z.
Proof.
  unfold int64. intros H. rewrite Z.mod_small; lia.
Qed.

Lemma int64_wrapped z : 2 ^ 63 <= z < 2 ^ 64 -> int64 z = z - 2 ^ 64.
Proof.
  unfold int64. intros H.
  replace (z + 2 ^ 63) with ((z - 2 ^ 63) + 1 * 2 ^ 64) by lia.
  rewrite Z.mod_add by lia. rewrite Z.mod_small; lia.
Qed.

(** ** reduce *)

(** The loop of [reduce] computes the greatest common divisor, and its
    65 turns are enough for every 32-bit denominator. *)
Lemma euclid_halving (k : nat) :
  forall (fuel : nat) (num1 num2 : Z),
    0 <= num1 -> 0 <= num2 < 2 ^ Z.of_nat k -> (2 * k + 1 <= fuel)%nat ->
    euclid fuel num1 num2 = Z.gcd num1 num2.
Proof.
  induction k as [|k IH]; intros fuel num1 num2 H1 H2 Hfuel.
  - assert (num2 = 0) by (change (2 ^ Z.of_nat 0) with 1 in H2; lia).
    subst num2. destruct fuel as [|fuel]; [lia|].
    cbn. rewrite Z.gcd_0_r. lia.
  - destruct fuel as [|fuel]; [lia|]. cbn [euclid].
    destruct (Z.eqb_spec num2 0) as [->|Hnz].
    { rewrite Z.gcd_0_r. lia. }
    assert (Hpow : 2 ^ Z.of_nat (S k) = 2 * 2 ^ Z.of_nat k).
    { rewrite Nat2Z.inj_succ, Z.pow_succ_r by lia. reflexivity. }
    pose proof (Z.mod_pos_bound num1 num2 ltac:(lia)) as Hr.
    rewrite <- (Z.gcd_mod_l num1 num2), Z.gcd_comm.
    destruct (Z_lt_le_dec (num1 mod num2) (2 ^ Z.of_nat k)) as [Hlt|Hge].
    + apply IH; lia.
    + destruct fuel as [|fuel]; [lia|]. cbn [euclid].
      assert (Hpos : 0 < 2 ^ Z.of_nat k) by (apply Z.pow_pos_nonneg; lia).
      destruct (Z.eqb_spec (num1 mod num2) 0) as [E|_]; [lia|].
      rewrite <- (Z.gcd_mod_l num2 (num1 mod num2)), Z.gcd_comm.
      apply IH; [lia| |lia].
      assert (num2 mod (num1 mod num2) = num2 - num1 mod num2) as ->.
      { symmetry. apply (Z.mod_unique_pos _ _ 1); lia. }
      lia.
Qed.

Lemma euclid_gcd (num1 num2 : Z) :
  0 <= num1 -> is_uint32 num2 -> euclid euclidFuel num1 num2 = Z.gcd num1 num2.
Proof.
  intros H1 H2. apply (euclid_halving 32); unfold euclidFuel; [lia| |lia].
  unfold is_uint32, max_unsigned32 in H2. change (2 ^ Z.of_nat 32) with 4294967296. lia.
Qed.

(** C8: [reduce] on the three sample fractions: 6/9 becomes 2/3 with its
    sign 0 kept, 0/5 becomes the empty fraction 0/0 with sign 0 whatever
    its sign word, and 4/4 with sign 1 becomes 1/1 with sign 1. *)
Theorem reduce_samples :
  reduce (mkFraction 6 9 0) = mkFraction 2 3 0
  /\ (forall s, reduce (mkFraction 0 5 s) = zeroFraction)
  /\ reduce (mkFraction 4 4 1) = mkFraction 1 1 1.
Proof. repeat split. Qed.

(** ** multiply and divide *)

(** What the limit written in eqsolver.h does catch: a numerator product
    above 42946972195. *)
Lemma multiply_above_limit fraction1 fraction2 overFlow :
  is_uint32 (numerator fraction1) -> is_uint32 (numerator fraction2) ->
  numerator fraction1 * numerator fraction2 > UINT32MAX ->
  multiply fraction1 fraction2 overFlow = (zeroFraction, 1).
Proof.
  unfold is_uint32, max_unsigned32, UINT32MAX. intros H1 H2 H.
  unfold multiply. rewrite uint64_small by nia.
  destruct (Z.gtb_spec (numerator fraction1 * numerator fraction2) UINT32MAX)
    as [_|Hle]; [reflexivity|unfold UINT32MAX in Hle; lia].
Qed.

(** C1 (fails in the code): 65537/1 times 65536/1 has the numerator product
    4295032832, above the unsigned 32-bit maximum 4294967295, yet [multiply]
    leaves the overflow flag at 0 and returns the truncated 65536/1: the
    limit it compares with is 42946972195. *)
Theorem multiply_truncates_below_limit :
  wellFormed (mkFraction 65537 1 0) /\ wellFormed (mkFraction 65536 1 0)
  /\ 65537 * 65536 > max_unsigned32
  /\ 65537 * 65536 <= UINT32MAX
  /\ multiply (mkFraction 65537 1 0) (mkFraction 65536 1 0) 0
     = (mkFraction 65536 1 0, 0).
Proof.
  unfold wellFormed, is_uint32, max_unsigned32, UINT32MAX. cbn.
  repeat split; try lia; auto.
Qed.

(** Dividing by an empty fraction computes 0/0 and goes through [reduce]. *)
Lemma divide_by_empty dividend s overFlow :
  divide dividend (mkFraction 0 0 s) overFlow = (zeroFraction, overFlow).
Proof.
  unfold divide. cbn [numerator denominator]. rewrite !Z.mul_0_r. reflexivity.
Qed.

(** The guard of [divide]: no overflow, a computed numerator other than 0
    and a computed denominator 0 give the dividend back. *)
Lemma divide_guard dividend divisor overFlow :
  uint64 (numerator dividend * denominator divisor) <= UINT32MAX ->
  uint64 (denominator dividend * numerator divisor) <= UINT32MAX ->
  uint32 (numerator dividend * denominator divisor) <> 0 ->
  uint32 (denominator dividend * numerator divisor) = 0 ->
  divide dividend divisor overFlow = (dividend, overFlow).
Proof.
  intros H1 H2 Hn Hd. unfold divide.
  destruct (Z.gtb_spec (uint64 (numerator dividend * denominator divisor))
              UINT32MAX); [lia|].
  destruct (Z.gtb_spec (uint64 (denominator dividend * numerator divisor))
              UINT32MAX); [lia|].
  rewrite Hd. apply Z.eqb_neq in Hn. rewrite Hn. reflexivity.
Qed.

(** C5 (fails in the code): 1/1 divided by the empty fraction is not given
    back unaltered; [divide] returns the empty fraction, the flag
    untouched.  Through the public [divideMatrixRow] the row (3, 6) of a
    one-equation system divided by the empty fraction becomes empty. *)
Theorem divide_by_zero_sentinel :
  divide (mkFraction 1 1 0) zeroFraction 0 = (zeroFraction, 0)
  /\ mkFraction 1 1 0 <> zeroFraction
  /\ coefficient (divideMatrixRowAltered 1 zeroFraction (systemOf [[3; 6]]))
     = [[zeroFraction; zeroFraction]].
Proof. repeat split. discriminate. Qed.

(** ** Cells *)

Lemma cell_setCell_same (m : matrix) i j x r :
  m !! i = Some r -> (j < length r)%nat -> cell (setCell m i j x) i j = x.
Proof.
  intros Hr Hj. unfold cell, setCell.
  rewrite list_lookup_alter_eq, Hr. cbn.
  rewrite list_lookup_insert_eq by done. reflexivity.
Qed.

Lemma shaped_row eqCount (m : matrix) i :
  shaped eqCount m -> (i < eqCount)%nat ->
  exists r, m !! i = Some r /\ length r = (eqCount + 1)%nat.
Proof.
  intros [Hlen Hrows] Hi.
  destruct (lookup_lt_is_Some_2 m i ltac:(lia)) as [r Hr].
  exists r. split; [done|].
  rewrite Forall_forall in Hrows. apply Hrows.
  apply list_elem_of_lookup. eauto.
Qed.

(** A zero denominator stores 0/0 in both matrices, with the sign word 1
    when the numerator is negative. *)
Lemma setCoefficientFraction_zero_denominator st row column n :
  configured st -> inRange st row column ->
  let st' := setCoefficientFraction row column n 0 st in
  let stored := mkFraction 0 0 (if n <? 0 then 1 else 0) in
  cell (originalCoefficient st') (row - 1) (column - 1) = stored
  /\ cell (coefficient st') (row - 1) (column - 1) = stored.
Proof.
  intros (HN & Hc & Ho & _) [Hrow Hcol]. cbn zeta.
  unfold setCoefficientFraction, outOfBounds.
  repeat match goal with
  | |- context [(?a <? ?b)%nat] => destruct (Nat.ltb_spec a b); [lia|]
  end.
  cbn [orb storeCoefficient originalCoefficient coefficient Z.eqb].
  destruct (shaped_row _ _ (row - 1) Ho ltac:(lia)) as (ro & Hro & Hlo).
  destruct (shaped_row _ _ (row - 1) Hc ltac:(lia)) as (rc & Hrc & Hlc).
  split; eapply cell_setCell_same; eauto; lia.
Qed.

(** C4 (fails in the code): on a one-equation system
    [setCoefficientFraction(1, 1, -1, 0)] stores numerator 0, denominator 0
    and sign 1 in both matrices, not the empty fraction with sign 0; with
    numerator 1 it stores the empty fraction. *)
Theorem setCoefficientFraction_negative_zero :
  let st := snd (setSystemEqCount true 1 newEqsolver) in
  let st' := setCoefficientFraction 1 1 (-1) 0 st in
  cell (originalCoefficient st') 0 0 = mkFraction 0 0 1
  /\ cell (coefficient st') 0 0 = mkFraction 0 0 1
  /\ cell (originalCoefficient (setCoefficientFraction 1 1 1 0 st)) 0 0
     = zeroFraction.
Proof. repeat split. Qed.

(** ** add *)

(** A positive numerator that escaped its own range test fails the test of
    its cross-product, whether or not the 64-bit product wraps. *)
Lemma unchecked_product_outside n d :
  INT32MAX < n <= max_unsigned32 -> 1 <= d <= max_unsigned32 ->
  outsideInt32 (int64 (n * d)) = true.
Proof.
  unfold INT32MAX, max_unsigned32, outsideInt32. intros Hn Hd.
  destruct (Z_lt_le_dec (n * d) (2 ^ 63)) as [Hs|Hb].
  - rewrite int64_small by nia.
    destruct (Z.gtb_spec (n * d) INT32MAX) as [_|Hle]; [reflexivity|].
    unfold INT32MAX in Hle. nia.
  - rewrite int64_wrapped by nia.
    destruct (Z.ltb_spec (n * d - 2 ^ 64) INT32MIN) as [_|Hge];
      [apply orb_true_r|].
    unfold INT32MIN in Hge. nia.
Qed.

Lemma outsideInt32_false z : outsideInt32 z = false -> is_int32 z.
Proof.
  unfold outsideInt32, is_int32. intros H.
  apply orb_false_elim in H as [H1 H2].
  rewrite Z.gtb_ltb in H1. apply Z.ltb_ge in H1, H2. lia.
Qed.

Lemma nonEmpty_denominator f :
  wellFormed f -> isEmpty f = false -> 1 <= denominator f.
Proof.
  intros (Hn & Hd & Hz) He. unfold is_uint32 in *.
  destruct (Z.eq_dec (denominator f) 0) as [E|]; [|lia].
  unfold isEmpty in He. rewrite E, (Hz E) in He. discriminate.
Qed.

Local Ltac overflow_check :=
  match goal with
  | |- (if ?c then signalOverflow else _) _ = _ =>
      let E := fresh "Passed" in destruct c eqn:E; [reflexivity|]
  end.

(** Mixed-sign branch of [add]: whenever [addBoundViolated] holds, one of
    the five tests fires. *)
Lemma add_else_branch_overflow result_sign fraction1 fraction2 overFlow :
  wellFormed fraction1 -> wellFormed fraction2 ->
  isEmpty fraction1 = false -> isEmpty fraction2 = false ->
  ~ (sign fraction1 = 0 /\ sign fraction2 = 0) ->
  addBoundViolated fraction1 fraction2 ->
  add result_sign fraction1 fraction2 overFlow = (zeroFraction, 1).
Proof.
  intros W1 W2 E1 E2 Hsigns Hviol.
  pose proof (nonEmpty_denominator _ W1 E1) as Hd1.
  pose proof (nonEmpty_denominator _ W2 E2) as Hd2.
  destruct W1 as (Hn1 & Hd1' & _), W2 as (Hn2 & Hd2' & _).
  unfold add. rewrite E1, E2.
  destruct fraction1 as [n1 d1 s1], fraction2 as [n2 d2 s2].
  unfold addBoundViolated, signedNumerator, signedNumerator64 in *.
  unfold is_uint32, max_unsigned32 in *. cbn [numerator denominator sign] in *.
  assert (Hneg1 : int64 (n1 * -1) = - n1)
    by (replace (n1 * -1) with (- n1) by lia; apply int64_small; lia).
  assert (Hneg2 : int64 (n2 * -1) = - n2)
    by (replace (n2 * -1) with (- n2) by lia; apply int64_small; lia).
  rewrite ?Hneg1, ?Hneg2.
  assert (Hbranch : (s1 =? 0) && (s2 =? 0) = false).
  { destruct (Z.eqb_spec s1 0), (Z.eqb_spec s2 0); auto. tauto. }
  rewrite Hbranch. clear Hbranch Hsigns.
  destruct (Z.eqb_spec s1 1) as [_|_], (Z.eqb_spec s2 1) as [_|_].
  - (* negative + negative *)
    overflow_check. overflow_check.
    apply Z.ltb_ge in Passed, Passed0. unfold INT32MIN in Passed, Passed0.
    rewrite (int64_small (- n1 * d2)) by nia. overflow_check.
    rewrite (int64_small (- n2 * d1)) by nia. overflow_check.
    apply outsideInt32_false in Passed1, Passed2.
    rewrite int64_small
      by (unfold is_int32, INT32MAX, INT32MIN in Passed1, Passed2; lia).
    overflow_check. apply outsideInt32_false in Passed3.
    exfalso. unfold is_int32, INT32MAX, INT32MIN in *. lia.
  - (* negative + positive: the numerator of fraction2 is not tested *)
    overflow_check. overflow_check.
    apply Z.ltb_ge in Passed. unfold INT32MIN in Passed.
    rewrite (int64_small (- n1 * d2)) by nia. overflow_check.
    destruct (Z_le_gt_dec n2 INT32MAX) as [Hsmall|Hbig].
    + unfold INT32MAX in Hsmall.
      rewrite (int64_small (n2 * d1)) by nia. overflow_check.
      apply outsideInt32_false in Passed1, Passed2.
      rewrite int64_small
        by (unfold is_int32, INT32MAX, INT32MIN in Passed1, Passed2; lia).
      overflow_check. apply outsideInt32_false in Passed3.
      exfalso. unfold is_int32, INT32MAX, INT32MIN in *. lia.
    + rewrite unchecked_product_outside
        by (unfold max_unsigned32; lia).
      reflexivity.
  - (* positive + negative *)
    overflow_check. overflow_check.
    rewrite Z.gtb_ltb in Passed. apply Z.ltb_ge in Passed, Passed0.
    unfold INT32MAX, INT32MIN in Passed, Passed0.
    rewrite (int64_small (n1 * d2)) by nia. overflow_check.
    rewrite (int64_small (- n2 * d1)) by nia. overflow_check.
    apply outsideInt32_false in Passed1, Passed2.
    rewrite int64_small
      by (unfold is_int32, INT32MAX, INT32MIN in Passed1, Passed2; lia).
    overflow_check. apply outsideInt32_false in Passed3.
    exfalso. unfold is_int32, INT32MAX, INT32MIN in *. lia.
  - (* two sign words other than 1, not both 0: the test of the numerator
       of fraction2 repeats the one of fraction1 *)
    overflow_check.
    rewrite Z.gtb_ltb in Passed. apply Z.ltb_ge in Passed.
    unfold INT32MAX in Passed.
    rewrite (int64_small (n1 * d2)) by nia. overflow_check.
    destruct (Z_le_gt_dec n2 INT32MAX) as [Hsmall|Hbig].
    + unfold INT32MAX in Hsmall.
      rewrite (int64_small (n2 * d1)) by nia. overflow_check.
      apply outsideInt32_false in Passed0, Passed1.
      rewrite int64_small
        by (unfold is_int32, INT32MAX, INT32MIN in Passed0, Passed1; lia).
      overflow_check. apply outsideInt32_false in Passed2.
      exfalso. unfold is_int32, INT32MAX, INT32MIN in *. lia.
    + rewrite unchecked_product_outside
        by (unfold max_unsigned32; lia).
      reflexivity.
Qed.

(** C9: in [add], for two fractions of the data model, neither of them
    empty and of different signs, a signed numerator, a signed cross-product
    or the signed sum outside the signed 32-bit range sets the overflow flag
    to 1 and makes [add] return the empty fraction. *)
Theorem add_differing_signs_overflow result_sign fraction1 fraction2 overFlow :
  wellFormed fraction1 -> wellFormed fraction2 ->
  isEmpty fraction1 = false -> isEmpty fraction2 = false ->
  sign fraction1 <> sign fraction2 ->
  addBoundViolated fraction1 fraction2 ->
  add result_sign fraction1 fraction2 overFlow = (zeroFraction, 1).
Proof.
  intros W1 W2 E1 E2 Hsigns Hviol.
  apply add_else_branch_overflow; try assumption.
  intros [H1 H2]. congruence.
Qed.

Lemma add_differing_signs_overflow_witness :
  add 0 (mkFraction 1 1 1) (mkFraction 3000000000 1 0) 0 = (zeroFraction, 1).
Proof.
  apply add_differing_signs_overflow.
  - unfold wellFormed, is_uint32, max_unsigned32. cbn. repeat split; lia.
  - unfold wellFormed, is_uint32, max_unsigned32. cbn. repeat split; lia.
  - reflexivity.
  - reflexivity.
  - cbn. discriminate.
  - right. left. unfold is_int32, INT32MIN, INT32MAX. cbn. lia.
Defined.

(** ** The arithmetic keeps fractions well formed *)

Lemma uint32_range z : is_uint32 (uint32 z).
Proof.
  unfold is_uint32, max_unsigned32, uint32.
  pose proof (Z.mod_pos_bound z (2 ^ 32) ltac:(lia)). lia.
Qed.

Lemma zeroFraction_wellFormed : wellFormed zeroFraction.
Proof. unfold wellFormed, is_uint32, max_unsigned32. cbn. lia. Qed.

(** [reduce] returns the empty fraction or a quotient with both magnitudes
    at least 1 and no larger than before. *)
Lemma reduce_wellFormed f :
  is_uint32 (numerator f) -> is_uint32 (denominator f) ->
  wellFormed (reduce f).
Proof.
  intros Hn Hd. unfold reduce.
  destruct (Z.eqb_spec (numerator f) 0) as [|Hn0]; cbn [orb];
    [apply zeroFraction_wellFormed|].
  destruct (Z.eqb_spec (denominator f) 0) as [|Hd0];
    [apply zeroFraction_wellFormed|].
  destruct (_ =? _).
  { unfold wellFormed, is_uint32, max_unsigned32. cbn. lia. }
  unfold is_uint32, max_unsigned32 in Hn, Hd.
  rewrite euclid_gcd by (unfold is_uint32, max_unsigned32; lia).
  pose proof (Z.gcd_nonneg (numerator f) (denominator f)) as Hg.
  destruct (Z.gcd_divide_l (numerator f) (denominator f)) as [a Ha].
  destruct (Z.gcd_divide_r (numerator f) (denominator f)) as [b Hb].
  set (g := Z.gcd (numerator f) (denominator f)) in *.
  assert (Hpos : 0 < g).
  { destruct (Z.eq_dec g 0) as [E|]; [rewrite E in Ha; lia|lia]. }
  unfold wellFormed, is_uint32, max_unsigned32. cbn [numerator denominator].
  rewrite Ha at 1 2 3. rewrite Hb at 1 2 3. rewrite !Z.div_mul by lia.
  nia.
Qed.

Local Ltac wellFormed_result :=
  repeat match goal with
  | |- context [if ?c then _ else _] => destruct c
  end;
  cbn [fst signalOverflow ret];
  first [ assumption
        | apply zeroFraction_wellFormed
        | apply reduce_wellFormed; cbn [numerator denominator];
          apply uint32_range ].

(** The result of [multiply] and [divide] is well formed as soon as the
    first operand is; a multiplier or divisor handed to the public row
    operations need not be. *)
Lemma multiply_wellFormed fraction1 fraction2 overFlow :
  wellFormed fraction1 ->
  wellFormed (fst (multiply fraction1 fraction2 overFlow)).
Proof. intros W1. unfold multiply. wellFormed_result. Qed.

Lemma divide_wellFormed dividend divisor overFlow :
  wellFormed dividend ->
  wellFormed (fst (divide dividend divisor overFlow)).
Proof. intros W1. unfold divide. wellFormed_result. Qed.

Lemma add_wellFormed result_sign fraction1 fraction2 overFlow :
  wellFormed fraction1 -> wellFormed fraction2 ->
  wellFormed (fst (add result_sign fraction1 fraction2 overFlow)).
Proof. intros W1 W2. unfold add, addDenominator. wellFormed_result. Qed.

(** Why [add_differing_signs_overflow] asks for well-formed operands: the
    second numerator test of [add] repeats the first one, and behind a
    numerator 1 over the denominator 0, a fraction that is never stored nor
    returned, the numerator 3000000000 passes every test. *)
Remark add_untested_numerator :
  add 0 (mkFraction 1 0 1) (mkFraction 3000000000 1 0) 0
  = (mkFraction 1 0 1, 0).
Proof. reflexivity. Qed.

(** ** solveSystem returns *)

Lemma findPivot_fuel fuel eqCount row :
  forall column (coeffPtr : matrix),
    (column < eqCount)%nat -> (eqCount - column <= fuel)%nat ->
    exists p, findPivot fuel eqCount row column coeffPtr = Some p
      /\ match p with
         | PivotAt column' _ => (column <= column' < eqCount)%nat
         | NoPivot _ => True
         end.
Proof.
  induction fuel as [|fuel IH]; intros column coeffPtr Hlt Hfuel; [lia|].
  cbn [findPivot].
  destruct (searchBelow _ _ _ _) as [rowCounter|].
  - eexists. split; [reflexivity|]. cbn. lia.
  - destruct (Nat.eqb_spec (column + 1) eqCount) as [E|NE].
    + destruct (isEmpty _); [|destruct (zeroRowExists _ _)];
        eexists; (split; [reflexivity|exact I]).
    + destruct (IH (column + 1)%nat coeffPtr) as (p & Hp & Hcol); [lia|lia|].
      exists p. split; [exact Hp|].
      destruct p; [exact I|lia].
Qed.

Lemma eliminate_fuel fuel stack eqCount :
  forall row column w,
    (eqCount - column <= fuel)%nat ->
    exists r, eliminate fuel stack eqCount row column w = Some r.
Proof.
  induction fuel as [|fuel IH]; intros row column w Hfuel.
  - cbn [eliminate]. destruct (Nat.ltb_spec column eqCount); [lia|].
    cbn [negb]. eauto.
  - cbn [eliminate].
    destruct (Nat.ltb_spec column eqCount) as [Hlt|]; cbn [negb]; [|eauto].
    assert (exists p,
      (if isEmpty (cell (cells w) row column)
       then findPivot (eqCount - column) eqCount row column (cells w)
       else Some (PivotAt column (cells w))) = Some p
      /\ match p with
         | PivotAt column' _ => (column <= column' < eqCount)%nat
         | NoPivot _ => True
         end) as (p & -> & Hp).
    { destruct (isEmpty _).
      - apply findPivot_fuel; lia.
      - eexists. split; [reflexivity|]. cbn. lia. }
    destruct p as [s|column' coeffPtr]; [eauto|].
    destruct (pivotStep _ _ _ _ _); [eauto|].
    apply IH. lia.
Qed.

(** Every call of [solveSystem] ends with a status. *)
Lemma solveSystem_returns env st :
  exists s st', solveSystem env st = Some (s, st').
Proof.
  unfold solveSystem. destruct (mallocSucceeds env); cbn [negb]; [|eauto].
  destruct (eliminate_fuel (eqCount st) (stackWord env) (eqCount st) 0 0
              (mkWork (copyMatrix (eqCount st) (originalCoefficient st)) 0 0))
    as (r & ->); [lia|].
  destruct r as [s w|w]; [eauto|].
  destruct (checkResult _ _ _ _ _); eauto.
Qed.

(** The only members [solveSystem] assigns are [overFlow] and
    [solutionCoefficient]. *)
Lemma solveSystem_frame env st s st' :
  solveSystem env st = Some (s, st') ->
  coefficient st' = coefficient st
  /\ originalCoefficient st' = originalCoefficient st
  /\ eqCount st' = eqCount st.
Proof.
  unfold solveSystem. intros H.
  repeat match type of H with
  | (if ?c then _ else _) = _ => destruct c
  | match ?x with _ => _ end = _ => destruct x
  end; inversion H; subst; auto.
Qed.

(** C6: every call of [solveSystem], whatever status it returns, leaves
    what [getOriginalMatrixCoefficient] and
    [getOriginalMatrixCoefficientFraction] read at every row and column as
    it was before the call. *)
Theorem solveSystem_keeps_original env st :
  exists s st',
    solveSystem env st = Some (s, st')
    /\ forall row column,
         getOriginalMatrixCoefficient st' row column
         = getOriginalMatrixCoefficient st row column
         /\ getOriginalMatrixCoefficientFraction st' row column
            = getOriginalMatrixCoefficientFraction st row column.
Proof.
  destruct (solveSystem_returns env st) as (s & st' & H).
  exists s, st'. split; [exact H|].
  destruct (solveSystem_frame _ _ _ _ H) as (_ & Ho & Hn).
  intros row column.
  unfold getOriginalMatrixCoefficient, getOriginalMatrixCoefficientFraction,
    outOfBounds.
  rewrite Ho, Hn. auto.
Qed.

(** The member [coefficient] is not an input of [solveSystem]. *)
Lemma solveSystem_ignores_coefficient env st m :
  report (solveSystem env (withCoefficient st m))
  = report (solveSystem env st).
Proof.
  unfold solveSystem, withCoefficient.
  cbn [eqCount originalCoefficient].
  destruct (mallocSucceeds env); cbn [negb]; [|reflexivity].
  destruct (eliminate _ _ _ _ _ _) as [[s w|w]|]; [reflexivity| |reflexivity].
  destruct (checkResult _ _ _ _ _); reflexivity.
Qed.

(** C10: [solveSystem] works on its local copy only.  What
    [getAlteredMatrixCoefficient] delivers at every row and column is the
    same after the call as before it, and replacing the member matrix by
    any other changes neither the status nor the solution vector. *)
Theorem solveSystem_keeps_altered env st :
  exists s st',
    solveSystem env st = Some (s, st')
    /\ (forall row column coefficientValue,
          getAlteredMatrixCoefficient st' row column coefficientValue
          = getAlteredMatrixCoefficient st row column coefficientValue)
    /\ (forall m,
          report (solveSystem env (withCoefficient st m))
          = Some (s, solutionCoefficient st')).
Proof.
  destruct (solveSystem_returns env st) as (s & st' & H).
  exists s, st'. split; [exact H|].
  destruct (solveSystem_frame _ _ _ _ H) as (Hc & _ & Hn).
  split.
  - intros row column coefficientValue.
    unfold getAlteredMatrixCoefficient, outOfBounds.
    rewrite Hc, Hn. reflexivity.
  - intros m. rewrite solveSystem_ignores_coefficient, H. reflexivity.
Qed.

(** ** The sample systems *)

(** C3 (the third sample fails in the code): the dependent system gives
    INFINITE_SOLUTIONS and the contradictory one NO_SOLUTIONS, whatever the
    unassigned words.  For [[2,1,5],[1,-1,1]] the verification adds 4/1 and
    1/1, two positive fractions, in the eighth call of [add]; the sum gets
    the unassigned sign word, so the status is SOLVED with the solution
    (2, 1) when that word is 0 and NO_SOLUTIONS otherwise. *)
Theorem solveSystem_samples :
  (forall stack s,
     fst <$> solveSystem (mkEnvironment true stack s) dependentSystem
     = Some INFINITE_SOLUTIONS)
  /\ (forall stack s,
        fst <$> solveSystem (mkEnvironment true stack s) contradictorySystem
        = Some NO_SOLUTIONS)
  /\ (forall stack s,
        fst <$> solveSystem (mkEnvironment true stack s) regularSystem
        = Some (if stack 7%nat =? 0 then SOLVED else NO_SOLUTIONS))
  /\ report (solveSystem (constantStack 0) regularSystem)
     = Some (SOLVED, [mkFraction 2 1 0; mkFraction 1 1 0])
  /\ fst <$> solveSystem (constantStack 1) regularSystem = Some NO_SOLUTIONS.
Proof.
  repeat split; try (intros stack s); vm_compute; try reflexivity.
  destruct (stack 7%nat); reflexivity.
Qed.

(** ** The overflow flag is sticky *)

Local Ltac split_ifs :=
  repeat match goal with
  | |- context [if ?c then _ else _] => destruct c
  end.

Lemma multiply_sticky fraction1 fraction2 overFlow :
  overFlow <> 0 -> snd (multiply fraction1 fraction2 overFlow) <> 0.
Proof.
  intros H. unfold multiply, signalOverflow, ret. split_ifs; cbn; lia.
Qed.

Lemma add_sticky result_sign fraction1 fraction2 overFlow :
  overFlow <> 0 -> snd (add result_sign fraction1 fraction2 overFlow) <> 0.
Proof.
  intros H. unfold add, addDenominator, signalOverflow, ret.
  split_ifs; cbn; lia.
Qed.

Lemma add_empty_left result_sign fraction1 fraction2 overFlow :
  isEmpty fraction1 = true ->
  add result_sign fraction1 fraction2 overFlow = (fraction2, overFlow).
Proof. intros H. unfold add. rewrite H. reflexivity. Qed.

Lemma fraction_eqb_eq a b : fraction_eqb a b = true <-> a = b.
Proof.
  unfold fraction_eqb. destruct a, b. cbn. split.
  - intros H. apply andb_prop in H as [H H3]. apply andb_prop in H as [H1 H2].
    apply Z.eqb_eq in H1, H2, H3. congruence.
  - intros H. inversion H; subst. rewrite !Z.eqb_refl. reflexivity.
Qed.

(** ** The pivot search ends in a status *)

Section Elimination.

Variable eqCount : nat.

Lemma findPivot_status fuel row :
  forall column (coeffPtr : matrix) s,
    findPivot fuel eqCount row column coeffPtr = Some (NoPivot s) ->
    s = INFINITE_SOLUTIONS \/ s = NO_SOLUTIONS.
Proof.
  induction fuel as [|fuel IH]; intros column coeffPtr s H; [discriminate|].
  cbn [findPivot] in H.
  destruct (searchBelow _ _ _ _); [discriminate|].
  destruct (_ =? _)%nat; [|eauto].
  destruct (isEmpty _); [|destruct (zeroRowExists _ _)];
    inversion H; auto.
Qed.

End Elimination.

(** ** The verification pass and the sign of its running total *)

Section Verification.

Variables (stack : nat -> Z) (eqCount : nat) (original : matrix).

(** The word in [solutionCheck.sign] is never looked at: the running total
    is empty when the first product is added. *)
Lemma totalRow_empty_start i count j s s' w :
  (1 <= count)%nat ->
  totalRow stack eqCount original i count j (mkFraction 0 0 s) w
  = totalRow stack eqCount original i count j (mkFraction 0 0 s') w.
Proof.
  intros Hc. destruct count as [|count]; [lia|]. cbn [totalRow].
  destruct (multiply _ _ _) as [product overFlow1].
  rewrite !add_empty_left by reflexivity. reflexivity.
Qed.

Lemma verifyRows_ignores_sign count i s s' w :
  count = O \/ (1 <= eqCount)%nat ->
  verifyRows stack eqCount original count i (mkFraction 0 0 s) w
  = verifyRows stack eqCount original count i (mkFraction 0 0 s') w.
Proof.
  intros H. destruct count as [|count]; [reflexivity|].
  cbn [verifyRows sign].
  rewrite (totalRow_empty_start _ _ _ s s') by lia. reflexivity.
Qed.

Lemma checkResult_ignores_sign s s' w :
  checkResult stack eqCount original (mkFraction 0 0 s) w
  = checkResult stack eqCount original (mkFraction 0 0 s') w.
Proof.
  unfold checkResult. destruct (isEmpty _); [reflexivity|].
  apply verifyRows_ignores_sign. lia.
Qed.

End Verification.

Lemma solveSystem_ignores_solutionCheckSign mallocOk stack s s' st :
  solveSystem (mkEnvironment mallocOk stack s) st
  = solveSystem (mkEnvironment mallocOk stack s') st.
Proof.
  unfold solveSystem. cbn [mallocSucceeds stackWord solutionCheckSign].
  destruct mallocOk; cbn [negb]; [|reflexivity].
  destruct (eliminate _ _ _ _ _ _) as [[s0 w|w]|]; try reflexivity.
  rewrite (checkResult_ignores_sign _ _ _ s s'). reflexivity.
Qed.

(** ** The solution vector *)

Lemma storeSolution_length count :
  forall i eqCount (coeffPtr : matrix) (solution : list fraction),
    length (storeSolution count i eqCount coeffPtr solution)
    = length solution.
Proof.
  induction count as [|count IH]; intros i eqCount coeffPtr solution;
    [reflexivity|].
  cbn [storeSolution]. rewrite IH. apply length_insert.
Qed.

Lemma storeSolution_lookup count :
  forall i eqCount (coeffPtr : matrix) (solution : list fraction) j,
    storeSolution count i eqCount coeffPtr solution !! j
    = if decide ((i <= j < i + count)%nat /\ (j < length solution)%nat)
      then Some (cell coeffPtr j eqCount)
      else solution !! j.
Proof.
  induction count as [|count IH]; intros i eqCount coeffPtr solution j.
  - cbn. case_decide; [lia|reflexivity].
  - cbn [storeSolution]. rewrite IH, length_insert.
    destruct (decide (j = i)) as [->|NE].
    + destruct (decide (i < length solution)%nat) as [Hlt|Hge].
      * rewrite list_lookup_insert_eq by exact Hlt.
        repeat case_decide; try lia; reflexivity.
      * rewrite list_insert_ge by lia.
        repeat case_decide; try lia; reflexivity.
    + rewrite list_lookup_insert_ne by congruence.
      repeat case_decide; try lia; reflexivity.
Qed.

Lemma storeSolution_again eqCount (coeffPtr : matrix)
    (solution : list fraction) :
  storeSolution eqCount 0 eqCount coeffPtr
    (storeSolution eqCount 0 eqCount coeffPtr solution)
  = storeSolution eqCount 0 eqCount coeffPtr solution.
Proof.
  apply list_eq. intros j.
  rewrite !storeSolution_lookup, storeSolution_length.
  repeat case_decide; try lia; reflexivity.
Qed.

(** With the same environment a second call repeats the first: nothing a
    call assigns is read by the next one. *)
Lemma solveSystem_same_environment env st s st' :
  solveSystem env st = Some (s, st') -> solveSystem env st' = Some (s, st').
Proof.
  unfold solveSystem. intros H.
  destruct (mallocSucceeds env); cbn [negb] in *.
  2: { inversion H; subst. reflexivity. }
  destruct (eliminate _ _ _ _ _ _) as [[s0 w|w]|] eqn:He; [| |discriminate].
  - inversion H; subst. cbn [eqCount originalCoefficient withOverFlow].
    rewrite He. reflexivity.
  - destruct (checkResult _ _ _ _ _) as [s1 w1|w1] eqn:Hc.
    + inversion H; subst. cbn [eqCount originalCoefficient withOverFlow].
      rewrite He, Hc. reflexivity.
    + inversion H; subst. cbn [eqCount originalCoefficient coefficient
                                 solutionCoefficient].
      rewrite He, Hc, storeSolution_again. reflexivity.
Qed.

Lemma regularSystem_configured : configured regularSystem.
Proof.
  unfold configured, shaped. vm_compute.
  repeat split; try discriminate; repeat constructor.
Qed.




(** ** Two calls in succession *)


(** ** SOLVED without an exact solution *)


(** * Further properties of the code *)

(** ** Fractions as rationals: the arithmetic is exact *)

Lemma uint32_id z : 0 <= z <= 4294967295 -> uint32 z = z.
Proof. intros H. apply Z.mod_small. lia. Qed.

Lemma reduce_proper f :
  is_uint32 (numerator f) -> is_uint32 (denominator f) ->
  numerator f <> 0 -> denominator f <> 0 ->
  let r := reduce f in
  Z.gcd (numerator r) (denominator r) = 1
  /\ numerator r * denominator f = numerator f * denominator r
  /\ sign r = sign f
  /\ 1 <= numerator r <= numerator f
  /\ 1 <= denominator r <= denominator f.
Proof.
  intros Hn Hd Hn0 Hd0. cbn zeta. unfold reduce.
  destruct (Z.eqb_spec (numerator f) 0) as [|_]; [contradiction|].
  destruct (Z.eqb_spec (denominator f) 0) as [|_]; [contradiction|].
  cbn [orb]. unfold is_uint32, max_unsigned32 in *.
  destruct (Z.eqb_spec (numerator f) (denominator f)) as [E|NE].
  { cbn [numerator denominator sign]. repeat split; try lia. }
  rewrite euclid_gcd by (unfold is_uint32, max_unsigned32; lia).
  pose proof (Z.gcd_nonneg (numerator f) (denominator f)) as Hg.
  assert (Hg0 : Z.gcd (numerator f) (denominator f) <> 0).
  { intros E. apply Z.gcd_eq_0 in E. lia. }
  cbn [numerator denominator sign].
  split; [apply Z.gcd_div_gcd; auto|].
  destruct (Z.gcd_divide_l (numerator f) (denominator f)) as [a Ha].
  destruct (Z.gcd_divide_r (numerator f) (denominator f)) as [b Hb].
  set (g := Z.gcd (numerator f) (denominator f)) in *.
  rewrite Ha at 1 3 4. rewrite Hb at 2 3 4.
  rewrite !Z.div_mul by lia.
  rewrite Ha, Hb. nia.
Qed.

(** X1: [reduce] is idempotent on 32-bit operands: reducing a reduced
    fraction changes nothing. *)
Theorem reduce_idempotent f :
  is_uint32 (numerator f) -> is_uint32 (denominator f) ->
  reduce (reduce f) = reduce f.
Proof.
  intros Hn Hd.
  destruct (Z.eq_dec (numerator f) 0) as [E|Hn0].
  { assert (reduce f = zeroFraction) as ->; [|reflexivity].
    unfold reduce. rewrite E. reflexivity. }
  destruct (Z.eq_dec (denominator f) 0) as [E|Hd0].
  { assert (reduce f = zeroFraction) as ->; [|reflexivity].
    unfold reduce. rewrite E, orb_true_r. reflexivity. }
  destruct (reduce_proper f Hn Hd Hn0 Hd0) as (Hg & _ & _ & Hrn & Hrd).
  destruct (reduce f) as [a b s]. cbn [numerator denominator] in *.
  unfold is_uint32, max_unsigned32 in *.
  unfold reduce. cbn [numerator denominator sign].
  destruct (Z.eqb_spec a 0); [lia|]. destruct (Z.eqb_spec b 0); [lia|].
  cbn [orb].
  destruct (Z.eqb_spec a b) as [E|NE].
  - subst b. rewrite Z.gcd_diag in Hg. f_equal; lia.
  - rewrite euclid_gcd by (unfold is_uint32, max_unsigned32; lia).
    rewrite Hg, !Z.div_1_r. reflexivity.
Qed.

Lemma reduce_idempotent_witness :
  reduce (reduce (mkFraction 6 4 1)) = reduce (mkFraction 6 4 1).
Proof.
  apply reduce_idempotent; unfold is_uint32, max_unsigned32; cbn; lia.
Defined.

Lemma toQ_empty f : denominator f = 0 -> toQ f = 0%Q.
Proof. intros E. unfold toQ. rewrite E. reflexivity. Qed.

Lemma toQ_proper f :
  0 < denominator f ->
  toQ f = Qmake (signedNumerator f) (Z.to_pos (denominator f)).
Proof.
  intros H. unfold toQ. destruct (Z.eqb_spec (denominator f) 0); [lia|].
  reflexivity.
Qed.

Lemma toQ_zero_numerator f : numerator f = 0 -> (toQ f == 0)%Q.
Proof.
  intros E. unfold toQ, signedNumerator. rewrite E.
  destruct (_ =? 0); [reflexivity|]. destruct (_ =? 1); reflexivity.
Qed.

Lemma toQ_reduce f :
  is_uint32 (numerator f) -> is_uint32 (denominator f) ->
  (toQ (reduce f) == toQ f)%Q.
Proof.
  intros Hn Hd.
  destruct (Z.eq_dec (numerator f) 0) as [E|Hn0].
  { rewrite (toQ_zero_numerator f E). unfold reduce. rewrite E. reflexivity. }
  destruct (Z.eq_dec (denominator f) 0) as [E|Hd0].
  { rewrite (toQ_empty f E). unfold reduce. rewrite E, orb_true_r.
    reflexivity. }
  destruct (reduce_proper f Hn Hd Hn0 Hd0) as (_ & Hv & Hs & Hrn & Hrd).
  unfold is_uint32 in *.
  rewrite !toQ_proper by lia. unfold Qeq, signedNumerator.
  cbn [Qnum Qden]. rewrite !Z2Pos.id by lia. rewrite Hs.
  destruct (sign f =? 1); nia.
Qed.

(** X2: [reduce] keeps the value of a fraction and brings it to lowest
    terms: a zero numerator or denominator gives the empty fraction 0/0,
    and otherwise the result has coprime numerator and denominator, the
    sign word of the operand, and magnitudes no larger than the
    operand's. *)
Theorem reduce_lowest_terms f :
  is_uint32 (numerator f) -> is_uint32 (denominator f) ->
  (toQ (reduce f) == toQ f)%Q
  /\ (numerator f = 0 \/ denominator f = 0 -> reduce f = zeroFraction)
  /\ (numerator f <> 0 -> denominator f <> 0 ->
      Z.gcd (numerator (reduce f)) (denominator (reduce f)) = 1
      /\ sign (reduce f) = sign f
      /\ 1 <= numerator (reduce f) <= numerator f
      /\ 1 <= denominator (reduce f) <= denominator f).
Proof.
  intros Hn Hd. split; [apply toQ_reduce; assumption|]. split.
  - intros [E|E]; unfold reduce; rewrite E, ?orb_true_r; reflexivity.
  - intros Hn0 Hd0.
    destruct (reduce_proper f Hn Hd Hn0 Hd0) as (Hg & _ & Hs & Hrn & Hrd).
    auto.
Qed.

Lemma reduce_lowest_terms_witness :
  (toQ (reduce (mkFraction 6 4 1)) == toQ (mkFraction 6 4 1))%Q
  /\ Z.gcd (numerator (reduce (mkFraction 6 4 1)))
           (denominator (reduce (mkFraction 6 4 1))) = 1.
Proof.
  destruct (reduce_lowest_terms (mkFraction 6 4 1)) as (Hv & _ & Hl).
  - unfold is_uint32, max_unsigned32. cbn. lia.
  - unfold is_uint32, max_unsigned32. cbn. lia.
  - split; [exact Hv|]. apply Hl; cbn; discriminate.
Defined.

Lemma signedNumerator_combine s1 s2 n d :
  signedNumerator (mkFraction n d (combineSign s1 s2))
  = (if s1 =? 1 then -1 else 1) * (if s2 =? 1 then -1 else 1) * n.
Proof.
  unfold signedNumerator, combineSign. cbn [sign numerator].
  destruct (s1 =? 1), (s2 =? 1); cbn; lia.
Qed.

(** X3: when both products fit 32 bits, [multiply] leaves the overflow
    flag as it found it and returns the exact product of its operands as
    rationals. *)
Theorem multiply_exact fraction1 fraction2 overFlow :
  wellFormed fraction1 -> wellFormed fraction2 ->
  numerator fraction1 * numerator fraction2 <= max_unsigned32 ->
  denominator fraction1 * denominator fraction2 <= max_unsigned32 ->
  exists r,
    multiply fraction1 fraction2 overFlow = (r, overFlow)
    /\ (toQ r == toQ fraction1 * toQ fraction2)%Q.
Proof.
  intros (Hn1 & Hd1 & Hz1) (Hn2 & Hd2 & Hz2) Hn Hd.
  unfold is_uint32, max_unsigned32 in *.
  unfold multiply.
  rewrite !uint64_small by nia.
  destruct (Z.gtb_spec (numerator fraction1 * numerator fraction2) UINT32MAX)
    as [H|_]; [unfold UINT32MAX in H; lia|].
  destruct (Z.gtb_spec (denominator fraction1 * denominator fraction2)
              UINT32MAX) as [H|_]; [unfold UINT32MAX in H; lia|].
  assert (Hu : forall z, 0 <= z <= 4294967295 -> uint32 z = z).
  { intros z Hz. apply Z.mod_small. lia. }
  rewrite !Hu by nia.
  assert (Hguard : negb (numerator fraction1 * numerator fraction2 =? 0)
                   && (denominator fraction1 * denominator fraction2 =? 0)
                   = false).
  { destruct (Z.eqb_spec (denominator fraction1 * denominator fraction2) 0)
      as [E|]; [|apply andb_false_r].
    apply Z.mul_eq_0 in E as [E|E]; [rewrite (Hz1 E)|rewrite (Hz2 E)];
      rewrite ?Z.mul_0_l, ?Z.mul_0_r; reflexivity. }
  rewrite Hguard. eexists. split; [reflexivity|].
  rewrite toQ_reduce
    by (unfold is_uint32, max_unsigned32; cbn [numerator denominator]; nia).
  destruct (Z.eq_dec (denominator fraction1) 0) as [E1|N1].
  { rewrite (toQ_empty fraction1 E1), toQ_empty
      by (cbn; rewrite E1; reflexivity). reflexivity. }
  destruct (Z.eq_dec (denominator fraction2) 0) as [E2|N2].
  { rewrite (toQ_empty fraction2 E2), toQ_empty
      by (cbn; rewrite E2; lia). rewrite Qmult_0_r. reflexivity. }
  rewrite !toQ_proper by (cbn [denominator]; nia).
  unfold Qeq, Qmult. cbn [Qnum Qden denominator].
  rewrite signedNumerator_combine.
  rewrite Pos2Z.inj_mul, !Z2Pos.id by nia.
  unfold signedNumerator.
  destruct (sign fraction1 =? 1), (sign fraction2 =? 1); nia.
Qed.

Lemma multiply_exact_witness :
  exists r,
    multiply (mkFraction 2 3 0) (mkFraction 3 4 1) 0 = (r, 0)
    /\ (toQ r == toQ (mkFraction 2 3 0) * toQ (mkFraction 3 4 1))%Q.
Proof.
  apply multiply_exact.
  - unfold wellFormed, is_uint32, max_unsigned32. cbn. repeat split; lia.
  - unfold wellFormed, is_uint32, max_unsigned32. cbn. repeat split; lia.
  - unfold max_unsigned32. cbn. lia.
  - unfold max_unsigned32. cbn. lia.
Defined.

(** X4: when both cross products fit 32 bits and the divisor is not
    zero, [divide] leaves the overflow flag as it found it and returns the
    exact quotient: the result times the divisor is the dividend. *)
Theorem divide_exact dividend divisor overFlow :
  wellFormed dividend -> wellFormed divisor ->
  numerator divisor <> 0 ->
  numerator dividend * denominator divisor <= max_unsigned32 ->
  denominator dividend * numerator divisor <= max_unsigned32 ->
  exists r,
    divide dividend divisor overFlow = (r, overFlow)
    /\ (toQ r * toQ divisor == toQ dividend)%Q.
Proof.
  intros (Hn1 & Hd1 & Hz1) (Hn2 & Hd2 & Hz2) Hnz Hn Hd.
  unfold is_uint32, max_unsigned32 in *.
  assert (Hd2' : 0 < denominator divisor).
  { destruct (Z.eq_dec (denominator divisor) 0) as [E|]; [|lia].
    specialize (Hz2 E). contradiction. }
  unfold divide.
  rewrite !uint64_small by nia.
  destruct (Z.gtb_spec (numerator dividend * denominator divisor) UINT32MAX)
    as [H|_]; [unfold UINT32MAX in H; lia|].
  destruct (Z.gtb_spec (denominator dividend * numerator divisor)
              UINT32MAX) as [H|_]; [unfold UINT32MAX in H; lia|].
  assert (Hu : forall z, 0 <= z <= 4294967295 -> uint32 z = z).
  { intros z Hz. apply Z.mod_small. lia. }
  rewrite !Hu by nia.
  assert (Hguard : negb (numerator dividend * denominator divisor =? 0)
                   && (denominator dividend * numerator divisor =? 0)
                   = false).
  { destruct (Z.eqb_spec (denominator dividend * numerator divisor) 0)
      as [E|]; [|apply andb_false_r].
    apply Z.mul_eq_0 in E as [E|E]; [|contradiction].
    rewrite (Hz1 E), Z.mul_0_l. reflexivity. }
  rewrite Hguard. eexists. split; [reflexivity|].
  rewrite toQ_reduce
    by (unfold is_uint32, max_unsigned32; cbn [numerator denominator]; nia).
  destruct (Z.eq_dec (denominator dividend) 0) as [E1|N1].
  { rewrite (toQ_empty dividend E1), toQ_empty
      by (cbn; rewrite E1; reflexivity). reflexivity. }
  rewrite !toQ_proper by (cbn [denominator]; nia).
  unfold Qeq, Qmult. cbn [Qnum Qden denominator].
  rewrite signedNumerator_combine.
  rewrite Pos2Z.inj_mul, !Z2Pos.id by nia.
  unfold signedNumerator.
  destruct (sign dividend =? 1), (sign divisor =? 1); nia.
Qed.

Lemma divide_exact_witness :
  exists r,
    divide (mkFraction 2 3 0) (mkFraction 4 9 1) 0 = (r, 0)
    /\ (toQ r * toQ (mkFraction 4 9 1) == toQ (mkFraction 2 3 0))%Q.
Proof.
  apply divide_exact.
  - unfold wellFormed, is_uint32, max_unsigned32. cbn. repeat split; lia.
  - unfold wellFormed, is_uint32, max_unsigned32. cbn. repeat split; lia.
  - cbn. discriminate.
  - unfold max_unsigned32. cbn. lia.
  - unfold max_unsigned32. cbn. lia.
Defined.


(** X5: for two operands with sign word 0 whose cross sum and
    denominator product fit 32 bits, [add] leaves the flag as it found it
    and returns the exact sum, provided the word found in the unassigned
    [result.sign] is not 1. *)
Theorem add_positive_exact result_sign fraction1 fraction2 overFlow :
  wellFormed fraction1 -> wellFormed fraction2 ->
  sign fraction1 = 0 -> sign fraction2 = 0 ->
  result_sign <> 1 ->
  numerator fraction1 * denominator fraction2
  + numerator fraction2 * denominator fraction1 <= max_unsigned32 ->
  denominator fraction1 * denominator fraction2 <= max_unsigned32 ->
  exists r,
    add result_sign fraction1 fraction2 overFlow = (r, overFlow)
    /\ (toQ r == toQ fraction1 + toQ fraction2)%Q.
Proof.
  intros (Hn1 & Hd1 & Hz1) (Hn2 & Hd2 & Hz2) Hs1 Hs2 Hrs Hn Hd.
  unfold is_uint32, max_unsigned32 in *.
  unfold add.
  destruct (isEmpty fraction1) eqn:E1.
  { eexists. split; [reflexivity|].
    apply andb_prop in E1 as [_ E1]. apply Z.eqb_eq in E1.
    rewrite (toQ_empty fraction1 E1), Qplus_0_l. reflexivity. }
  destruct (isEmpty fraction2) eqn:E2.
  { eexists. split; [reflexivity|].
    apply andb_prop in E2 as [_ E2]. apply Z.eqb_eq in E2.
    rewrite (toQ_empty fraction2 E2), Qplus_0_r. reflexivity. }
  assert (Hp1 : 1 <= denominator fraction1).
  { apply nonEmpty_denominator; [|exact E1].
    unfold wellFormed, is_uint32, max_unsigned32. auto. }
  assert (Hp2 : 1 <= denominator fraction2).
  { apply nonEmpty_denominator; [|exact E2].
    unfold wellFormed, is_uint32, max_unsigned32. auto. }
  rewrite Hs1, Hs2. cbn [Z.eqb andb].
  rewrite !uint64_small
    by (try rewrite !uint64_small by nia; nia).
  destruct (Z.gtb_spec (numerator fraction1 * denominator fraction2
                        + numerator fraction2 * denominator fraction1)
              UINT32MAX) as [H|_]; [unfold UINT32MAX in H; lia|].
  unfold addDenominator.
  rewrite !uint64_small by nia.
  destruct (Z.gtb_spec (denominator fraction1 * denominator fraction2)
              UINT32MAX) as [H|_]; [unfold UINT32MAX in H; lia|].
  rewrite !uint32_id by (try rewrite !uint32_id by nia; nia).
  destruct (Z.eqb_spec (denominator fraction1 * denominator fraction2) 0)
    as [E|_]; [nia|]. rewrite andb_false_r.
  eexists. split; [reflexivity|].
  rewrite toQ_reduce
    by (unfold is_uint32, max_unsigned32; cbn [numerator denominator]; nia).
  rewrite !toQ_proper by (cbn [denominator]; nia).
  unfold Qeq, Qplus. cbn [Qnum Qden denominator].
  rewrite Pos2Z.inj_mul, !Z2Pos.id by nia.
  unfold signedNumerator. cbn [sign numerator]. rewrite Hs1, Hs2.
  apply Z.eqb_neq in Hrs. rewrite Hrs. cbn [Z.eqb]. nia.
Qed.

Lemma add_positive_exact_witness :
  exists r,
    add 0 (mkFraction 1 2 0) (mkFraction 1 3 0) 0 = (r, 0)
    /\ (toQ r == toQ (mkFraction 1 2 0) + toQ (mkFraction 1 3 0))%Q.
Proof.
  apply add_positive_exact.
  - unfold wellFormed, is_uint32, max_unsigned32. cbn. repeat split; lia.
  - unfold wellFormed, is_uint32, max_unsigned32. cbn. repeat split; lia.
  - reflexivity.
  - reflexivity.
  - discriminate.
  - unfold max_unsigned32. cbn. lia.
  - unfold max_unsigned32. cbn. lia.
Defined.

Lemma int32_uint32 s : is_int32 s -> int32 (uint32 s) = s.
Proof.
  unfold is_int32, INT32MIN, INT32MAX, int32, uint32. intros H.
  rewrite Zplus_mod_idemp_l. rewrite Z.mod_small; lia.
Qed.

Lemma uint32_int32 z : uint32 (int32 z) = uint32 z.
Proof.
  unfold uint32, int32.
  rewrite Zminus_mod_idemp_l.
  replace (z + 2 ^ 31 - 2 ^ 31) with z by lia. reflexivity.
Qed.

Lemma uint32_signedNumerator32 f :
  uint32 (signedNumerator32 f) = uint32 (signedNumerator f).
Proof.
  unfold signedNumerator32, signedNumerator.
  destruct (sign f =? 1); rewrite uint32_int32; [|reflexivity].
  unfold uint32. rewrite Zmult_mod_idemp_r, Zmod_mod.
  f_equal. lia.
Qed.

Lemma resultNum_exact f1 f2 :
  is_int32 (signedNumerator f1 * denominator f2
            + signedNumerator f2 * denominator f1) ->
  int32 (uint32 (uint32 (uint32 (signedNumerator32 f1) * denominator f2)
                 + uint32 (uint32 (signedNumerator32 f2) * denominator f1)))
  = signedNumerator f1 * denominator f2 + signedNumerator f2 * denominator f1.
Proof.
  intros H. rewrite <- (int32_uint32 _ H). f_equal.
  rewrite !uint32_signedNumerator32. unfold uint32.
  rewrite !Zmult_mod_idemp_l, <- Zplus_mod. reflexivity.
Qed.

Lemma is_int32_inside z : is_int32 z -> outsideInt32 z = false.
Proof.
  unfold is_int32, outsideInt32. intros H.
  destruct (Z.gtb_spec z INT32MAX); [lia|].
  destruct (Z.ltb_spec z INT32MIN); [lia|]. reflexivity.
Qed.

Lemma signedNumerator64_exact f :
  is_uint32 (numerator f) -> signedNumerator64 f = signedNumerator f.
Proof.
  unfold is_uint32, max_unsigned32, signedNumerator64, signedNumerator.
  intros H. destruct (sign f =? 1); [|reflexivity].
  replace (numerator f * -1) with (- numerator f) by lia.
  apply int64_small. lia.
Qed.

(** X6: when the operands do not both carry the sign word 0, none of
    the five signed quantities leaves the signed 32-bit range and the
    denominator product fits 32 bits, [add] leaves the flag as it found it
    and returns the exact sum, whatever the unassigned word. *)
Theorem add_mixed_exact result_sign fraction1 fraction2 overFlow :
  wellFormed fraction1 -> wellFormed fraction2 ->
  ~ (sign fraction1 = 0 /\ sign fraction2 = 0) ->
  ~ addBoundViolated fraction1 fraction2 ->
  denominator fraction1 * denominator fraction2 <= max_unsigned32 ->
  exists r,
    add result_sign fraction1 fraction2 overFlow = (r, overFlow)
    /\ (toQ r == toQ fraction1 + toQ fraction2)%Q.
Proof.
  intros W1 W2 Hsigns Hviol Hd.
  unfold add.
  destruct (isEmpty fraction1) eqn:E1.
  { eexists. split; [reflexivity|].
    apply andb_prop in E1 as [_ E1]. apply Z.eqb_eq in E1.
    rewrite (toQ_empty fraction1 E1), Qplus_0_l. reflexivity. }
  destruct (isEmpty fraction2) eqn:E2.
  { eexists. split; [reflexivity|].
    apply andb_prop in E2 as [_ E2]. apply Z.eqb_eq in E2.
    rewrite (toQ_empty fraction2 E2), Qplus_0_r. reflexivity. }
  pose proof (nonEmpty_denominator _ W1 E1) as Hp1.
  pose proof (nonEmpty_denominator _ W2 E2) as Hp2.
  destruct W1 as (Hn1 & Hd1 & _), W2 as (Hn2 & Hd2 & _).
  assert (Hbranch : (sign fraction1 =? 0) && (sign fraction2 =? 0) = false).
  { destruct (Z.eqb_spec (sign fraction1) 0), (Z.eqb_spec (sign fraction2) 0);
      auto. tauto. }
  rewrite Hbranch.
  rewrite !signedNumerator64_exact by assumption.
  set (c1 := signedNumerator fraction1) in *.
  set (c2 := signedNumerator fraction2) in *.
  assert (I1 : is_int32 c1 /\ is_int32 c2
               /\ is_int32 (c1 * denominator fraction2)
               /\ is_int32 (c2 * denominator fraction1)
               /\ is_int32 (c1 * denominator fraction2
                            + c2 * denominator fraction1)).
  { unfold addBoundViolated in Hviol. fold c1 c2 in Hviol.
    unfold is_int32 in *. lia. }
  destruct I1 as (I1 & I2 & I3 & I4 & I5).
  assert (T1 : (if sign fraction1 =? 1 then c1 <? INT32MIN
                else c1 >? INT32MAX) = false).
  { unfold is_int32 in I1. destruct (sign fraction1 =? 1).
    - apply Z.ltb_ge. lia.
    - rewrite Z.gtb_ltb. apply Z.ltb_ge. lia. }
  assert (T2 : (if sign fraction2 =? 1 then c2 <? INT32MIN
                else c1 >? INT32MAX) = false).
  { unfold is_int32 in I1, I2. destruct (sign fraction2 =? 1).
    - apply Z.ltb_ge. lia.
    - rewrite Z.gtb_ltb. apply Z.ltb_ge. lia. }
  rewrite T1, T2.
  assert (B : forall z, is_int32 z -> int64 z = z).
  { intros z Hz. apply int64_small.
    unfold is_int32, INT32MIN, INT32MAX in Hz. lia. }
  rewrite (B _ I3), (B _ I4), (B _ I5).
  rewrite !is_int32_inside by assumption.
  subst c1 c2. rewrite (resultNum_exact _ _ I5).
  set (S := signedNumerator fraction1 * denominator fraction2
            + signedNumerator fraction2 * denominator fraction1) in *.
  unfold is_uint32, max_unsigned32 in *.
  unfold addDenominator. rewrite !uint64_small by nia.
  destruct (Z.gtb_spec (denominator fraction1 * denominator fraction2)
              UINT32MAX) as [H|_]; [unfold UINT32MAX in H; lia|].
  unfold is_int32, INT32MIN, INT32MAX in I5.
  rewrite !uint32_id by (nia || lia).
  destruct (Z.eqb_spec (denominator fraction1 * denominator fraction2) 0)
    as [E|_]; [nia|]. rewrite andb_false_r.
  eexists. split; [reflexivity|].
  rewrite toQ_reduce
    by (unfold is_uint32, max_unsigned32; cbn [numerator denominator]; nia).
  rewrite !toQ_proper by (cbn [denominator]; nia).
  unfold Qeq, Qplus. cbn [Qnum Qden denominator].
  rewrite Pos2Z.inj_mul, !Z2Pos.id by nia.
  assert (HS : signedNumerator
                 (mkFraction (Z.abs S)
                    (denominator fraction1 * denominator fraction2)
                    (if S <? 0 then 1 else 0)) = S).
  { unfold signedNumerator. cbn [sign numerator].
    destruct (Z.ltb_spec S 0); cbv beta iota; cbn [Z.eqb Pos.eqb]; lia. }
  rewrite HS. subst S. nia.
Qed.

Lemma add_mixed_exact_witness :
  exists r,
    add 7 (mkFraction 1 2 0) (mkFraction 1 3 1) 0 = (r, 0)
    /\ (toQ r == toQ (mkFraction 1 2 0) + toQ (mkFraction 1 3 1))%Q.
Proof.
  apply add_mixed_exact.
  - unfold wellFormed, is_uint32, max_unsigned32. cbn. repeat split; lia.
  - unfold wellFormed, is_uint32, max_unsigned32. cbn. repeat split; lia.
  - cbn. intros [_ H]. discriminate.
  - unfold addBoundViolated, is_int32, INT32MIN, INT32MAX, signedNumerator.
    cbn. lia.
  - unfold max_unsigned32. cbn. lia.
Defined.

(** X7: the empty fraction 0/0 behaves as zero, whatever its sign
    word: a product with it and its quotient by anything are 0/0 with sign
    0, and adding it to a fraction returns that fraction; none of these
    touches the overflow flag. *)
Theorem empty_fraction_is_zero e x result_sign overFlow :
  isEmpty e = true ->
  multiply e x overFlow = (zeroFraction, overFlow)
  /\ multiply x e overFlow = (zeroFraction, overFlow)
  /\ divide e x overFlow = (zeroFraction, overFlow)
  /\ add result_sign e x overFlow = (x, overFlow)
  /\ (isEmpty x = false -> add result_sign x e overFlow = (x, overFlow)).
Proof.
  intros He. pose proof He as He'. unfold isEmpty in He'.
  apply andb_prop in He' as [Hn Hd]. apply Z.eqb_eq in Hn, Hd.
  assert (Hlimit : (uint64 0 >? UINT32MAX) = false) by reflexivity.
  repeat split.
  - unfold multiply. rewrite Hn, Hd, !Z.mul_0_l, Hlimit. reflexivity.
  - unfold multiply. rewrite Hn, Hd, !Z.mul_0_r, Hlimit. reflexivity.
  - unfold divide. rewrite Hn, Hd, !Z.mul_0_l, Hlimit. reflexivity.
  - unfold add. rewrite He. reflexivity.
  - intros Hx. unfold add. rewrite Hx, He. reflexivity.
Qed.

Lemma empty_fraction_is_zero_witness :
  multiply (mkFraction 0 0 1) (mkFraction 3 4 0) 0 = (zeroFraction, 0)
  /\ add 9 (mkFraction 0 0 1) (mkFraction 3 4 0) 0 = (mkFraction 3 4 0, 0).
Proof.
  destruct (empty_fraction_is_zero (mkFraction 0 0 1) (mkFraction 3 4 0) 9 0
              eq_refl) as (Hm & _ & _ & Ha & _).
  split; [exact Hm|exact Ha].
Defined.


(** ** The accessors *)

Lemma cell_setCell_other (m : list (list fraction)) i j x i' j' :
  (i, j) <> (i', j') -> cell (setCell m i j x) i' j' = cell m i' j'.
Proof.
  intros Hne. unfold cell, setCell.
  destruct (decide (i = i')) as [<-|Hi].
  - rewrite list_lookup_alter_eq.
    destruct (m !! i) as [r|]; [|reflexivity]. cbn.
    rewrite list_lookup_insert_ne by congruence. reflexivity.
  - rewrite list_lookup_alter_ne by exact Hi. reflexivity.
Qed.

Lemma shaped_setCell eqCount (m : list (list fraction)) i j x :
  shaped eqCount m -> shaped eqCount (setCell m i j x).
Proof.
  intros [Hlen Hrows]. unfold setCell. split.
  - rewrite length_alter. exact Hlen.
  - apply Forall_alter; [exact Hrows|].
    intros r _ Hr. rewrite length_insert. exact Hr.
Qed.

Lemma cell_shaped_setCell eqCount (m : list (list fraction)) i j x :
  shaped eqCount m -> (i < eqCount)%nat -> (j < eqCount + 1)%nat ->
  cell (setCell m i j x) i j = x.
Proof.
  intros Hs Hi Hj.
  destruct (shaped_row _ _ i Hs Hi) as (r & Hr & Hl).
  eapply cell_setCell_same; eauto. lia.
Qed.

Lemma int32_small z : is_int32 z -> int32 z = z.
Proof.
  unfold is_int32, INT32MIN, INT32MAX, int32. intros H.
  rewrite Z.mod_small; lia.
Qed.

Lemma outOfBounds_false st row column :
  inRange st row column -> outOfBounds st row column = false.
Proof.
  intros [Hr Hc]. unfold outOfBounds.
  repeat match goal with
  | |- context [(?a <? ?b)%nat] => destruct (Nat.ltb_spec a b); [lia|]
  end. reflexivity.
Qed.

(** X8: a value stored by [setCoefficient] at a cell of a configured
    system is read back unchanged by [getOriginalMatrixCoefficient]; the
    fraction getter reports the denominator 1 (0 for the value 0), and the
    altered matrix holds the magnitude with the sign word 1 for a negative
    value. *)
Theorem setCoefficient_roundtrip st row column value coefficientValue :
  configured st -> inRange st row column ->
  -32768 <= value <= 32767 ->
  let st' := setCoefficient row column value st in
  getOriginalMatrixCoefficient st' row column = value
  /\ getOriginalMatrixCoefficientFraction st' row column
     = (value, if value =? 0 then 0 else 1)
  /\ getAlteredMatrixCoefficient st' row column coefficientValue
     = mkFraction (Z.abs value) (if value =? 0 then 0 else 1)
                  (if value <? 0 then 1 else 0).
Proof.
  intros (HN & Hc & Ho & _) Hin Hv. cbn zeta.
  pose proof (outOfBounds_false _ _ _ Hin) as Hb.
  destruct Hin as [Hr Hcol].
  unfold getOriginalMatrixCoefficient, getOriginalMatrixCoefficientFraction,
    getAlteredMatrixCoefficient, setCoefficient.
  rewrite Hb. unfold storeCoefficient, outOfBounds in *.
  cbn [eqCount originalCoefficient coefficient]. rewrite Hb.
  rewrite !(cell_shaped_setCell (eqCount st)) by (assumption || lia).
  cbn [numerator denominator sign].
  destruct (Z.ltb_spec value 0) as [Hneg|Hpos];
    destruct (Z.eqb_spec value 0) as [E|NE]; try lia;
    cbn [Z.eqb Pos.eqb];
    rewrite ?uint32_id by lia;
    rewrite ?(int32_small (Z.abs value)), ?(int32_small value),
      ?(int32_small (Z.abs value * -1)), ?(int32_small 1)
      by (unfold is_int32, INT32MIN, INT32MAX; lia);
    repeat split; try (f_equal; lia); subst; reflexivity.
Qed.

Lemma setCoefficient_roundtrip_witness :
  getOriginalMatrixCoefficient (setCoefficient 1 2 (-7) regularSystem) 1 2
  = -7.
Proof.
  refine (proj1 (setCoefficient_roundtrip regularSystem 1 2 (-7) zeroFraction
                   regularSystem_configured _ _)).
  - unfold inRange. vm_compute. lia.
  - lia.
Defined.

Lemma outOfBounds_inRange st row column :
  outOfBounds st row column = false -> inRange st row column.
Proof.
  unfold outOfBounds, inRange. intros H.
  repeat (apply orb_false_elim in H as [H ?]).
  repeat match goal with
  | H : (_ <? _)%nat = false |- _ => apply Nat.ltb_ge in H
  end. lia.
Qed.

Lemma storeCoefficient_other st row column x row' column' :
  (row, column) <> (row', column') ->
  (1 <= row)%nat -> (1 <= column)%nat ->
  (1 <= row')%nat -> (1 <= column')%nat ->
  let st' := storeCoefficient st row column x in
  cell (originalCoefficient st') (row' - 1) (column' - 1)
  = cell (originalCoefficient st) (row' - 1) (column' - 1)
  /\ cell (coefficient st') (row' - 1) (column' - 1)
     = cell (coefficient st) (row' - 1) (column' - 1).
Proof.
  intros Hne H1 H2 H3 H4. cbn.
  split; apply cell_setCell_other; intros E; inversion E; apply Hne;
    f_equal; lia.
Qed.

(** X9: [setCoefficient] and [setCoefficientFraction] change one cell
    only: every getter reads the same at every other position, and
    [eqCount], [overFlow] and the solution vector stay as they were. *)
Theorem setters_touch_one_cell st row column value numerator' denominator'
    row' column' coefficientValue :
  (row, column) <> (row', column') ->
  forall st',
    st' = setCoefficient row column value st
    \/ st' = setCoefficientFraction row column numerator' denominator' st ->
    getOriginalMatrixCoefficient st' row' column'
    = getOriginalMatrixCoefficient st row' column'
    /\ getOriginalMatrixCoefficientFraction st' row' column'
       = getOriginalMatrixCoefficientFraction st row' column'
    /\ getAlteredMatrixCoefficient st' row' column' coefficientValue
       = getAlteredMatrixCoefficient st row' column' coefficientValue
    /\ eqCount st' = eqCount st
    /\ overFlow st' = overFlow st
    /\ solutionCoefficient st' = solutionCoefficient st.
Proof.
  intros Hne st' Hst'.
  assert (Hcase : st' = st
                  \/ exists x, inRange st row column
                               /\ st' = storeCoefficient st row column x).
  { destruct Hst' as [-> | ->];
      unfold setCoefficient, setCoefficientFraction;
      destruct (outOfBounds st row column) eqn:Hb; auto;
      right; eexists; (split; [apply outOfBounds_inRange, Hb|reflexivity]). }
  destruct Hcase as [-> | (x & [Hr Hc] & ->)]; [repeat split|].
  unfold getOriginalMatrixCoefficient, getOriginalMatrixCoefficientFraction,
    getAlteredMatrixCoefficient.
  assert (Hb : outOfBounds (storeCoefficient st row column x) row' column'
               = outOfBounds st row' column') by reflexivity.
  rewrite Hb.
  destruct (outOfBounds st row' column') eqn:Hb'; [repeat split|].
  apply outOfBounds_inRange in Hb' as [Hr' Hc'].
  destruct (storeCoefficient_other st row column x row' column' Hne)
    as [Eo Ec]; try lia.
  rewrite Eo, Ec. repeat split.
Qed.

Lemma setters_touch_one_cell_witness :
  getOriginalMatrixCoefficient (setCoefficient 1 2 (-7) regularSystem) 2 2
  = getOriginalMatrixCoefficient regularSystem 2 2.
Proof.
  refine (proj1 (setters_touch_one_cell regularSystem 1 2 (-7) 0 0 2 2
                   zeroFraction _ _ (or_introl eq_refl))).
  intros H. discriminate.
Defined.

(** X10: a fraction stored by [setCoefficientFraction] with a
    denominator other than 0 is read back by
    [getOriginalMatrixCoefficientFraction] with a positive denominator and
    the sign moved to the numerator; [getOriginalMatrixCoefficient] returns
    that signed numerator alone. *)
Theorem setCoefficientFraction_roundtrip st row column n d :
  configured st -> inRange st row column ->
  -32768 <= n <= 32767 -> -32768 <= d <= 32767 -> d <> 0 ->
  let st' := setCoefficientFraction row column n d st in
  let signed := if xorb (n <? 0) (d <? 0) then - Z.abs n else Z.abs n in
  getOriginalMatrixCoefficientFraction st' row column = (signed, Z.abs d)
  /\ getOriginalMatrixCoefficient st' row column = signed.
Proof.
  intros (HN & Hc & Ho & _) Hin Hn Hd Hd0. cbn zeta.
  pose proof (outOfBounds_false _ _ _ Hin) as Hb.
  destruct Hin as [Hr Hcol].
  unfold getOriginalMatrixCoefficientFraction, getOriginalMatrixCoefficient,
    setCoefficientFraction.
  rewrite Hb. unfold storeCoefficient, outOfBounds in *.
  cbn [eqCount originalCoefficient coefficient]. rewrite Hb.
  rewrite !(cell_shaped_setCell (eqCount st)) by (assumption || lia).
  cbn [numerator denominator sign].
  destruct (Z.eqb_spec d 0) as [|_]; [contradiction|].
  rewrite !uint32_id by lia.
  rewrite (int32_small (Z.abs n)), (int32_small (Z.abs d))
    by (unfold is_int32, INT32MIN, INT32MAX; lia).
  destruct (n <? 0), (d <? 0); cbn [xorb Z.eqb Pos.eqb];
    rewrite ?(int32_small (Z.abs n * -1))
      by (unfold is_int32, INT32MIN, INT32MAX; lia);
    split; try f_equal; lia.
Qed.

Lemma setCoefficientFraction_roundtrip_witness :
  getOriginalMatrixCoefficientFraction
    (setCoefficientFraction 2 3 6 (-4) regularSystem) 2 3
  = (-6, 4).
Proof.
  refine (proj1 (setCoefficientFraction_roundtrip regularSystem 2 3 6 (-4)
                   regularSystem_configured _ _ _ _)).
  - unfold inRange. vm_compute. lia.
  - lia.
  - lia.
  - discriminate.
Defined.

(** X11: at a position outside the matrix (row or column 0, a row
    above [eqCount], a column above [eqCount + 1]) the two setters leave
    the object unchanged, [getOriginalMatrixCoefficient] returns 0, the
    fraction getter returns 0 and 0, and [getAlteredMatrixCoefficient]
    leaves the caller's structure as it was. *)
Theorem accessors_out_of_range st row column value n d coefficientValue :
  (row = 0 \/ column = 0 \/ eqCount st < row \/ eqCount st + 1 < column)%nat ->
  setCoefficient row column value st = st
  /\ setCoefficientFraction row column n d st = st
  /\ getOriginalMatrixCoefficient st row column = 0
  /\ getOriginalMatrixCoefficientFraction st row column = (0, 0)
  /\ getAlteredMatrixCoefficient st row column coefficientValue
     = coefficientValue.
Proof.
  intros H.
  assert (Hb : outOfBounds st row column = true).
  { unfold outOfBounds.
    destruct (Nat.ltb_spec (eqCount st) row); [reflexivity|].
    destruct (Nat.ltb_spec (eqCount st + 1) column); [reflexivity|].
    destruct (Nat.ltb_spec row 1); [reflexivity|].
    destruct (Nat.ltb_spec column 1); [reflexivity|]. lia. }
  unfold setCoefficient, setCoefficientFraction, getOriginalMatrixCoefficient,
    getOriginalMatrixCoefficientFraction, getAlteredMatrixCoefficient.
  rewrite Hb. repeat split.
Qed.

Lemma accessors_out_of_range_witness :
  setCoefficient 3 1 9 regularSystem = regularSystem
  /\ getOriginalMatrixCoefficient regularSystem 3 1 = 0.
Proof.
  destruct (accessors_out_of_range regularSystem 3 1 9 0 0 zeroFraction)
    as (Hset & _ & Hget & _).
  - right. right. left. vm_compute. lia.
  - split; [exact Hset|exact Hget].
Defined.

Lemma cell_zeroMatrix count i j : cell (zeroMatrix count) i j = zeroFraction.
Proof.
  unfold cell, zeroMatrix.
  destruct (decide (i < count)%nat) as [Hi|Hi].
  - rewrite lookup_replicate_2 by exact Hi. cbn.
    destruct (decide (j < count + 1)%nat) as [Hj|Hj].
    + rewrite lookup_replicate_2 by exact Hj. reflexivity.
    + rewrite (proj1 (lookup_replicate_None _ _ _)) by lia. reflexivity.
  - rewrite (proj1 (lookup_replicate_None _ _ _)) by lia. reflexivity.
Qed.

Lemma shaped_zeroMatrix count : shaped count (zeroMatrix count).
Proof.
  unfold shaped, zeroMatrix. split.
  - apply length_replicate.
  - apply Forall_replicate. apply length_replicate.
Qed.

(** X12: [setSystemEqCount] with a count between 1 and 32767 and
    successful allocation returns 1 and leaves a configured system of that
    size whose two matrices and solution vector hold the empty fraction
    everywhere. *)
Theorem setSystemEqCount_fresh st count :
  (1 <= count)%nat -> Z.of_nat count <= 32767 ->
  let '(code, st') := setSystemEqCount true count st in
  code = 1
  /\ configured st'
  /\ eqCount st' = count
  /\ (forall i j, cell (originalCoefficient st') i j = zeroFraction
                  /\ cell (coefficient st') i j = zeroFraction)
  /\ (forall row column, getOriginalMatrixCoefficient st' row column = 0)
  /\ solutionCoefficient st' = replicate count zeroFraction.
Proof.
  intros Hc Hmax. unfold setSystemEqCount.
  destruct (Nat.eqb_spec count 0); [lia|]. cbn [negb].
  split; [reflexivity|]. split.
  { unfold configured. cbn [eqCount coefficient originalCoefficient
                              solutionCoefficient].
    repeat split; try lia; try apply shaped_zeroMatrix.
    apply length_replicate. }
  split; [reflexivity|]. split.
  { intros i j. cbn [coefficient originalCoefficient].
    rewrite cell_zeroMatrix. auto. }
  split; [|reflexivity].
  intros row column. unfold getOriginalMatrixCoefficient.
  destruct (outOfBounds _ row column); [reflexivity|].
  cbn [originalCoefficient]. rewrite cell_zeroMatrix. reflexivity.
Qed.

Lemma setSystemEqCount_fresh_witness :
  configured (snd (setSystemEqCount true 2 newEqsolver)).
Proof.
  pose proof (setSystemEqCount_fresh newEqsolver 2 ltac:(lia) ltac:(lia))
    as H.
  destruct (setSystemEqCount true 2 newEqsolver) as [code st'].
  exact (proj1 (proj2 H)).
Defined.

(** ** Row operations *)

Lemma swapRows_lookup eqCount row1 row2 (m : list (list fraction)) i :
  length m = eqCount ->
  (1 <= row1 <= eqCount)%nat -> (1 <= row2 <= eqCount)%nat ->
  swapRows eqCount row1 row2 m !! i
  = m !! (if decide (i = row2 - 1)%nat then (row1 - 1)%nat
          else if decide (i = row1 - 1)%nat then (row2 - 1)%nat else i).
Proof.
  intros Hlen H1 H2. unfold swapRows.
  repeat match goal with
  | |- context [(?a <? ?b)%nat] => destruct (Nat.ltb_spec a b); [lia|]
  end. cbn [orb].
  destruct (lookup_lt_is_Some_2 m (row1 - 1)%nat ltac:(lia)) as [r1 Hr1].
  destruct (lookup_lt_is_Some_2 m (row2 - 1)%nat ltac:(lia)) as [r2 Hr2].
  rewrite Hr1, Hr2.
  destruct (decide (i = row2 - 1)%nat) as [->|N2].
  - rewrite list_lookup_insert_eq by (rewrite length_insert; lia). auto.
  - rewrite list_lookup_insert_ne by congruence.
    destruct (decide (i = row1 - 1)%nat) as [->|N1].
    + rewrite list_lookup_insert_eq by lia. auto.
    + rewrite list_lookup_insert_ne by congruence. reflexivity.
Qed.

Lemma swapRows_length eqCount row1 row2 (m : list (list fraction)) :
  length (swapRows eqCount row1 row2 m) = length m.
Proof.
  unfold swapRows. destruct (_ || _); [reflexivity|].
  destruct (m !! _); [|reflexivity]. destruct (m !! _); [|reflexivity].
  rewrite !length_insert. reflexivity.
Qed.

(** X13: [swapRows] with both rows in range exchanges the two rows,
    leaves every other row alone, and undoes itself when called again. *)
Theorem swapRows_exchange eqCount row1 row2 (m : list (list fraction)) :
  length m = eqCount ->
  (1 <= row1 <= eqCount)%nat -> (1 <= row2 <= eqCount)%nat ->
  let m' := swapRows eqCount row1 row2 m in
  (forall j, cell m' (row1 - 1) j = cell m (row2 - 1) j
             /\ cell m' (row2 - 1) j = cell m (row1 - 1) j)
  /\ (forall i j, i <> (row1 - 1)%nat -> i <> (row2 - 1)%nat ->
        cell m' i j = cell m i j)
  /\ swapRows eqCount row1 row2 m' = m.
Proof.
  intros Hlen H1 H2. cbn zeta. repeat split.
  - unfold cell. rewrite swapRows_lookup by assumption.
    repeat case_decide; try congruence; reflexivity.
  - unfold cell. rewrite swapRows_lookup by assumption.
    repeat case_decide; try congruence; reflexivity.
  - intros i j N1 N2. unfold cell. rewrite swapRows_lookup by assumption.
    repeat case_decide; try congruence; reflexivity.
  - apply list_eq. intros i.
    rewrite swapRows_lookup
      by (try rewrite swapRows_length; assumption).
    rewrite swapRows_lookup by assumption.
    repeat case_decide; try congruence; try lia; reflexivity.
Qed.

Lemma swapRows_exchange_witness :
  swapRows 2 1 2 (swapRows 2 1 2 (coefficient regularSystem))
  = coefficient regularSystem.
Proof.
  refine (proj2 (proj2 (swapRows_exchange 2 1 2 (coefficient regularSystem)
                          _ _ _))).
  - reflexivity.
  - lia.
  - lia.
Defined.

Lemma shaped_swapRows eqCount row1 row2 (m : list (list fraction)) :
  shaped eqCount m -> shaped eqCount (swapRows eqCount row1 row2 m).
Proof.
  intros [Hlen Hrows]. split; [rewrite swapRows_length; exact Hlen|].
  unfold swapRows. destruct (_ || _); [exact Hrows|].
  destruct (m !! (row1 - 1)%nat) as [r1|] eqn:E1; [|exact Hrows].
  destruct (m !! (row2 - 1)%nat) as [r2|] eqn:E2; [|exact Hrows].
  rewrite Forall_forall in Hrows.
  apply Forall_insert; [apply Forall_insert|].
  - apply Forall_forall. exact Hrows.
  - apply Hrows. eapply list_elem_of_lookup_2; eauto.
  - apply Hrows. eapply list_elem_of_lookup_2; eauto.
Qed.

Lemma multiply_fst a b overFlow :
  fst (multiply a b overFlow) = fst (multiply a b 0).
Proof. unfold multiply, signalOverflow, ret. split_ifs; reflexivity. Qed.

Lemma divide_fst a b overFlow :
  fst (divide a b overFlow) = fst (divide a b 0).
Proof. unfold divide, signalOverflow, ret. split_ifs; reflexivity. Qed.

Lemma add_fst s a b overFlow :
  fst (add s a b overFlow) = fst (add s a b 0).
Proof.
  unfold add, addDenominator, signalOverflow, ret. split_ifs; reflexivity.
Qed.

Lemma divide_sticky a b overFlow :
  overFlow <> 0 -> snd (divide a b overFlow) <> 0.
Proof.
  intros H. unfold divide, signalOverflow, ret. split_ifs; cbn; lia.
Qed.

(** X14: [multiply], [divide] and [add] never clear the overflow flag:
    on return it holds either the value found on entry or 1. *)
Theorem flag_set_or_kept result_sign a b overFlow :
  (snd (multiply a b overFlow) = overFlow \/ snd (multiply a b overFlow) = 1)
  /\ (snd (divide a b overFlow) = overFlow \/ snd (divide a b overFlow) = 1)
  /\ (snd (add result_sign a b overFlow) = overFlow
      \/ snd (add result_sign a b overFlow) = 1).
Proof.
  unfold multiply, divide, add, addDenominator, signalOverflow, ret.
  repeat split; split_ifs; cbn; auto.
Qed.

Lemma multiply_snd a b overFlow :
  snd (multiply a b overFlow) = overFlow /\ snd (multiply a b 0) = 0
  \/ snd (multiply a b overFlow) = 1 /\ snd (multiply a b 0) = 1.
Proof. unfold multiply, signalOverflow, ret. split_ifs; cbn; auto. Qed.

Lemma divide_snd a b overFlow :
  snd (divide a b overFlow) = overFlow /\ snd (divide a b 0) = 0
  \/ snd (divide a b overFlow) = 1 /\ snd (divide a b 0) = 1.
Proof. unfold divide, signalOverflow, ret. split_ifs; cbn; auto. Qed.

Lemma add_snd s a b overFlow :
  snd (add s a b overFlow) = overFlow /\ snd (add s a b 0) = 0
  \/ snd (add s a b overFlow) = 1 /\ snd (add s a b 0) = 1.
Proof.
  unfold add, addDenominator, signalOverflow, ret. split_ifs; cbn; auto.
Qed.

Section RowLoop.

Variables (eqCount row : nat) (operand : fraction).
Hypothesis rowInRange : (1 <= row <= eqCount)%nat.

Lemma multiplyColumns_effect count :
  forall column w,
    shaped eqCount (cells w) -> (column + count <= eqCount + 1)%nat ->
    let w' := multiplyColumns count column row operand w in
    shaped eqCount (cells w')
    /\ reads w' = reads w
    /\ (forall i j, i <> (row - 1)%nat ->
          cell (cells w') i j = cell (cells w) i j)
    /\ (flag w' = 0 ->
        flag w = 0
        /\ forall j,
             (if decide (column <= j < column + count)%nat
              then multiply (cell (cells w) (row - 1) j) operand 0
              else (cell (cells w) (row - 1) j, 0))
             = (cell (cells w') (row - 1) j, 0))
    /\ (flag w = 0 ->
        (forall j, (column <= j < column + count)%nat ->
           snd (multiply (cell (cells w) (row - 1) j) operand 0) = 0) ->
        flag w' = 0).
Proof using rowInRange.
  induction count as [|count IH]; intros column w Hs Hc; cbn zeta.
  - cbn [multiplyColumns].
    split; [exact Hs|]. split; [reflexivity|]. split; [reflexivity|].
    split; [|auto].
    intros Hz. split; [exact Hz|]. intros j. case_decide; [lia|reflexivity].
  - cbn [multiplyColumns].
    pose proof (multiply_fst (cell (cells w) (row - 1) column) operand
                  (flag w)) as Hfst.
    pose proof (multiply_snd (cell (cells w) (row - 1) column) operand
                  (flag w)) as Hsnd.
    pose proof (multiply_sticky (cell (cells w) (row - 1) column) operand
                  (flag w)) as Hst.
    destruct (multiply _ _ (flag w)) as [x overFlow'].
    cbn [fst snd] in Hfst, Hsnd, Hst.
    set (w1 := mkWork (setCell (cells w) (row - 1) column x) overFlow'
                      (reads w)).
    assert (Hs1 : shaped eqCount (cells w1)) by (apply shaped_setCell, Hs).
    assert (Hother : forall i j, i <> (row - 1)%nat ->
              cell (cells w1) i j = cell (cells w) i j).
    { intros i j Hi. apply cell_setCell_other. congruence. }
    assert (Hrow : forall j, cell (cells w1) (row - 1) j
              = if decide (j = column) then x else cell (cells w) (row - 1) j).
    { intros j. case_decide as Hj.
      - subst j. apply (cell_shaped_setCell eqCount); [exact Hs|lia|lia].
      - apply cell_setCell_other. congruence. }
    destruct (Z.eqb_spec overFlow' 0) as [E|NE].
    + specialize (IH (S column) w1 Hs1 ltac:(lia)). cbn zeta in IH.
      destruct IH as (IH1 & IH2 & IH3 & IH4 & IH5).
      split; [exact IH1|]. split; [exact IH2|]. split; [|split].
      * intros i j Hi. rewrite IH3 by exact Hi. apply Hother, Hi.
      * intros Hz. destruct (IH4 Hz) as [_ Hcells].
        assert (Hw : flag w = 0).
        { destruct (Z.eq_dec (flag w) 0); [assumption|].
          exfalso. apply Hst; assumption. }
        split; [exact Hw|].
        intros j. rewrite <- Hcells, !Hrow.
        destruct (decide (j = column)) as [->|Hj].
        { repeat case_decide; try lia.
          rewrite (surjective_pairing (multiply _ _ _)), <- Hfst.
          f_equal. destruct Hsnd as [[_ Hclear]|[Hset _]]; [exact Hclear|lia]. }
        repeat case_decide; try lia; reflexivity.
      * intros Hw Hall. apply IH5; [exact E|].
        intros j Hj. rewrite Hrow. case_decide; [lia|]. apply Hall. lia.
    + split; [exact Hs1|]. split; [reflexivity|]. split; [exact Hother|].
      split.
      * intros Hz. cbn in Hz. contradiction.
      * intros Hw Hall. exfalso. specialize (Hall column ltac:(lia)).
        destruct Hsnd as [[Hkept _]|[_ Hset]]; lia.
Qed.

Lemma divideColumns_effect count :
  forall column w,
    shaped eqCount (cells w) -> (column + count <= eqCount + 1)%nat ->
    let w' := divideColumns count column row operand w in
    shaped eqCount (cells w')
    /\ reads w' = reads w
    /\ (forall i j, i <> (row - 1)%nat ->
          cell (cells w') i j = cell (cells w) i j)
    /\ (flag w' = 0 ->
        flag w = 0
        /\ forall j,
             (if decide (column <= j < column + count)%nat
              then divide (cell (cells w) (row - 1) j) operand 0
              else (cell (cells w) (row - 1) j, 0))
             = (cell (cells w') (row - 1) j, 0))
    /\ (flag w = 0 ->
        (forall j, (column <= j < column + count)%nat ->
           snd (divide (cell (cells w) (row - 1) j) operand 0) = 0) ->
        flag w' = 0).
Proof using rowInRange.
  induction count as [|count IH]; intros column w Hs Hc; cbn zeta.
  - cbn [divideColumns].
    split; [exact Hs|]. split; [reflexivity|]. split; [reflexivity|].
    split; [|auto].
    intros Hz. split; [exact Hz|]. intros j. case_decide; [lia|reflexivity].
  - cbn [divideColumns].
    pose proof (divide_fst (cell (cells w) (row - 1) column) operand
                  (flag w)) as Hfst.
    pose proof (divide_snd (cell (cells w) (row - 1) column) operand
                  (flag w)) as Hsnd.
    pose proof (divide_sticky (cell (cells w) (row - 1) column) operand
                  (flag w)) as Hst.
    destruct (divide _ _ (flag w)) as [x overFlow'].
    cbn [fst snd] in Hfst, Hsnd, Hst.
    set (w1 := mkWork (setCell (cells w) (row - 1) column x) overFlow'
                      (reads w)).
    assert (Hs1 : shaped eqCount (cells w1)) by (apply shaped_setCell, Hs).
    assert (Hother : forall i j, i <> (row - 1)%nat ->
              cell (cells w1) i j = cell (cells w) i j).
    { intros i j Hi. apply cell_setCell_other. congruence. }
    assert (Hrow : forall j, cell (cells w1) (row - 1) j
              = if decide (j = column) then x else cell (cells w) (row - 1) j).
    { intros j. case_decide as Hj.
      - subst j. apply (cell_shaped_setCell eqCount); [exact Hs|lia|lia].
      - apply cell_setCell_other. congruence. }
    destruct (Z.eqb_spec overFlow' 0) as [E|NE].
    + specialize (IH (S column) w1 Hs1 ltac:(lia)). cbn zeta in IH.
      destruct IH as (IH1 & IH2 & IH3 & IH4 & IH5).
      split; [exact IH1|]. split; [exact IH2|]. split; [|split].
      * intros i j Hi. rewrite IH3 by exact Hi. apply Hother, Hi.
      * intros Hz. destruct (IH4 Hz) as [_ Hcells].
        assert (Hw : flag w = 0).
        { destruct (Z.eq_dec (flag w) 0); [assumption|].
          exfalso. apply Hst; assumption. }
        split; [exact Hw|].
        intros j. rewrite <- Hcells, !Hrow.
        destruct (decide (j = column)) as [->|Hj].
        { repeat case_decide; try lia.
          rewrite (surjective_pairing (divide _ _ _)), <- Hfst.
          f_equal. destruct Hsnd as [[_ Hclear]|[Hset _]]; [exact Hclear|lia]. }
        repeat case_decide; try lia; reflexivity.
      * intros Hw Hall. apply IH5; [exact E|].
        intros j Hj. rewrite Hrow. case_decide; [lia|]. apply Hall. lia.
    + split; [exact Hs1|]. split; [reflexivity|]. split; [exact Hother|].
      split.
      * intros Hz. cbn in Hz. contradiction.
      * intros Hw Hall. exfalso. specialize (Hall column ltac:(lia)).
        destruct Hsnd as [[Hkept _]|[_ Hset]]; lia.
Qed.

Variables (stack : nat -> Z) (rowToAdd : nat).

Lemma addColumns_effect count :
  forall column w,
    shaped eqCount (cells w) -> (column + count <= eqCount + 1)%nat ->
    let w' := addColumns stack count column row rowToAdd w in
    shaped eqCount (cells w')
    /\ (reads w <= reads w' <= reads w + count)%nat
    /\ (forall i j, i <> (row - 1)%nat ->
          cell (cells w') i j = cell (cells w) i j)
    /\ (flag w' = 0 ->
        flag w = 0
        /\ reads w' = (reads w + count)%nat
        /\ forall j,
             (if decide (column <= j < column + count)%nat
              then add (stack (reads w + (j - column))%nat)
                       (cell (cells w) (row - 1) j)
                       (cell (cells w) (rowToAdd - 1) j) 0
              else (cell (cells w) (row - 1) j, 0))
             = (cell (cells w') (row - 1) j, 0))
    /\ (flag w = 0 ->
        (forall j, (column <= j < column + count)%nat ->
           snd (add (stack (reads w + (j - column))%nat)
                    (cell (cells w) (row - 1) j)
                    (cell (cells w) (rowToAdd - 1) j) 0) = 0) ->
        flag w' = 0).
Proof using rowInRange.
  induction count as [|count IH]; intros column w Hs Hc; cbn zeta.
  - cbn [addColumns].
    split; [exact Hs|]. split; [lia|]. split; [reflexivity|].
    split; [|auto].
    intros Hz. split; [exact Hz|]. split; [lia|].
    intros j. case_decide; [lia|reflexivity].
  - cbn [addColumns].
    pose proof (add_fst (stack (reads w)) (cell (cells w) (row - 1) column)
                  (cell (cells w) (rowToAdd - 1) column) (flag w)) as Hfst.
    pose proof (add_snd (stack (reads w)) (cell (cells w) (row - 1) column)
                  (cell (cells w) (rowToAdd - 1) column) (flag w)) as Hsnd.
    pose proof (add_sticky (stack (reads w))
                  (cell (cells w) (row - 1) column)
                  (cell (cells w) (rowToAdd - 1) column) (flag w)) as Hst.
    destruct (add _ _ _ (flag w)) as [x overFlow'].
    cbn [fst snd] in Hfst, Hsnd, Hst.
    set (w1 := mkWork (setCell (cells w) (row - 1) column x) overFlow'
                      (S (reads w))).
    assert (Hs1 : shaped eqCount (cells w1)) by (apply shaped_setCell, Hs).
    assert (Hcell : forall i j, (i, j) <> ((row - 1)%nat, column) ->
              cell (cells w1) i j = cell (cells w) i j).
    { intros i j Hi. apply cell_setCell_other. congruence. }
    assert (Hhere : cell (cells w1) (row - 1) column = x).
    { apply (cell_shaped_setCell eqCount); [exact Hs|lia|lia]. }
    assert (Hk : forall j, (S column <= j)%nat ->
              (reads w1 + (j - S column) = reads w + (j - column))%nat).
    { intros j Hj. subst w1. cbn [reads]. lia. }
    destruct (Z.eqb_spec overFlow' 0) as [E|NE].
    + specialize (IH (S column) w1 Hs1 ltac:(lia)). cbn zeta in IH.
      destruct IH as (IH1 & IH2 & IH3 & IH4 & IH5).
      split; [exact IH1|]. split; [subst w1; cbn [reads] in IH2; lia|].
      split; [|split].
      * intros i j Hi. rewrite IH3 by exact Hi. apply Hcell. congruence.
      * intros Hz. destruct (IH4 Hz) as (_ & Hreads & Hcells).
        assert (Hw : flag w = 0).
        { destruct (Z.eq_dec (flag w) 0); [assumption|].
          exfalso. apply Hst; assumption. }
        split; [exact Hw|].
        split; [subst w1; cbn [reads] in Hreads; lia|].
        intros j. rewrite <- Hcells.
        destruct (decide (j = column)) as [->|Hj].
        { repeat case_decide; try lia. rewrite Hhere.
          replace (reads w + (column - column))%nat with (reads w) by lia.
          rewrite (surjective_pairing (add _ _ _ _)), <- Hfst.
          f_equal. destruct Hsnd as [[_ Hclear]|[Hset _]]; [exact Hclear|lia]. }
        rewrite !Hcell by congruence.
        repeat case_decide; try lia; [|reflexivity].
        rewrite Hk by lia. reflexivity.
      * intros Hw Hall. apply IH5; [exact E|].
        intros j Hj. rewrite !Hcell by (intros [=]; lia).
        rewrite Hk by lia. apply Hall. lia.
    + split; [exact Hs1|]. split; [subst w1; cbn [reads]; lia|].
      split; [|split].
      * intros i j Hi. apply Hcell. congruence.
      * intros Hz. cbn in Hz. contradiction.
      * intros Hw Hall. exfalso. specialize (Hall column ltac:(lia)).
        replace (reads w + (column - column))%nat with (reads w) in Hall
          by lia.
        destruct Hsnd as [[Hkept _]|[_ Hset]]; lia.
Qed.

End RowLoop.

(** X15: [multiplyMatrixRow] on a row in range of a matrix of at most
    32767 equations, entered with the flag clear, touches no other row; it
    ends with the flag clear exactly when no product of a cell of the row
    with the multiplier overflows, and then every cell of the row holds its
    product. *)
Theorem multiplyMatrixRow_cells eqCount row multiplier w :
  Z.of_nat eqCount <= 32767 -> shaped eqCount (cells w) ->
  (1 <= row <= eqCount)%nat -> flag w = 0 ->
  let w' := multiplyMatrixRow eqCount row multiplier w in
  shaped eqCount (cells w')
  /\ reads w' = reads w
  /\ (forall i j, i <> (row - 1)%nat ->
        cell (cells w') i j = cell (cells w) i j)
  /\ (flag w' = 0 <->
      forall j, (j <= eqCount)%nat ->
        snd (multiply (cell (cells w) (row - 1) j) multiplier 0) = 0)
  /\ (flag w' = 0 ->
      forall j, (j <= eqCount)%nat ->
        cell (cells w') (row - 1) j
        = fst (multiply (cell (cells w) (row - 1) j) multiplier 0)).
Proof.
  intros _ Hs Hrow Hw. cbn zeta. unfold multiplyMatrixRow.
  destruct (Nat.ltb_spec row 1); [lia|].
  destruct (Nat.ltb_spec eqCount row); [lia|]. cbn [orb].
  destruct (multiplyColumns_effect eqCount row multiplier Hrow
              (eqCount + 1) 0 w Hs ltac:(lia)) as (E1 & E2 & E3 & E4 & E5).
  split; [exact E1|]. split; [exact E2|]. split; [exact E3|].
  assert (Hcells : flag (multiplyColumns (eqCount + 1) 0 row multiplier w) = 0
            -> forall j, (j <= eqCount)%nat ->
                 multiply (cell (cells w) (row - 1) j) multiplier 0
                 = (cell (cells (multiplyColumns (eqCount + 1) 0 row
                                   multiplier w)) (row - 1) j, 0)).
  { intros Hz j Hj. destruct (E4 Hz) as [_ Hc]. specialize (Hc j).
    case_decide; [exact Hc|lia]. }
  split; [split|].
  - intros Hz j Hj. rewrite (Hcells Hz j Hj). reflexivity.
  - intros Hall. apply E5; [exact Hw|]. intros j Hj. apply Hall. lia.
  - intros Hz j Hj. rewrite (Hcells Hz j Hj). reflexivity.
Qed.

Lemma multiplyMatrixRow_cells_witness :
  reads (multiplyMatrixRow 2 1 (mkFraction 3 1 0) (memberWork regularSystem))
  = reads (memberWork regularSystem).
Proof.
  refine (proj1 (proj2 (multiplyMatrixRow_cells 2 1 (mkFraction 3 1 0)
                          (memberWork regularSystem) _ _ _ _))).
  - lia.
  - apply regularSystem_configured.
  - lia.
  - reflexivity.
Defined.

(** X16: [divideMatrixRow] on a row in range of a matrix of at most
    32767 equations, entered with the flag clear, touches no other row; it
    ends with the flag clear exactly when no quotient of a cell of the row
    by the divisor overflows, and then every cell of the row holds its
    quotient. *)
Theorem divideMatrixRow_cells eqCount row divisor w :
  Z.of_nat eqCount <= 32767 -> shaped eqCount (cells w) ->
  (1 <= row <= eqCount)%nat -> flag w = 0 ->
  let w' := divideMatrixRow eqCount row divisor w in
  shaped eqCount (cells w')
  /\ reads w' = reads w
  /\ (forall i j, i <> (row - 1)%nat ->
        cell (cells w') i j = cell (cells w) i j)
  /\ (flag w' = 0 <->
      forall j, (j <= eqCount)%nat ->
        snd (divide (cell (cells w) (row - 1) j) divisor 0) = 0)
  /\ (flag w' = 0 ->
      forall j, (j <= eqCount)%nat ->
        cell (cells w') (row - 1) j
        = fst (divide (cell (cells w) (row - 1) j) divisor 0)).
Proof.
  intros _ Hs Hrow Hw. cbn zeta. unfold divideMatrixRow.
  destruct (Nat.ltb_spec row 1); [lia|].
  destruct (Nat.ltb_spec eqCount row); [lia|]. cbn [orb].
  destruct (divideColumns_effect eqCount row divisor Hrow
              (eqCount + 1) 0 w Hs ltac:(lia)) as (E1 & E2 & E3 & E4 & E5).
  split; [exact E1|]. split; [exact E2|]. split; [exact E3|].
  assert (Hcells : flag (divideColumns (eqCount + 1) 0 row divisor w) = 0
            -> forall j, (j <= eqCount)%nat ->
                 divide (cell (cells w) (row - 1) j) divisor 0
                 = (cell (cells (divideColumns (eqCount + 1) 0 row
                                   divisor w)) (row - 1) j, 0)).
  { intros Hz j Hj. destruct (E4 Hz) as [_ Hc]. specialize (Hc j).
    case_decide; [exact Hc|lia]. }
  split; [split|].
  - intros Hz j Hj. rewrite (Hcells Hz j Hj). reflexivity.
  - intros Hall. apply E5; [exact Hw|]. intros j Hj. apply Hall. lia.
  - intros Hz j Hj. rewrite (Hcells Hz j Hj). reflexivity.
Qed.

Lemma divideMatrixRow_cells_witness :
  reads (divideMatrixRow 2 1 (mkFraction 3 1 0) (memberWork regularSystem))
  = reads (memberWork regularSystem).
Proof.
  refine (proj1 (proj2 (divideMatrixRow_cells 2 1 (mkFraction 3 1 0)
                          (memberWork regularSystem) _ _ _ _))).
  - lia.
  - apply regularSystem_configured.
  - lia.
  - reflexivity.
Defined.

(** X17: [addMatrixRows] with both rows in range of a matrix of at most
    32767 equations, entered with the flag clear, touches no row but the
    target; it ends with the flag clear exactly when no sum of a target
    cell and the cell of the same column in [rowToAdd] overflows, and then
    it has called [add] once per column and every target cell holds its
    sum. *)
Theorem addMatrixRows_cells stack eqCount row rowToAdd w :
  Z.of_nat eqCount <= 32767 -> shaped eqCount (cells w) ->
  (1 <= row <= eqCount)%nat -> (1 <= rowToAdd <= eqCount)%nat ->
  flag w = 0 ->
  let w' := addMatrixRows stack eqCount row rowToAdd w in
  let sum j :=
    add (stack (reads w + j)%nat) (cell (cells w) (row - 1) j)
        (cell (cells w) (rowToAdd - 1) j) 0 in
  shaped eqCount (cells w')
  /\ (reads w <= reads w' <= reads w + (eqCount + 1))%nat
  /\ (forall i j, i <> (row - 1)%nat ->
        cell (cells w') i j = cell (cells w) i j)
  /\ (flag w' = 0 <-> forall j, (j <= eqCount)%nat -> snd (sum j) = 0)
  /\ (flag w' = 0 ->
      reads w' = (reads w + (eqCount + 1))%nat
      /\ forall j, (j <= eqCount)%nat ->
           cell (cells w') (row - 1) j = fst (sum j)).
Proof.
  intros _ Hs Hrow Hadd Hw. cbn zeta. unfold addMatrixRows.
  destruct (Nat.ltb_spec row 1); [lia|].
  destruct (Nat.ltb_spec eqCount row); [lia|].
  destruct (Nat.ltb_spec rowToAdd 1); [lia|].
  destruct (Nat.ltb_spec eqCount rowToAdd); [lia|]. cbn [orb].
  destruct (addColumns_effect eqCount row Hrow stack rowToAdd
              (eqCount + 1) 0 w Hs ltac:(lia)) as (E1 & E2 & E3 & E4 & E5).
  split; [exact E1|]. split; [exact E2|]. split; [exact E3|].
  assert (Hcells :
    flag (addColumns stack (eqCount + 1) 0 row rowToAdd w) = 0
    -> forall j, (j <= eqCount)%nat ->
         add (stack (reads w + j)%nat) (cell (cells w) (row - 1) j)
             (cell (cells w) (rowToAdd - 1) j) 0
         = (cell (cells (addColumns stack (eqCount + 1) 0 row rowToAdd w))
              (row - 1) j, 0)).
  { intros Hz j Hj. destruct (E4 Hz) as (_ & _ & Hc). specialize (Hc j).
    replace (j - 0)%nat with j in Hc by lia.
    case_decide; [exact Hc|lia]. }
  split; [split|].
  - intros Hz j Hj. rewrite (Hcells Hz j Hj). reflexivity.
  - intros Hall. apply E5; [exact Hw|]. intros j Hj.
    replace (j - 0)%nat with j by lia. apply Hall. lia.
  - intros Hz. split; [apply (E4 Hz)|].
    intros j Hj. rewrite (Hcells Hz j Hj). reflexivity.
Qed.

Lemma addMatrixRows_cells_witness :
  (reads (memberWork regularSystem)
   <= reads (addMatrixRows (fun _ => 0%Z) 2 1 2 (memberWork regularSystem))
   <= reads (memberWork regularSystem) + (2 + 1))%nat.
Proof.
  refine (proj1 (proj2 (addMatrixRows_cells (fun _ => 0) 2 1 2
                          (memberWork regularSystem) _ _ _ _ _))).
  - lia.
  - apply regularSystem_configured.
  - lia.
  - lia.
  - reflexivity.
Defined.

(** ** The overflow flag across the public interface *)

(** X18: the public row operations do not reset [overFlow].
    Called while the flag is set, each of them processes column 0 of the
    row only, leaves every other cell as it was, and returns with the flag
    still set. *)
Theorem stale_flag_stops_row_operation st row rowToAdd operand stack :
  configured st ->
  (1 <= row <= eqCount st)%nat -> (1 <= rowToAdd <= eqCount st)%nat ->
  overFlow st <> 0 ->
  let first := cell (coefficient st) (row - 1) 0 in
  forall st' x,
    (st' = multiplyMatrixRowAltered row operand st
     /\ x = fst (multiply first operand 0))
    \/ (st' = divideMatrixRowAltered row operand st
        /\ x = fst (divide first operand 0))
    \/ (st' = addMatrixRowsAltered stack row rowToAdd st
        /\ x = fst (add (stack 0%nat) first
                      (cell (coefficient st) (rowToAdd - 1) 0) 0)) ->
    overFlow st' <> 0
    /\ forall i j,
         cell (coefficient st') i j
         = if decide ((i, j) = ((row - 1)%nat, 0%nat)) then x
           else cell (coefficient st) i j.
Proof.
  intros (_ & Hs & _) Hrow Hadd Hflag first st' x Hcase.
  assert (Hcell : forall y i j,
    cell (setCell (coefficient st) (row - 1) 0 y) i j
    = if decide ((i, j) = ((row - 1)%nat, 0%nat)) then y
      else cell (coefficient st) i j).
  { intros y i j. case_decide as Hij.
    - inversion Hij; subst.
      apply (cell_shaped_setCell (eqCount st)); [exact Hs|lia|lia].
    - apply cell_setCell_other. congruence. }
  destruct Hcase as [[-> ->]|[[-> ->]|[-> ->]]].
  - unfold multiplyMatrixRowAltered, multiplyMatrixRow, memberWork.
    destruct (Nat.ltb_spec row 1); [lia|].
    destruct (Nat.ltb_spec (eqCount st) row); [lia|]. cbn [orb].
    replace (eqCount st + 1)%nat with (S (eqCount st)) by lia.
    cbn [multiplyColumns cells flag reads].
    pose proof (multiply_fst first operand (overFlow st)) as Hfst.
    pose proof (multiply_sticky first operand (overFlow st) Hflag) as Hst.
    fold first. destruct (multiply first operand (overFlow st)) as [y f].
    cbn [fst snd] in Hfst, Hst.
    destruct (Z.eqb_spec f 0); [contradiction|].
    cbn [withWork cells flag overFlow coefficient]. rewrite <- Hfst.
    split; [exact Hst|apply Hcell].
  - unfold divideMatrixRowAltered, divideMatrixRow, memberWork.
    destruct (Nat.ltb_spec row 1); [lia|].
    destruct (Nat.ltb_spec (eqCount st) row); [lia|]. cbn [orb].
    replace (eqCount st + 1)%nat with (S (eqCount st)) by lia.
    cbn [divideColumns cells flag reads].
    pose proof (divide_fst first operand (overFlow st)) as Hfst.
    pose proof (divide_sticky first operand (overFlow st) Hflag) as Hst.
    fold first. destruct (divide first operand (overFlow st)) as [y f].
    cbn [fst snd] in Hfst, Hst.
    destruct (Z.eqb_spec f 0); [contradiction|].
    cbn [withWork cells flag overFlow coefficient]. rewrite <- Hfst.
    split; [exact Hst|apply Hcell].
  - unfold addMatrixRowsAltered, addMatrixRows, memberWork.
    destruct (Nat.ltb_spec row 1); [lia|].
    destruct (Nat.ltb_spec (eqCount st) row); [lia|].
    destruct (Nat.ltb_spec rowToAdd 1); [lia|].
    destruct (Nat.ltb_spec (eqCount st) rowToAdd); [lia|]. cbn [orb].
    replace (eqCount st + 1)%nat with (S (eqCount st)) by lia.
    cbn [addColumns cells flag reads].
    pose proof (add_fst (stack 0%nat) first
                  (cell (coefficient st) (rowToAdd - 1) 0) (overFlow st))
      as Hfst.
    pose proof (add_sticky (stack 0%nat) first
                  (cell (coefficient st) (rowToAdd - 1) 0) (overFlow st)
                  Hflag) as Hst.
    fold first.
    destruct (add (stack 0%nat) first _ (overFlow st)) as [y f].
    cbn [fst snd] in Hfst, Hst.
    destruct (Z.eqb_spec f 0); [contradiction|].
    cbn [withWork cells flag overFlow coefficient]. rewrite <- Hfst.
    split; [exact Hst|apply Hcell].
Qed.

Lemma stale_flag_stops_row_operation_witness :
  overFlow (multiplyMatrixRowAltered 1 (mkFraction 3 1 0)
              (withOverFlow regularSystem 1)) <> 0.
Proof.
  refine (proj1 (stale_flag_stops_row_operation
                   (withOverFlow regularSystem 1) 1 2 (mkFraction 3 1 0)
                   (fun _ => 0) _ _ _ _ _ _
                   (or_introl (conj eq_refl eq_refl)))).
  - exact regularSystem_configured.
  - vm_compute. lia.
  - vm_compute. lia.
  - discriminate.
Defined.

Section Flags.

Variables (stack : nat -> Z) (eqCount : nat).

Lemma multiplyColumns_flag row multiplier count :
  forall column w,
    let w' := multiplyColumns count column row multiplier w in
    flag w' = flag w \/ flag w' = 1.
Proof.
  induction count as [|count IH]; intros column w; cbn zeta; [auto|].
  cbn [multiplyColumns].
  pose proof (multiply_snd (cell (cells w) (row - 1) column) multiplier
                (flag w)) as Hsnd.
  destruct (multiply _ _ (flag w)) as [x f]. cbn [snd] in Hsnd.
  destruct (Z.eqb_spec f 0).
  - specialize (IH (S column)
                  (mkWork (setCell (cells w) (row - 1) column x) f (reads w))).
    cbn zeta in IH. cbn [flag] in IH. lia.
  - cbn [flag]. lia.
Qed.

Lemma divideColumns_flag row divisor count :
  forall column w,
    let w' := divideColumns count column row divisor w in
    flag w' = flag w \/ flag w' = 1.
Proof.
  induction count as [|count IH]; intros column w; cbn zeta; [auto|].
  cbn [divideColumns].
  pose proof (divide_snd (cell (cells w) (row - 1) column) divisor
                (flag w)) as Hsnd.
  destruct (divide _ _ (flag w)) as [x f]. cbn [snd] in Hsnd.
  destruct (Z.eqb_spec f 0).
  - specialize (IH (S column)
                  (mkWork (setCell (cells w) (row - 1) column x) f (reads w))).
    cbn zeta in IH. cbn [flag] in IH. lia.
  - cbn [flag]. lia.
Qed.

Lemma addColumns_flag row rowToAdd count :
  forall column w,
    let w' := addColumns stack count column row rowToAdd w in
    flag w' = flag w \/ flag w' = 1.
Proof.
  induction count as [|count IH]; intros column w; cbn zeta; [auto|].
  cbn [addColumns].
  pose proof (add_snd (stack (reads w)) (cell (cells w) (row - 1) column)
                (cell (cells w) (rowToAdd - 1) column) (flag w)) as Hsnd.
  destruct (add _ _ _ (flag w)) as [x f]. cbn [snd] in Hsnd.
  destruct (Z.eqb_spec f 0).
  - specialize (IH (S column)
                  (mkWork (setCell (cells w) (row - 1) column x) f
                          (S (reads w)))).
    cbn zeta in IH. cbn [flag] in IH. lia.
  - cbn [flag]. lia.
Qed.

Lemma multiplyMatrixRow_flag row multiplier w :
  flag (multiplyMatrixRow eqCount row multiplier w) = flag w
  \/ flag (multiplyMatrixRow eqCount row multiplier w) = 1.
Proof.
  unfold multiplyMatrixRow. destruct (_ || _); [auto|].
  apply multiplyColumns_flag.
Qed.

Lemma divideMatrixRow_flag row divisor w :
  flag (divideMatrixRow eqCount row divisor w) = flag w
  \/ flag (divideMatrixRow eqCount row divisor w) = 1.
Proof.
  unfold divideMatrixRow. destruct (_ || _); [auto|].
  apply divideColumns_flag.
Qed.

Lemma addMatrixRows_flag row rowToAdd w :
  flag (addMatrixRows stack eqCount row rowToAdd w) = flag w
  \/ flag (addMatrixRows stack eqCount row rowToAdd w) = 1.
Proof.
  unfold addMatrixRows. destruct (_ || _); [auto|].
  apply addColumns_flag.
Qed.

Lemma clearRow_flag row column rowCounter w :
  flag w = 0 -> flagMatches (clearRow stack eqCount row column rowCounter w).
Proof.
  intros Hw. unfold clearRow.
  destruct (isEmpty _); [exact Hw|].
  set (m := cell (cells w) rowCounter column).
  pose proof (multiplyMatrixRow_flag (row + 1) m w) as H1.
  set (w1 := multiplyMatrixRow eqCount (row + 1) m w) in *.
  destruct (Z.eqb_spec (flag w1) 0) as [E1|N1]; cbn [negb];
    [|cbn; repeat split; [lia|discriminate|discriminate]].
  pose proof (addMatrixRows_flag (rowCounter + 1) (row + 1) w1) as H2.
  set (w2 := addMatrixRows stack eqCount (rowCounter + 1) (row + 1) w1) in *.
  destruct (Z.eqb_spec (flag w2) 0) as [E2|N2]; cbn [negb];
    [|cbn; repeat split; [lia|discriminate|discriminate]].
  pose proof (divideMatrixRow_flag (row + 1) m w2) as H3.
  set (w3 := divideMatrixRow eqCount (row + 1) m w2) in *.
  destruct (Z.eqb_spec (flag w3) 0) as [E3|N3]; cbn [negb];
    [|cbn; repeat split; [lia|discriminate|discriminate]].
  exact E3.
Qed.

Lemma clearAbove_flag row column count :
  forall w,
    flag w = 0 -> flagMatches (clearAbove stack eqCount row column count w).
Proof.
  induction count as [|count IH]; intros w Hw; [exact Hw|].
  cbn [clearAbove].
  pose proof (clearRow_flag row column count w Hw) as H.
  destruct (clearRow _ _ _ _ _ _) as [s w'|w']; [exact H|].
  apply IH, H.
Qed.

Lemma clearBelow_flag row column count :
  forall rowCounter w,
    flag w = 0 ->
    flagMatches (clearBelow stack eqCount row column count rowCounter w).
Proof.
  induction count as [|count IH]; intros rowCounter w Hw; [exact Hw|].
  cbn [clearBelow].
  pose proof (clearRow_flag row column rowCounter w Hw) as H.
  destruct (clearRow _ _ _ _ _ _) as [s w'|w']; [exact H|].
  apply IH, H.
Qed.

Lemma pivotStep_flag row column w :
  flag w = 0 -> flagMatches (pivotStep stack eqCount row column w).
Proof.
  intros Hw. unfold pivotStep.
  set (normalised := if negb (isOne _) then _ else _).
  assert (Hn : flagMatches normalised).
  { subst normalised. destruct (negb _); [|exact Hw].
    pose proof (divideMatrixRow_flag (row + 1) (cell (cells w) row column) w)
      as H.
    destruct (Z.eqb_spec (flag (divideMatrixRow eqCount (row + 1)
                                  (cell (cells w) row column) w)) 0);
      cbn [negb]; [assumption|].
    cbn. repeat split; [lia|discriminate|discriminate]. }
  destruct normalised as [s w1|w1]; [exact Hn|].
  pose proof (clearAbove_flag row column row (negateRow eqCount row w1) Hn)
    as Ha.
  destruct (clearAbove _ _ _ _ _ _) as [s w2|w2]; [exact Ha|].
  pose proof (clearBelow_flag row column (eqCount - (row + 1)) (row + 1) w2
                Ha) as Hb.
  destruct (clearBelow _ _ _ _ _ _ _) as [s w3|w3]; [exact Hb|].
  exact Hb.
Qed.

Lemma eliminate_flag fuel :
  forall row column w,
    flag w = 0 ->
    match eliminate fuel stack eqCount row column w with
    | Some r => flagMatches r
    | None => True
    end.
Proof.
  induction fuel as [|fuel IH]; intros row column w Hw.
  - cbn [eliminate]. destruct (negb _); [exact Hw|exact I].
  - cbn [eliminate]. destruct (negb _); [exact Hw|].
    destruct (if isEmpty (cell (cells w) row column)
              then findPivot (eqCount - column) eqCount row column (cells w)
              else Some (PivotAt column (cells w)))
      as [[s|column' coeffPtr]|] eqn:Hp; [| |exact I].
    + destruct (isEmpty _); [|discriminate].
      destruct (findPivot_status _ _ _ _ _ _ Hp); subst; cbn;
        repeat split; (assumption || discriminate).
    + pose proof (pivotStep_flag row column'
                    (mkWork coeffPtr (flag w) (reads w)) Hw) as Hs.
      destruct (pivotStep _ _ _ _ _) as [s w'|w']; [exact Hs|].
      apply IH, Hs.
Qed.

Variable original : list (list fraction).

Lemma totalRow_flag i count :
  forall j solutionCheck w,
    flag w = 0 ->
    match totalRow stack eqCount original i count j solutionCheck w with
    | Return s w' => s = OVERFLOW /\ flag w' = 1
    | Next (_, w') => flag w' = 0
    end.
Proof.
  induction count as [|count IH]; intros j solutionCheck w Hw; [exact Hw|].
  cbn [totalRow].
  pose proof (multiply_snd (cell original i j) (cell (cells w) j eqCount)
                (flag w)) as Hm.
  destruct (multiply _ _ (flag w)) as [product overFlow1]. cbn [snd] in Hm.
  pose proof (add_snd (stack (reads w)) solutionCheck product overFlow1)
    as Ha.
  destruct (add _ _ _ overFlow1) as [total overFlow2]. cbn [snd] in Ha.
  destruct (Z.eqb_spec overFlow2 0); cbn [negb].
  - apply IH. assumption.
  - cbn [flag]. split; [reflexivity|lia].
Qed.

Lemma verifyRows_flag count :
  forall i solutionCheck w,
    flag w = 0 ->
    flagMatches (verifyRows stack eqCount original count i solutionCheck w).
Proof.
  induction count as [|count IH]; intros i solutionCheck w Hw; [exact Hw|].
  cbn [verifyRows].
  pose proof (totalRow_flag i eqCount 0 (mkFraction 0 0 (sign solutionCheck))
                w Hw) as Ht.
  destruct (totalRow _ _ _ _ _ _ _ _) as [s w'|[total w']].
  - destruct Ht as [-> Ht]. cbn. repeat split; [lia|discriminate|discriminate].
  - destruct (negb _); [|apply IH, Ht].
    cbn. repeat split; [lia|discriminate|discriminate].
Qed.

Lemma checkResult_flag solutionCheck w :
  flag w = 0 ->
  flagMatches (checkResult stack eqCount original solutionCheck w).
Proof.
  intros Hw. unfold checkResult.
  destruct (isEmpty _); [|apply verifyRows_flag, Hw].
  destruct (isEmpty _); cbn; repeat split; (assumption || discriminate).
Qed.

End Flags.

(** X19: on a configured system [solveSystem] resets the overflow flag
    on entry, so a flag left set before the call has no influence on the
    result.  On return the flag is 1 exactly when the status is OVERFLOW
    and 0 otherwise, MEMORY_ERROR is returned exactly when the allocation
    fails, the solution vector is untouched unless the status is SOLVED,
    and it never changes its length. *)
Theorem solveSystem_status_and_flag env st :
  configured st ->
  exists s st',
    solveSystem env st = Some (s, st')
    /\ (s = MEMORY_ERROR <-> mallocSucceeds env = false)
    /\ overFlow st' = match s with OVERFLOW => 1 | _ => 0 end
    /\ (s <> SOLVED -> solutionCoefficient st' = solutionCoefficient st)
    /\ length (solutionCoefficient st') = length (solutionCoefficient st)
    /\ forall stale, solveSystem env (withOverFlow st stale) = Some (s, st').
Proof.
  intros _. unfold solveSystem, withOverFlow.
  cbn [eqCount originalCoefficient coefficient solutionCoefficient].
  destruct (mallocSucceeds env); cbn [negb].
  2:{ eexists _, _. split; [reflexivity|]. cbn.
      repeat split; auto; discriminate. }
  pose proof (eliminate_flag (stackWord env) (eqCount st) (eqCount st) 0 0
                (mkWork (copyMatrix (eqCount st) (originalCoefficient st)) 0 0)
                eq_refl) as He.
  destruct (eliminate_fuel (eqCount st) (stackWord env) (eqCount st) 0 0
              (mkWork (copyMatrix (eqCount st) (originalCoefficient st)) 0 0))
    as (r & Hr); [lia|].
  rewrite Hr in He |- *.
  destruct r as [s w|w].
  - destruct He as (Hf & H1 & H2).
    eexists _, _. split; [reflexivity|]. cbn.
    repeat split; auto; try discriminate; contradiction.
  - pose proof (checkResult_flag (stackWord env) (eqCount st)
                  (originalCoefficient st)
                  (mkFraction 0 0 (solutionCheckSign env)) w He) as Hc.
    destruct (checkResult _ _ _ _ _) as [s w'|w'].
    + destruct Hc as (Hf & H1 & H2).
      eexists _, _. split; [reflexivity|]. cbn.
      repeat split; auto; try discriminate; contradiction.
    + eexists _, _. split; [reflexivity|]. cbn.
      repeat split; auto; try discriminate; try contradiction.
      apply storeSolution_length.
Qed.

Lemma solveSystem_status_and_flag_witness :
  exists s st',
    solveSystem (constantStack 0) regularSystem = Some (s, st')
    /\ overFlow st' = match s with OVERFLOW => 1 | _ => 0 end.
Proof.
  destruct (solveSystem_status_and_flag (constantStack 0) regularSystem
              regularSystem_configured) as (s & st' & Hrun & _ & Hflag & _).
  exists s, st'. split; [exact Hrun|exact Hflag].
Defined.

(** ** The pivot search *)

Lemma cell_copyMatrix eqCount (original : list (list fraction)) i j :
  (i < eqCount)%nat -> (j <= eqCount)%nat ->
  cell (copyMatrix eqCount original) i j = cell original i j.
Proof.
  intros Hi Hj. unfold cell at 1, copyMatrix.
  rewrite list_lookup_fmap, lookup_seq_lt by lia. cbn.
  rewrite list_lookup_fmap, lookup_seq_lt by lia. reflexivity.
Qed.

Lemma shaped_copyMatrix eqCount (original : list (list fraction)) :
  shaped eqCount (copyMatrix eqCount original).
Proof.
  unfold shaped, copyMatrix. split.
  - rewrite length_map, length_seq. reflexivity.
  - apply Forall_forall. intros r Hr.
    apply list_elem_of_fmap in Hr as (i & -> & _).
    rewrite length_map, length_seq. reflexivity.
Qed.

Lemma shaped_cells_eq eqCount (m m' : list (list fraction)) :
  shaped eqCount m -> shaped eqCount m' ->
  (forall i j, (i < eqCount)%nat -> (j <= eqCount)%nat ->
     cell m i j = cell m' i j) ->
  m = m'.
Proof.
  intros Hs Hs' Hcells. apply list_eq. intros i.
  destruct (Nat.lt_ge_cases i eqCount) as [Hi|Hi].
  - destruct (shaped_row eqCount m i Hs Hi) as (r & Hr & Hlr).
    destruct (shaped_row eqCount m' i Hs' Hi) as (r' & Hr' & Hlr').
    rewrite Hr, Hr'. f_equal. apply list_eq. intros j.
    destruct (Nat.lt_ge_cases j (eqCount + 1)) as [Hj|Hj].
    + specialize (Hcells i j Hi ltac:(lia)). unfold cell in Hcells.
      rewrite Hr, Hr' in Hcells. cbn in Hcells.
      destruct (lookup_lt_is_Some_2 r j ltac:(lia)) as [x Hx].
      destruct (lookup_lt_is_Some_2 r' j ltac:(lia)) as [x' Hx'].
      rewrite Hx, Hx' in Hcells |- *. cbn in Hcells. congruence.
    + rewrite !lookup_ge_None_2 by lia. reflexivity.
  - destruct Hs as [Hl _], Hs' as [Hl' _].
    rewrite !lookup_ge_None_2 by lia. reflexivity.
Qed.

Lemma copyMatrix_of_shaped eqCount (original : list (list fraction)) :
  shaped eqCount original -> copyMatrix eqCount original = original.
Proof.
  intros Hs. apply (shaped_cells_eq eqCount);
    [apply shaped_copyMatrix|exact Hs|].
  intros i j Hi Hj. apply cell_copyMatrix; assumption.
Qed.

Lemma searchBelow_spec column (m : list (list fraction)) count :
  forall rowCounter,
    match searchBelow count rowCounter column m with
    | Some r =>
        (rowCounter <= r < rowCounter + count)%nat
        /\ usablePivot (cell m r column) = true
        /\ forall r', (rowCounter <= r' < r)%nat ->
             usablePivot (cell m r' column) = false
    | None =>
        forall r', (rowCounter <= r' < rowCounter + count)%nat ->
          usablePivot (cell m r' column) = false
    end.
Proof.
  induction count as [|count IH]; intros rowCounter; cbn [searchBelow].
  - intros r' Hr'. lia.
  - destruct (usablePivot (cell m rowCounter column)) eqn:Hu.
    + split; [lia|]. split; [exact Hu|]. intros r' Hr'. lia.
    + specialize (IH (S rowCounter)).
      destruct (searchBelow count (S rowCounter) column m) as [r|].
      * destruct IH as (Hr & Hur & Hbefore).
        split; [lia|]. split; [exact Hur|].
        intros r' Hr'. destruct (decide (r' = rowCounter)) as [->|];
          [exact Hu|apply Hbefore; lia].
      * intros r' Hr'. destruct (decide (r' = rowCounter)) as [->|];
          [exact Hu|apply IH; lia].
Qed.

(** X20: when the pivot search of [solveSystem], in a matrix of at most
    32767 equations, finds a pivot, it lies in a column between the start
    column and the last unknown; no usable cell was passed over (none below
    the pivot row in an earlier column, none above the chosen row in the
    pivot column); the chosen cell has a numerator and a denominator other
    than 0; and the matrix returned is the input with the chosen row
    exchanged with the pivot row. *)
Theorem findPivot_usable fuel eqCount row :
  forall column (m : list (list fraction)) column' m',
    Z.of_nat eqCount <= 32767 ->
    length m = eqCount -> (column < eqCount)%nat ->
    findPivot fuel eqCount row column m = Some (PivotAt column' m') ->
    (column <= column' < eqCount)%nat
    /\ (forall c r, (column <= c < column')%nat -> (row < r < eqCount)%nat ->
          usablePivot (cell m r c) = false)
    /\ exists rowCounter,
         (row < rowCounter < eqCount)%nat
         /\ (forall r, (row < r < rowCounter)%nat ->
               usablePivot (cell m r column') = false)
         /\ usablePivot (cell m rowCounter column') = true
         /\ m' = swapRows eqCount (row + 1) (rowCounter + 1) m
         /\ forall j, cell m' row j = cell m rowCounter j
                      /\ cell m' rowCounter j = cell m row j.
Proof.
  induction fuel as [|fuel IH]; intros column m column' m' Hsize Hlen Hcol H;
    [discriminate|].
  cbn [findPivot] in H.
  pose proof (searchBelow_spec column m (eqCount - (row + 1)) (row + 1))
    as Hsearch.
  destruct (searchBelow _ _ _ _) as [rowCounter|].
  - inversion H; subst column' m'. clear H.
    destruct Hsearch as (Hr & Hu & Hbefore).
    split; [lia|]. split; [intros c r Hc; lia|].
    exists rowCounter. split; [lia|].
    split; [intros r Hr'; apply Hbefore; lia|].
    split; [exact Hu|]. split; [reflexivity|].
    intros j. unfold cell.
    rewrite !swapRows_lookup by (assumption || lia).
    replace (rowCounter + 1 - 1)%nat with rowCounter by lia.
    replace (row + 1 - 1)%nat with row by lia.
    repeat case_decide; try lia; auto.
  - destruct (Nat.eqb_spec (column + 1) eqCount) as [E|NE].
    + destruct (isEmpty _); [|destruct (zeroRowExists _ _)]; discriminate.
    + destruct (IH (column + 1)%nat m column' m' Hsize Hlen ltac:(lia) H)
        as (Hc & Hskipped & Hfound).
      split; [lia|]. split; [|exact Hfound].
      intros c r Hc' Hr. destruct (decide (c = column)) as [->|].
      * apply Hsearch. lia.
      * apply Hskipped; lia.
Qed.

Lemma findPivot_usable_witness :
  exists rowCounter,
    (0 < rowCounter < 2)%nat
    /\ usablePivot
         (cell (originalCoefficient (systemOf [[0; 1; 2]; [3; 4; 5]]))
               rowCounter 0) = true.
Proof.
  destruct (findPivot_usable 2 2 0 0
              (originalCoefficient (systemOf [[0; 1; 2]; [3; 4; 5]])) 0
              (swapRows 2 1 2
                 (originalCoefficient (systemOf [[0; 1; 2]; [3; 4; 5]]))))
    as (_ & _ & rowCounter & Hr & _ & Hu & _).
  - lia.
  - reflexivity.
  - lia.
  - vm_compute. reflexivity.
  - exists rowCounter. split; [exact Hr|exact Hu].
Defined.

Lemma findPivot_none eqCount row (m : list (list fraction)) fuel :
  forall column,
    (column < eqCount)%nat -> (eqCount - column <= fuel)%nat ->
    (forall i j, (row < i < eqCount)%nat -> (column <= j < eqCount)%nat ->
       usablePivot (cell m i j) = false) ->
    findPivot fuel eqCount row column m
    = Some (NoPivot (if isEmpty (cell m row eqCount)
                        || zeroRowExists eqCount m
                     then INFINITE_SOLUTIONS else NO_SOLUTIONS)).
Proof.
  induction fuel as [|fuel IH]; intros column Hcol Hfuel Hnone; [lia|].
  cbn [findPivot].
  pose proof (searchBelow_spec column m (eqCount - (row + 1)) (row + 1))
    as Hsearch.
  destruct (searchBelow _ _ _ _) as [rowCounter|].
  - destruct Hsearch as (Hr & Hu & _).
    rewrite Hnone in Hu by lia. discriminate.
  - destruct (Nat.eqb_spec (column + 1) eqCount) as [E|NE].
    + rewrite E. destruct (isEmpty _); [reflexivity|].
      destruct (zeroRowExists _ _); reflexivity.
    + apply IH; [lia|lia|]. intros i j Hi Hj. apply Hnone; lia.
Qed.

(** X21: a configured system whose first cell is empty and whose
    rows below the first have no usable cell in any unknown's column is
    classified without any arithmetic: INFINITE_SOLUTIONS when the constant
    of the first row is empty or some row has only zero numerators,
    NO_SOLUTIONS otherwise; the flag is 0 and the solution vector is
    untouched. *)
Theorem solveSystem_without_pivot env st :
  configured st -> mallocSucceeds env = true ->
  isEmpty (cell (originalCoefficient st) 0 0) = true ->
  (forall i j, (1 <= i < eqCount st)%nat -> (j < eqCount st)%nat ->
     usablePivot (cell (originalCoefficient st) i j) = false) ->
  solveSystem env st
  = Some (if isEmpty (cell (originalCoefficient st) 0 (eqCount st))
             || zeroRowExists (eqCount st) (originalCoefficient st)
          then INFINITE_SOLUTIONS else NO_SOLUTIONS,
          withOverFlow st 0).
Proof.
  intros (Hn & _ & Hs & _) Hmalloc Hempty Hnone.
  unfold solveSystem. rewrite Hmalloc. cbn [negb].
  rewrite (copyMatrix_of_shaped _ _ Hs).
  destruct (eqCount st) as [|n] eqn:En; [lia|].
  cbn [eliminate]. cbn [Nat.ltb Nat.leb negb cells].
  rewrite Hempty.
  rewrite (findPivot_none (S n) 0 (originalCoefficient st) (S n - 0) 0)
    by (try lia; intros i j Hi Hj; apply Hnone; lia).
  cbn [flag]. reflexivity.
Qed.

Lemma solveSystem_without_pivot_witness :
  fst <$> solveSystem (constantStack 0) (systemOf [[0; 0; 1]; [0; 0; 2]])
  = Some NO_SOLUTIONS.
Proof.
  rewrite (solveSystem_without_pivot (constantStack 0)
             (systemOf [[0; 0; 1]; [0; 0; 2]])).
  - vm_compute. reflexivity.
  - unfold configured, shaped. vm_compute.
    repeat split; try discriminate; repeat constructor.
  - reflexivity.
  - vm_compute. reflexivity.
  - intros i j Hi Hj. change (eqCount _) with 2%nat in Hi, Hj.
    assert (i = 1%nat) as -> by lia.
    destruct j as [|[|j]]; [vm_compute; reflexivity..|lia].
Defined.

(** ** The configured state is an invariant *)

Lemma shaped_multiplyMatrixRow eqCount row multiplier w :
  shaped eqCount (cells w) ->
  shaped eqCount (cells (multiplyMatrixRow eqCount row multiplier w)).
Proof.
  intros Hs. unfold multiplyMatrixRow.
  destruct (Nat.ltb_spec row 1); [exact Hs|].
  destruct (Nat.ltb_spec eqCount row); [exact Hs|]. cbn [orb].
  apply (multiplyColumns_effect eqCount row multiplier ltac:(lia)
           (eqCount + 1) 0 w Hs ltac:(lia)).
Qed.

Lemma shaped_divideMatrixRow eqCount row divisor w :
  shaped eqCount (cells w) ->
  shaped eqCount (cells (divideMatrixRow eqCount row divisor w)).
Proof.
  intros Hs. unfold divideMatrixRow.
  destruct (Nat.ltb_spec row 1); [exact Hs|].
  destruct (Nat.ltb_spec eqCount row); [exact Hs|]. cbn [orb].
  apply (divideColumns_effect eqCount row divisor ltac:(lia)
           (eqCount + 1) 0 w Hs ltac:(lia)).
Qed.

Lemma shaped_addMatrixRows stack eqCount row rowToAdd w :
  shaped eqCount (cells w) ->
  shaped eqCount (cells (addMatrixRows stack eqCount row rowToAdd w)).
Proof.
  intros Hs. unfold addMatrixRows.
  destruct (Nat.ltb_spec row 1); [exact Hs|].
  destruct (Nat.ltb_spec eqCount row); [exact Hs|].
  destruct (_ || _); [exact Hs|].
  apply (addColumns_effect eqCount row ltac:(lia) stack rowToAdd
           (eqCount + 1) 0 w Hs ltac:(lia)).
Qed.

Lemma solveSystem_solution_length env st s st' :
  solveSystem env st = Some (s, st') ->
  length (solutionCoefficient st') = length (solutionCoefficient st).
Proof.
  unfold solveSystem. intros H.
  repeat match type of H with
  | (if ?c then _ else _) = _ => destruct c
  | match ?x with _ => _ end = _ => destruct x
  end; inversion H; subst; cbn; auto using storeSolution_length.
Qed.

Lemma configured_storeCoefficient st row column x :
  configured st -> configured (storeCoefficient st row column x).
Proof.
  intros (Hn & Hc & Ho & Hl). unfold configured, storeCoefficient.
  cbn [eqCount coefficient originalCoefficient solutionCoefficient].
  split; [exact Hn|]. split; [apply shaped_setCell, Hc|].
  split; [apply shaped_setCell, Ho|exact Hl].
Qed.

(** X22: every public operation keeps a configured system
    configured: the two setters, the four public row operations at any row
    number, and [solveSystem] under any environment. *)
Theorem configured_preserved st :
  configured st ->
  (forall row column value, configured (setCoefficient row column value st))
  /\ (forall row column numerator' denominator',
        configured (setCoefficientFraction row column numerator'
                      denominator' st))
  /\ (forall row1 row2, configured (swapRowsAltered row1 row2 st))
  /\ (forall row multiplier,
        configured (multiplyMatrixRowAltered row multiplier st))
  /\ (forall row divisor, configured (divideMatrixRowAltered row divisor st))
  /\ (forall stack row rowToAdd,
        configured (addMatrixRowsAltered stack row rowToAdd st))
  /\ (forall env, exists s st',
        solveSystem env st = Some (s, st') /\ configured st').
Proof.
  intros Hst. pose proof Hst as (Hn & Hc & Ho & Hl).
  split; [|split; [|split; [|split; [|split; [|split]]]]].
  - intros row column value. unfold setCoefficient.
    destruct (outOfBounds _ _ _); [exact Hst|].
    apply configured_storeCoefficient, Hst.
  - intros row column numerator' denominator'. unfold setCoefficientFraction.
    destruct (outOfBounds _ _ _); [exact Hst|].
    apply configured_storeCoefficient, Hst.
  - intros row1 row2. unfold configured, swapRowsAltered, withCoefficient.
    cbn [eqCount coefficient originalCoefficient solutionCoefficient].
    split; [exact Hn|]. split; [apply shaped_swapRows; exact Hc|].
    split; assumption.
  - intros row multiplier.
    unfold configured, multiplyMatrixRowAltered, withWork.
    cbn [eqCount coefficient originalCoefficient solutionCoefficient].
    split; [exact Hn|]. split; [apply shaped_multiplyMatrixRow; exact Hc|].
    split; assumption.
  - intros row divisor.
    unfold configured, divideMatrixRowAltered, withWork.
    cbn [eqCount coefficient originalCoefficient solutionCoefficient].
    split; [exact Hn|]. split; [apply shaped_divideMatrixRow; exact Hc|].
    split; assumption.
  - intros stack row rowToAdd.
    unfold configured, addMatrixRowsAltered, withWork.
    cbn [eqCount coefficient originalCoefficient solutionCoefficient].
    split; [exact Hn|]. split; [apply shaped_addMatrixRows; exact Hc|].
    split; assumption.
  - intros env. destruct (solveSystem_returns env st) as (s & st' & H).
    exists s, st'. split; [exact H|].
    destruct (solveSystem_frame _ _ _ _ H) as (Ec & Eo & En).
    pose proof (solveSystem_solution_length _ _ _ _ H) as El.
    unfold configured. rewrite Ec, Eo, En, El. exact Hst.
Qed.

Lemma configured_preserved_witness :
  configured (setCoefficient 1 1 9 regularSystem)
  /\ configured (multiplyMatrixRowAltered 2 (mkFraction 3 1 0) regularSystem).
Proof.
  destruct (configured_preserved regularSystem regularSystem_configured)
    as (Hset & _ & _ & Hmul & _).
  split; [apply Hset|apply Hmul].
Defined.

(** ** Systems of one equation *)

Lemma isOne_eq x : isOne x = true -> x = mkFraction 1 1 0.
Proof.
  unfold isOne. destruct x as [n d s]. cbn. intros H.
  apply andb_prop in H as [H H3]. apply andb_prop in H as [H1 H2].
  apply Z.eqb_eq in H1, H2, H3. congruence.
Qed.

Lemma negateRow_one_equation x y f r :
  negateRow 1 0 (mkWork [[x; y]] f r)
  = mkWork [[if isEmpty x then x
             else mkFraction (numerator x) (denominator x)
                             (if sign x =? 0 then 1 else 0);
             if isEmpty y then y
             else mkFraction (numerator y) (denominator y)
                             (if sign y =? 0 then 1 else 0)]] f r.
Proof.
  unfold negateRow. cbn [cells flag reads Nat.add negateColumns].
  change (cell [[x; y]] 0 0) with x.
  destruct (isEmpty x), (isEmpty y) eqn:Hy; cbn; rewrite ?Hy; reflexivity.
Qed.

Lemma negate_twice x :
  isEmpty x = true \/ sign x = 0 \/ sign x = 1 ->
  let x' := if isEmpty x then x
            else mkFraction (numerator x) (denominator x)
                            (if sign x =? 0 then 1 else 0) in
  (if isEmpty x' then x'
   else mkFraction (numerator x') (denominator x')
                   (if sign x' =? 0 then 1 else 0)) = x.
Proof.
  intros H. cbn zeta. destruct (isEmpty x) eqn:E.
  - rewrite E. reflexivity.
  - unfold isEmpty in *. cbn [numerator denominator sign]. rewrite E.
    destruct x as [n d s]. cbn in *.
    destruct H as [H|[->| ->]]; [discriminate| |]; reflexivity.
Qed.

Lemma one_equation_trace env st A B X P :
  mallocSucceeds env = true ->
  eqCount st = 1%nat -> originalCoefficient st = [[A; B]] ->
  isEmpty A = false ->
  (if isOne A then X = B
   else divide A A 0 = (mkFraction 1 1 0, 0) /\ divide B A 0 = (X, 0)) ->
  isEmpty X = true \/ sign X = 0 \/ sign X = 1 ->
  multiply A X 0 = (P, 0) ->
  solveSystem env st
  = Some (if fraction_eqb P B
          then (SOLVED,
                mkEqsolver (coefficient st) [[A; B]] 1 0
                  (<[0%nat := X]> (solutionCoefficient st)))
          else (NO_SOLUTIONS, withOverFlow st 0)).
Proof.
  intros Hmalloc Hcount Horig HA Hnorm HX HP.
  unfold solveSystem. rewrite Hmalloc, Hcount, Horig. cbn [negb].
  change (copyMatrix 1 [[A; B]]) with [[A; B]].
  cbn [eliminate Nat.ltb Nat.leb negb cells].
  change (cell [[A; B]] 0 0) with A. rewrite HA.
  unfold pivotStep. cbn [cells flag reads].
  change (cell [[A; B]] 0 0) with A.
  assert (Hnormal :
    (if negb (isOne A)
     then
       if negb (flag (divideMatrixRow 1 (0 + 1) A (mkWork [[A; B]] 0 0)) =? 0)
       then Return OVERFLOW (divideMatrixRow 1 (0 + 1) A (mkWork [[A; B]] 0 0))
       else Next (divideMatrixRow 1 (0 + 1) A (mkWork [[A; B]] 0 0))
     else Next (mkWork [[A; B]] 0 0))
    = Next (mkWork [[mkFraction 1 1 0; X]] 0 0)).
  { destruct (isOne A) eqn:HO; cbn [negb].
    - subst X. rewrite (isOne_eq A HO). reflexivity.
    - destruct Hnorm as [HAA HBA].
      assert (Hrow : divideMatrixRow 1 (0 + 1) A (mkWork [[A; B]] 0 0)
                     = mkWork [[mkFraction 1 1 0; X]] 0 0).
      { unfold divideMatrixRow.
        cbn [Nat.add Nat.ltb Nat.leb orb divideColumns cells flag reads
             Nat.sub].
        change (cell [[A; B]] 0 0) with A. rewrite HAA.
        cbn [Z.eqb].
        change (cell (setCell [[A; B]] 0 0 (mkFraction 1 1 0)) 0 1) with B.
        rewrite HBA. reflexivity. }
      rewrite Hrow. reflexivity. }
  rewrite Hnormal. cbn [clearAbove Nat.sub Nat.add clearBelow].
  rewrite !negateRow_one_equation.
  rewrite (negate_twice X HX).
  cbn [isEmpty numerator denominator sign Z.eqb andb Pos.eqb].
  cbn [eliminate Nat.ltb Nat.leb negb].
  unfold checkResult. cbn [cells Nat.sub].
  change (cell [[mkFraction 1 1 0; X]] 0 0) with (mkFraction 1 1 0).
  cbn [isEmpty numerator denominator Z.eqb andb].
  cbn [verifyRows totalRow cells flag reads].
  change (cell [[A; B]] 0 0) with A.
  change (cell [[mkFraction 1 1 0; X]] 0 1) with X.
  rewrite HP. rewrite add_empty_left by reflexivity.
  cbn [Z.eqb negb].
  change (cell [[A; B]] 0 1) with B.
  destruct (fraction_eqb P B); cbn [negb]; reflexivity.
Qed.

Lemma multiply_small fraction1 fraction2 overFlow :
  0 <= numerator fraction1 * numerator fraction2 <= max_unsigned32 ->
  0 <= denominator fraction1 * denominator fraction2 <= max_unsigned32 ->
  multiply fraction1 fraction2 overFlow
  = (if negb (numerator fraction1 * numerator fraction2 =? 0)
        && (denominator fraction1 * denominator fraction2 =? 0)
     then fraction1
     else reduce (mkFraction (numerator fraction1 * numerator fraction2)
                    (denominator fraction1 * denominator fraction2)
                    (combineSign (sign fraction1) (sign fraction2))),
     overFlow).
Proof.
  unfold max_unsigned32. intros Hn Hd. unfold multiply, ret.
  rewrite !uint64_small by lia. rewrite !uint32_id by lia.
  unfold UINT32MAX.
  destruct (Z.gtb_spec (numerator fraction1 * numerator fraction2)
              42946972195); [lia|].
  destruct (Z.gtb_spec (denominator fraction1 * denominator fraction2)
              42946972195); [lia|].
  destruct (_ && _); reflexivity.
Qed.

Lemma divide_small dividend divisor overFlow :
  0 <= numerator dividend * denominator divisor <= max_unsigned32 ->
  0 <= denominator dividend * numerator divisor <= max_unsigned32 ->
  divide dividend divisor overFlow
  = (if negb (numerator dividend * denominator divisor =? 0)
        && (denominator dividend * numerator divisor =? 0)
     then dividend
     else reduce (mkFraction (numerator dividend * denominator divisor)
                    (denominator dividend * numerator divisor)
                    (combineSign (sign dividend) (sign divisor))),
     overFlow).
Proof.
  unfold max_unsigned32. intros Hn Hd. unfold divide, ret.
  rewrite !uint64_small by lia. rewrite !uint32_id by lia.
  unfold UINT32MAX.
  destruct (Z.gtb_spec (numerator dividend * denominator divisor)
              42946972195); [lia|].
  destruct (Z.gtb_spec (denominator dividend * numerator divisor)
              42946972195); [lia|].
  destruct (_ && _); reflexivity.
Qed.

Lemma reduce_equal n s : n <> 0 -> reduce (mkFraction n n s) = mkFraction 1 1 s.
Proof.
  intros Hn. unfold reduce. cbn [numerator denominator sign].
  destruct (Z.eqb_spec n 0); [contradiction|]. cbn [orb].
  rewrite Z.eqb_refl. reflexivity.
Qed.

Lemma reduce_multiple n d s :
  1 <= n -> 1 <= d -> n * d <= max_unsigned32 ->
  reduce (mkFraction (n * d) d s) = mkFraction n 1 s.
Proof.
  unfold max_unsigned32. intros Hn Hd Hnd. unfold reduce.
  cbn [numerator denominator sign].
  destruct (Z.eqb_spec (n * d) 0); [nia|].
  destruct (Z.eqb_spec d 0); [lia|]. cbn [orb].
  destruct (Z.eqb_spec (n * d) d) as [E|NE].
  - assert (n = 1) by nia. subst n. reflexivity.
  - rewrite euclid_gcd by (unfold is_uint32, max_unsigned32; nia).
    replace (Z.gcd (n * d) d) with d
      by (rewrite Z.gcd_comm, (Z.mul_comm n d), Z.gcd_mul_diag_l; lia).
    rewrite Z.div_mul, Z.div_same by lia. reflexivity.
Qed.

Lemma stored_setCoefficient value st row column :
  -32768 <= value <= 32767 ->
  setCoefficient row column value st
  = if outOfBounds st row column then st
    else storeCoefficient st row column (stored value).
Proof.
  intros Hv. unfold setCoefficient, stored.
  destruct (outOfBounds _ _ _); [reflexivity|]. f_equal.
  destruct (Z.ltb_spec value 0); rewrite uint32_id by lia; f_equal; lia.
Qed.

Lemma systemOf_one_equation a b :
  -32768 <= a <= 32767 -> -32768 <= b <= 32767 ->
  systemOf [[a; b]]
  = mkEqsolver [[stored a; stored b]] [[stored a; stored b]] 1 0
               [zeroFraction].
Proof.
  intros Ha Hb. unfold systemOf. cbn [setRows setRow length].
  rewrite !stored_setCoefficient by assumption. reflexivity.
Qed.

Lemma sign_reduce f :
  isEmpty (reduce f) = true \/ sign (reduce f) = sign f.
Proof.
  unfold reduce. destruct (_ || _); [left; reflexivity|].
  destruct (_ =? _); right; reflexivity.
Qed.

Lemma stored_quotient a b :
  a <> 0 -> -32768 <= a <= 32767 -> -32768 <= b <= 32767 ->
  isEmpty (stored a) = false
  /\ (if isOne (stored a) then quotient a b = stored b
      else divide (stored a) (stored a) 0 = (mkFraction 1 1 0, 0)
           /\ divide (stored b) (stored a) 0 = (quotient a b, 0))
  /\ (isEmpty (quotient a b) = true
      \/ sign (quotient a b) = 0 \/ sign (quotient a b) = 1)
  /\ multiply (stored a) (quotient a b) 0 = (stored b, 0)
  /\ (toQ (quotient a b) * inject_Z a == inject_Z b)%Q.
Proof.
  intros Ha0 Ha Hb.
  set (s := if xorb (a <? 0) (b <? 0) then 1 else 0).
  change (quotient a b) with (reduce (mkFraction (Z.abs b) (Z.abs a) s)).
  set (x := reduce (mkFraction (Z.abs b) (Z.abs a) s)).
  assert (Hcombine : combineSign (sign (stored b)) (sign (stored a)) = s).
  { subst s. unfold stored, combineSign. cbn [sign].
    destruct (a <? 0), (b <? 0); reflexivity. }
  assert (Hback : combineSign (sign (stored a)) s = sign (stored b)).
  { subst s. unfold stored, combineSign. cbn [sign].
    destruct (a <? 0), (b <? 0); reflexivity. }
  assert (HA : isEmpty (stored a) = false).
  { unfold isEmpty, stored. cbn.
    destruct (Z.eqb_spec (Z.abs a) 0); [lia|reflexivity]. }
  assert (HX : isEmpty x = true \/ sign x = 0 \/ sign x = 1).
  { destruct (sign_reduce (mkFraction (Z.abs b) (Z.abs a) s)) as [H|H];
      [left; exact H|right]. fold x in H. rewrite H. cbn. subst s.
    destruct (xorb _ _); auto. }
  assert (Hnorm :
    if isOne (stored a) then x = stored b
    else divide (stored a) (stored a) 0 = (mkFraction 1 1 0, 0)
         /\ divide (stored b) (stored a) 0 = (x, 0)).
  { destruct (isOne (stored a)) eqn:HO.
    - apply isOne_eq in HO. unfold stored in HO.
      injection HO as Habs _ Hsign.
      assert (a = 1) by (destruct (Z.ltb_spec a 0); [discriminate|lia]).
      subst a. subst x s. unfold stored. cbn [Z.ltb Z.compare xorb Z.abs].
      destruct (Z.eqb_spec b 0) as [->|Hb0]; [reflexivity|].
      replace (Z.abs b) with (Z.abs b * 1) at 1 by lia.
      rewrite reduce_multiple by (unfold max_unsigned32; lia).
      destruct (b <? 0); reflexivity.
    - split.
      + rewrite divide_small
          by (unfold stored, max_unsigned32; cbn;
              destruct (Z.eqb_spec a 0); lia).
        unfold stored. cbn [numerator denominator sign].
        destruct (Z.eqb_spec a 0); [contradiction|].
        rewrite Z.mul_1_r, Z.mul_1_l.
        destruct (Z.eqb_spec (Z.abs a) 0); [lia|]. cbn [negb andb].
        rewrite reduce_equal by lia. unfold combineSign.
        destruct (a <? 0); reflexivity.
      + rewrite divide_small
          by (unfold stored, max_unsigned32; cbn;
              destruct (Z.eqb_spec a 0), (Z.eqb_spec b 0); lia).
        rewrite Hcombine. unfold stored. cbn [numerator denominator sign].
        destruct (Z.eqb_spec a 0); [contradiction|].
        rewrite Z.mul_1_r.
        destruct (Z.eqb_spec b 0) as [->|Hb0].
        * cbn. reflexivity.
        * rewrite Z.mul_1_l.
          destruct (Z.eqb_spec (Z.abs a) 0); [lia|].
          rewrite andb_false_r. reflexivity. }
  assert (HP : multiply (stored a) x 0 = (stored b, 0)).
  { destruct (Z.eq_dec b 0) as [->|Hb0].
    - assert (x = zeroFraction) as -> by reflexivity.
      rewrite multiply_small
        by (unfold max_unsigned32; cbn [numerator denominator zeroFraction];
            rewrite ?Z.mul_0_r; lia).
      cbn [numerator denominator zeroFraction]. rewrite !Z.mul_0_r.
      reflexivity.
    - destruct (reduce_proper (mkFraction (Z.abs b) (Z.abs a) s))
        as (Hg & Hcross & Hsign & Hnum & Hden);
        try (unfold is_uint32, max_unsigned32; cbn; lia).
      fold x in Hg, Hcross, Hsign, Hnum, Hden.
      cbn [numerator denominator sign] in Hcross, Hsign, Hnum, Hden.
      rewrite multiply_small
        by (unfold stored, max_unsigned32; cbn;
            destruct (Z.eqb_spec a 0); nia).
      unfold stored. cbn [numerator denominator sign].
      destruct (Z.eqb_spec a 0); [contradiction|].
      rewrite Z.mul_1_l.
      destruct (Z.eqb_spec (denominator x) 0); [lia|].
      rewrite andb_false_r.
      replace (Z.abs a * numerator x) with (Z.abs b * denominator x) by lia.
      rewrite reduce_multiple by (unfold max_unsigned32; nia).
      rewrite Hsign.
      change (if a <? 0 then 1 else 0) with (sign (stored a)).
      rewrite Hback. unfold stored. cbn [sign].
      destruct (Z.eqb_spec b 0); [contradiction|reflexivity]. }
  split; [exact HA|]. split; [exact Hnorm|]. split; [exact HX|].
  split; [exact HP|].
  subst x. rewrite toQ_reduce
    by (unfold is_uint32, max_unsigned32; cbn; lia).
  rewrite toQ_proper by (cbn; lia).
  unfold Qeq, Qmult, inject_Z, signedNumerator.
  cbn [Qnum Qden numerator denominator sign].
  rewrite Pos.mul_1_r, Z2Pos.id by lia. subst s.
  destruct (Z.ltb_spec a 0), (Z.ltb_spec b 0); cbn [xorb Z.eqb Pos.eqb];
    lia.
Qed.

(** X23: one equation a*x = b with 16-bit integers, a not 0,
    entered through [setSystemEqCount] and [setCoefficient]: [solveSystem]
    returns SOLVED with the flag clear under every environment, and the
    solution is |b|/|a| in lowest terms with the sign of b/a, so x*a = b
    as rationals. *)
Theorem solveSystem_one_equation env a b :
  mallocSucceeds env = true -> a <> 0 ->
  -32768 <= a <= 32767 -> -32768 <= b <= 32767 ->
  exists x st',
    solveSystem env (systemOf [[a; b]]) = Some (SOLVED, st')
    /\ solutionCoefficient st' = [x]
    /\ overFlow st' = 0
    /\ x = reduce (mkFraction (Z.abs b) (Z.abs a)
                     (if xorb (a <? 0) (b <? 0) then 1 else 0))
    /\ (toQ x * inject_Z a == inject_Z b)%Q.
Proof.
  intros Hmalloc Ha0 Ha Hb.
  destruct (stored_quotient a b Ha0 Ha Hb) as (HA & Hnorm & HX & HP & HQ).
  pose proof (one_equation_trace env (systemOf [[a; b]]) (stored a)
                (stored b) (quotient a b) (stored b) Hmalloc) as Hrun.
  rewrite systemOf_one_equation in Hrun |- * by assumption.
  specialize (Hrun eq_refl eq_refl HA Hnorm HX HP).
  rewrite (proj2 (fraction_eqb_eq _ _) eq_refl) in Hrun.
  eexists (quotient a b), _. split; [exact Hrun|].
  split; [reflexivity|]. split; [reflexivity|]. split; [reflexivity|].
  exact HQ.
Qed.

Lemma solveSystem_one_equation_witness :
  exists st',
    solveSystem (constantStack 1) (systemOf [[4; -6]]) = Some (SOLVED, st')
    /\ solutionCoefficient st' = [mkFraction 3 2 1].
Proof.
  destruct (solveSystem_one_equation (constantStack 1) 4 (-6))
    as (x & st' & Hrun & Hsol & _ & Hx & _).
  - reflexivity.
  - discriminate.
  - lia.
  - lia.
  - exists st'. split; [exact Hrun|]. rewrite Hsol, Hx. reflexivity.
Defined.

Lemma stored_setCoefficientFraction numerator' denominator' st row column :
  -32768 <= numerator' <= 32767 -> -32768 <= denominator' <= 32767 ->
  setCoefficientFraction row column numerator' denominator' st
  = if outOfBounds st row column then st
    else storeCoefficient st row column
           (storedFraction numerator' denominator').
Proof.
  intros Hn Hd. unfold setCoefficientFraction, storedFraction.
  rewrite !uint32_id by lia. reflexivity.
Qed.

Lemma lowest_terms_unique p q n d :
  1 <= p -> 1 <= q -> 1 <= n -> 1 <= d ->
  Z.gcd p q = 1 -> p * d = n * q ->
  Z.gcd n d = 1 <-> p = n /\ q = d.
Proof.
  intros Hp Hq Hn Hd Hg Hcross. split.
  - intros Hnd.
    assert (Hpn : (p | n)).
    { apply (Z.gauss p q n); [|exact Hg].
      exists d. lia. }
    assert (Hnp : (n | p)).
    { apply (Z.gauss n d p); [|exact Hnd].
      exists q. lia. }
    assert (p = n) by (apply Z.divide_antisym_nonneg; (lia || assumption)).
    split; [assumption|]. subst p. nia.
  - intros [-> ->]. exact Hg.
Qed.

(** X24: one equation a*x = n/d whose constant is entered with
    [setCoefficientFraction]: the verification compares the reduced total
    with the constant as stored, so the status is SOLVED only when n/d is
    stored in lowest terms with n not 0 (or when d = 0 and n is not
    negative), and NO_SOLUTIONS in every other case. *)
Theorem solveSystem_fraction_constant env a n d :
  mallocSucceeds env = true -> a <> 0 ->
  -32768 <= a <= 32767 -> -32768 <= n <= 32767 -> -32768 <= d <= 32767 ->
  let st :=
    setCoefficientFraction 1 2 n d
      (setCoefficient 1 1 a (snd (setSystemEqCount true 1 newEqsolver))) in
  fst <$> solveSystem env st
  = Some (if (if d =? 0 then n <? 0
              else (n =? 0) || negb (Z.gcd n d =? 1))
          then NO_SOLUTIONS else SOLVED).
Proof.
  intros Hmalloc Ha0 Ha Hn Hd. cbn zeta.
  rewrite stored_setCoefficientFraction, stored_setCoefficient by assumption.
  set (A := stored a). set (B := storedFraction n d).
  change (fst <$> solveSystem env
            (mkEqsolver [[A; B]] [[A; B]] 1 0 [zeroFraction]) = 
          Some (if (if d =? 0 then n <? 0
              else (n =? 0) || negb (Z.gcd n d =? 1))
          then NO_SOLUTIONS else SOLVED)).
  set (X := if isOne A then B else fst (divide B A 0)).
  set (P := fst (multiply A X 0)).
  assert (HA : isEmpty A = false).
  { unfold isEmpty, A, stored. cbn.
    destruct (Z.eqb_spec (Z.abs a) 0); [lia|reflexivity]. }
  assert (HnA : numerator A = Z.abs a) by reflexivity.
  assert (HdA : denominator A = 1).
  { unfold A, stored. cbn. destruct (Z.eqb_spec a 0); [lia|reflexivity]. }
  assert (HnB : 0 <= numerator B <= 32768).
  { unfold B, storedFraction. cbn. destruct (d =? 0); lia. }
  assert (HdB : 0 <= denominator B <= 32768).
  { unfold B, storedFraction. cbn. destruct (d =? 0); lia. }
  assert (HsB : sign B = 0 \/ sign B = 1).
  { unfold B, storedFraction. cbn. destruct (n <? 0), (d <? 0); auto. }
  assert (Hdiv : divide B A 0
                 = (if negb (numerator B =? 0)
                       && (denominator B * Z.abs a =? 0)
                    then B
                    else reduce (mkFraction (numerator B)
                                   (denominator B * Z.abs a)
                                   (combineSign (sign B) (sign A))), 0)).
  { rewrite divide_small by (rewrite ?HnA, ?HdA; unfold max_unsigned32; nia).
    rewrite HnA, HdA, Z.mul_1_r. reflexivity. }
  assert (HAA : isOne A = false ->
                divide A A 0 = (mkFraction 1 1 0, 0)).
  { intros _. rewrite divide_small
      by (rewrite ?HnA, ?HdA; unfold max_unsigned32; lia).
    rewrite HnA, HdA, Z.mul_1_r, Z.mul_1_l.
    destruct (Z.eqb_spec (Z.abs a) 0); [lia|]. cbn [negb andb].
    rewrite reduce_equal by lia. unfold combineSign, A, stored. cbn [sign].
    destruct (a <? 0); reflexivity. }
  assert (Hnorm : if isOne A then X = B
                  else divide A A 0 = (mkFraction 1 1 0, 0)
                       /\ divide B A 0 = (X, 0)).
  { subst X. destruct (isOne A); [reflexivity|].
    split; [auto|]. rewrite Hdiv. reflexivity. }
  assert (HsA : isOne A = true -> combineSign (sign B) (sign A) = sign B).
  { intros HO. rewrite (isOne_eq A HO). unfold combineSign. cbn [sign].
    destruct HsB as [-> | ->]; reflexivity. }
  assert (Hback : combineSign (sign A) (combineSign (sign B) (sign A))
                  = sign B).
  { unfold combineSign, A, stored. cbn [sign].
    destruct HsB as [-> | ->], (a <? 0); reflexivity. }
  (* the quotient held at the pivot row *)
  assert (HXcases :
    (numerator X = 0 /\ (isEmpty X = true \/ X = B)
     /\ (numerator B = 0))
    \/ (1 <= numerator B /\ 1 <= denominator B
        /\ 1 <= numerator X <= numerator B
        /\ 1 <= denominator X <= denominator B * Z.abs a
        /\ numerator X * (denominator B * Z.abs a)
           = numerator B * denominator X
        /\ sign X = combineSign (sign B) (sign A))).
  { destruct (Z.eq_dec (numerator B) 0) as [HB0|HB0].
    - left. subst X. destruct (isOne A).
      + auto.
      + rewrite Hdiv, HB0. cbn [Z.eqb negb andb fst].
        split; [|split; [left|reflexivity]]; reflexivity.
    - right.
      assert (HdB0 : denominator B <> 0).
      { unfold B, storedFraction in *. cbn in *.
        destruct (Z.eqb_spec d 0); lia. }
      subst X. destruct (isOne A) eqn:HO.
      + rewrite (HsA eq_refl). apply isOne_eq in HO.
        assert (Z.abs a = 1) by (rewrite <- HnA, HO; reflexivity).
        repeat split; try lia.
      + rewrite Hdiv. cbn [fst].
        destruct (Z.eqb_spec (denominator B * Z.abs a) 0); [nia|].
        rewrite andb_false_r.
        destruct (reduce_proper (mkFraction (numerator B)
                    (denominator B * Z.abs a)
                    (combineSign (sign B) (sign A))))
          as (Hg & Hcross & Hsign & Hnum & Hden);
          try (unfold is_uint32, max_unsigned32;
               cbn [numerator denominator sign]; nia).
        cbn [numerator denominator sign] in Hcross, Hsign, Hnum, Hden.
        repeat split; try lia; assumption. }
  assert (HX : isEmpty X = true \/ sign X = 0 \/ sign X = 1).
  { destruct HXcases as [(_ & [H| ->] & _)|(_ & _ & _ & _ & _ & ->)].
    - auto.
    - right. exact HsB.
    - right. unfold combineSign. destruct (_ =? 1), (_ =? 1); auto. }
  assert (HXb : 0 <= numerator X <= 32768
                /\ 0 <= denominator X <= 32768 * 32768).
  { destruct HXcases as [(H0 & [HE| ->] & _)|H]; [| |nia].
    - unfold isEmpty in HE. apply andb_prop in HE as [_ HE].
      apply Z.eqb_eq in HE. lia.
    - lia. }
  assert (HPeq : multiply A X 0 = (P, 0)).
  { subst P. rewrite multiply_small; [reflexivity| |];
      rewrite ?HnA, ?HdA; unfold max_unsigned32; nia. }
  pose proof (one_equation_trace env
                (mkEqsolver [[A; B]] [[A; B]] 1 0 [zeroFraction])
                A B X P Hmalloc eq_refl eq_refl HA Hnorm HX HPeq) as Hrun.
  rewrite Hrun. clear Hrun.
  assert (HP : P = if negb (Z.abs a * numerator X =? 0)
                      && (denominator X =? 0)
                   then A
                   else reduce (mkFraction (Z.abs a * numerator X)
                                  (denominator X)
                                  (combineSign (sign A) (sign X)))).
  { subst P. rewrite multiply_small
      by (rewrite ?HnA, ?HdA; unfold max_unsigned32; nia).
    rewrite HnA, HdA, Z.mul_1_l. reflexivity. }
  destruct HXcases as [(HX0 & _ & HB0)|H].
  - (* zero numerator *)
    assert (P = zeroFraction) as ->.
    { rewrite HP, HX0, Z.mul_0_r. cbn [Z.eqb negb andb]. reflexivity. }
    assert (Hcmp : fraction_eqb zeroFraction B
                   = negb (if d =? 0 then n <? 0
                           else (n =? 0) || negb (Z.gcd n d =? 1))).
    { unfold B, storedFraction in HB0 |- *. cbn [numerator] in HB0.
      unfold fraction_eqb. cbn [numerator denominator sign zeroFraction].
      destruct (Z.eqb_spec d 0) as [->|Hd0].
      - destruct (Z.ltb_spec n 0); reflexivity.
      - assert (n = 0) as -> by lia.
        destruct (Z.eqb_spec 0 (Z.abs d)); [lia|].
        rewrite andb_false_r. reflexivity. }
    rewrite Hcmp.
    destruct (if d =? 0 then n <? 0 else (n =? 0) || negb (Z.gcd n d =? 1));
      reflexivity.
  - destruct H as (HB1 & HB2 & HXn & HXd & Hcross & HsX).
    assert (Hd0 : d <> 0).
    { intros ->. unfold B, storedFraction in HB2. cbn in HB2. lia. }
    assert (Hn0 : n <> 0).
    { intros ->. unfold B, storedFraction in HB1. cbn in HB1.
      destruct (d =? 0); lia. }
    assert (HBn : numerator B = Z.abs n).
    { unfold B, storedFraction. cbn.
      destruct (Z.eqb_spec d 0); [contradiction|reflexivity]. }
    assert (HBd : denominator B = Z.abs d).
    { unfold B, storedFraction. cbn.
      destruct (Z.eqb_spec d 0); [contradiction|reflexivity]. }
    destruct (Z.eqb_spec d 0); [contradiction|].
    destruct (Z.eqb_spec n 0); [contradiction|]. cbn [orb].
    destruct (Z.eqb_spec (denominator X) 0); [lia|].
    rewrite andb_false_r in HP.
    destruct (reduce_proper (mkFraction (Z.abs a * numerator X)
                (denominator X) (combineSign (sign A) (sign X))))
      as (Hg & Hc & Hsign & Hnum & Hden);
      try (unfold is_uint32, max_unsigned32;
           cbn [numerator denominator sign]; nia).
    rewrite <- HP in Hg, Hc, Hsign, Hnum, Hden.
    cbn [numerator denominator sign] in Hc, Hsign, Hnum, Hden.
    rewrite HsX, Hback in Hsign.
    assert (Hpq : numerator P * Z.abs d = Z.abs n * denominator P).
    { rewrite HBn, HBd in *.
      apply (Z.mul_reg_r _ _ (denominator X * Z.abs a)); [nia|].
      transitivity (numerator P * denominator X * (Z.abs d * Z.abs a));
        [ring|].
      rewrite Hc.
      transitivity (numerator X * (Z.abs d * Z.abs a)
                    * (Z.abs a * denominator P)); [ring|].
      rewrite Hcross. ring. }
    pose proof (lowest_terms_unique (numerator P) (denominator P)
                  (Z.abs n) (Z.abs d) ltac:(lia) ltac:(lia) ltac:(lia)
                  ltac:(lia) Hg Hpq) as Huniq.
    rewrite Z.gcd_abs_l, Z.gcd_abs_r in Huniq.
    destruct (fraction_eqb P B) eqn:HPB.
    + apply fraction_eqb_eq in HPB.
      assert (Z.gcd n d = 1)
        by (apply Huniq; rewrite HPB, HBn, HBd; auto).
      destruct (Z.eqb_spec (Z.gcd n d) 1); [reflexivity|contradiction].
    + destruct (Z.eqb_spec (Z.gcd n d) 1) as [Hgcd|]; [|reflexivity].
      exfalso. destruct (proj1 Huniq Hgcd) as [Hp Hq].
      assert (HeqPB : fraction_eqb P B = true).
      { unfold fraction_eqb. rewrite Hp, Hq, Hsign, HBn, HBd.
        rewrite !Z.eqb_refl. reflexivity. }
      congruence.
Qed.

Lemma solveSystem_fraction_constant_witness :
  fst <$> solveSystem (constantStack 0)
            (setCoefficientFraction 1 2 2 4
               (setCoefficient 1 1 1
                  (snd (setSystemEqCount true 1 newEqsolver))))
  = Some NO_SOLUTIONS.
Proof.
  refine (solveSystem_fraction_constant (constantStack 0) 1 2 4 _ _ _ _ _).
  - reflexivity.
  - discriminate.
  - lia.
  - lia.
  - lia.
Defined.

(** ** One pivot clears its column *)

Lemma proper_denominator m :
  wellFormed m -> numerator m <> 0 ->
  1 <= numerator m <= max_unsigned32 /\ 1 <= denominator m <= max_unsigned32.
Proof.
  unfold wellFormed, is_uint32. intros (Hn & Hd & Hz) Hn0.
  destruct (Z.eq_dec (denominator m) 0) as [E|]; [specialize (Hz E)|]; lia.
Qed.

Lemma multiply_minus_one m overFlow :
  wellFormed m -> numerator m <> 0 ->
  multiply (mkFraction 1 1 1) m overFlow = (timesMinusOne m, overFlow).
Proof.
  intros Hm Hn0. destruct (proper_denominator m Hm Hn0) as [Hn Hd].
  rewrite multiply_small by (cbn [numerator denominator]; lia).
  cbn [numerator denominator sign]. rewrite !Z.mul_1_l.
  destruct (Z.eqb_spec (denominator m) 0); [lia|].
  rewrite andb_false_r. reflexivity.
Qed.

Section ClearingArithmetic.

Variable m : fraction.
Hypothesis mWellFormed : wellFormed m.
Hypothesis mNumerator : numerator m <> 0.

Lemma negated_multiplier :
  numerator (timesMinusOne m) * denominator m
  = numerator m * denominator (timesMinusOne m)
  /\ sign (timesMinusOne m) = combineSign 1 (sign m)
  /\ 1 <= numerator (timesMinusOne m) <= numerator m
  /\ 1 <= denominator (timesMinusOne m) <= denominator m.
Proof using mWellFormed mNumerator.
  destruct (proper_denominator m mWellFormed mNumerator) as [Hn Hd].
  destruct (reduce_proper (mkFraction (numerator m) (denominator m)
                             (combineSign 1 (sign m))))
    as (_ & Hc & Hs & Hrn & Hrd);
    try (unfold is_uint32; cbn [numerator denominator]; lia).
  cbn [numerator denominator sign] in *. auto.
Qed.

Lemma add_cancels result_sign Y :
  add result_sign m (timesMinusOne m) 0 = (Y, 0) -> Y = zeroFraction.
Proof using mWellFormed mNumerator.
  destruct (proper_denominator m mWellFormed mNumerator) as [Hn Hd].
  destruct negated_multiplier as (Hc & Hs & Hrn & Hrd).
  intros H. unfold add in H.
  assert (Em : isEmpty m = false).
  { unfold isEmpty. destruct (Z.eqb_spec (numerator m) 0); [lia|].
    reflexivity. }
  assert (EX : isEmpty (timesMinusOne m) = false).
  { unfold isEmpty.
    destruct (Z.eqb_spec (numerator (timesMinusOne m)) 0); [lia|].
    reflexivity. }
  rewrite Em, EX in H.
  assert (Hsigns : (sign m =? 0) && (sign (timesMinusOne m) =? 0) = false).
  { rewrite Hs. unfold combineSign. cbn [Z.eqb Pos.eqb].
    destruct (Z.eqb_spec (sign m) 1) as [->|]; [reflexivity|].
    apply andb_false_r. }
  rewrite Hsigns in H.
  repeat match type of H with
  | (if ?c then signalOverflow else _) _ = _ =>
      destruct c; [discriminate H|]
  end.
  rewrite resultNum_exact in H.
  2:{ replace (signedNumerator m * denominator (timesMinusOne m)
               + signedNumerator (timesMinusOne m) * denominator m) with 0;
        [unfold is_int32, INT32MIN, INT32MAX; lia|].
      unfold signedNumerator. rewrite Hs. unfold combineSign.
      cbn [Z.eqb Pos.eqb].
      destruct (Z.eqb_spec (sign m) 1); cbn [Z.eqb Pos.eqb]; lia. }
  replace (signedNumerator m * denominator (timesMinusOne m)
           + signedNumerator (timesMinusOne m) * denominator m) with 0 in H.
  2:{ unfold signedNumerator. rewrite Hs. unfold combineSign.
      cbn [Z.eqb Pos.eqb].
      destruct (Z.eqb_spec (sign m) 1); cbn [Z.eqb Pos.eqb]; lia. }
  unfold addDenominator in H.
  destruct (_ >? _); [discriminate H|].
  cbn in H. inversion H. reflexivity.
Qed.

Lemma divide_restores overFlow :
  numerator m * denominator m <= max_unsigned32 ->
  divide (timesMinusOne m) m overFlow = (mkFraction 1 1 1, overFlow).
Proof using mWellFormed mNumerator.
  intros Hb.
  destruct (proper_denominator m mWellFormed mNumerator) as [Hn Hd].
  destruct negated_multiplier as (Hc & Hs & Hrn & Hrd).
  rewrite divide_small by nia.
  destruct (Z.eqb_spec (denominator (timesMinusOne m) * numerator m) 0); [nia|].
  rewrite andb_false_r.
  replace (denominator (timesMinusOne m) * numerator m)
    with (numerator (timesMinusOne m) * denominator m)
    by lia.
  rewrite reduce_equal by nia. rewrite Hs. unfold combineSign.
  cbn [Z.eqb Pos.eqb].
  destruct (Z.eqb_spec (sign m) 1); reflexivity.
Qed.

Lemma divide_self overFlow :
  numerator m * denominator m <= max_unsigned32 ->
  divide m m overFlow = (mkFraction 1 1 0, overFlow).
Proof using mWellFormed mNumerator.
  intros Hb.
  destruct (proper_denominator m mWellFormed mNumerator) as [Hn Hd].
  rewrite divide_small by nia.
  destruct (Z.eqb_spec (denominator m * numerator m) 0); [nia|].
  rewrite andb_false_r.
  replace (denominator m * numerator m) with (numerator m * denominator m)
    by lia.
  rewrite reduce_equal by nia. unfold combineSign.
  destruct (sign m =? 1); reflexivity.
Qed.

End ClearingArithmetic.

Local Ltac side :=
  first [assumption | lia | left; lia | right; left; lia | congruence].

Lemma negateColumns_effect eqCount row (Hrow : (row < eqCount)%nat) count :
  forall i (m : list (list fraction)),
    shaped eqCount m -> (i + count <= eqCount + 1)%nat ->
    shaped eqCount (negateColumns count i row m)
    /\ forall r j,
         cell (negateColumns count i row m) r j
         = if decide (r = row /\ (i <= j < i + count)%nat)
           then flipSign (cell m r j) else cell m r j.
Proof.
  induction count as [|count IH]; intros i m Hs Hc; cbn [negateColumns].
  - split; [exact Hs|]. intros r j. case_decide; [lia|reflexivity].
  - set (m1 := if isEmpty (cell m row i) then m
               else setCell m row i
                      (mkFraction (numerator (cell m row i))
                         (denominator (cell m row i))
                         (if sign (cell m row i) =? 0 then 1 else 0))).
    assert (Hs1 : shaped eqCount m1).
    { subst m1. destruct (isEmpty _); [exact Hs|apply shaped_setCell, Hs]. }
    assert (Hcell : forall r j,
              cell m1 r j
              = if decide (r = row /\ j = i) then flipSign (cell m r j)
                else cell m r j).
    { intros r j. subst m1. unfold flipSign. case_decide as Hrj.
      - destruct Hrj as [-> ->]. destruct (isEmpty (cell m row i));
          [reflexivity|].
        apply (cell_shaped_setCell eqCount); [exact Hs|lia|lia].
      - destruct (isEmpty (cell m row i)); [reflexivity|].
        apply cell_setCell_other. intros [= <- <-]. auto. }
    destruct (IH (S i) m1 Hs1 ltac:(lia)) as [IH1 IH2].
    split; [exact IH1|]. intros r j. rewrite IH2, !Hcell.
    repeat case_decide; try lia; try reflexivity; exfalso; intuition lia.
Qed.

Lemma negateRow_effect eqCount row w :
  shaped eqCount (cells w) -> (row < eqCount)%nat ->
  shaped eqCount (cells (negateRow eqCount row w))
  /\ flag (negateRow eqCount row w) = flag w
  /\ forall r j,
       cell (cells (negateRow eqCount row w)) r j
       = if decide (r = row /\ (j <= eqCount)%nat)
         then flipSign (cell (cells w) r j) else cell (cells w) r j.
Proof.
  intros Hs Hrow. unfold negateRow. cbn [cells flag].
  destruct (negateColumns_effect eqCount row Hrow (eqCount + 1) 0 (cells w) Hs
              ltac:(lia)) as [H1 H2].
  split; [exact H1|]. split; [reflexivity|].
  intros r j. rewrite H2. repeat case_decide; try reflexivity;
    exfalso; intuition lia.
Qed.

Section RowsFromZero.

Variables (stack : nat -> Z) (eqCount : nat).

Lemma multiplyMatrixRow_at row multiplier w :
  shaped eqCount (cells w) -> (row < eqCount)%nat ->
  let w' := multiplyMatrixRow eqCount (row + 1) multiplier w in
  shaped eqCount (cells w')
  /\ (forall i j, i <> row -> cell (cells w') i j = cell (cells w) i j)
  /\ (flag w' = 0 ->
      forall j, (j <= eqCount)%nat ->
        multiply (cell (cells w) row j) multiplier 0
        = (cell (cells w') row j, 0)).
Proof.
  intros Hs Hrow. cbn zeta. unfold multiplyMatrixRow.
  destruct (Nat.ltb_spec (row + 1) 1); [lia|].
  destruct (Nat.ltb_spec eqCount (row + 1)); [lia|]. cbn [orb].
  destruct (multiplyColumns_effect eqCount (row + 1) multiplier ltac:(lia)
              (eqCount + 1) 0 w Hs ltac:(lia)) as (E1 & _ & E3 & E4 & _).
  replace (row + 1 - 1)%nat with row in * by lia.
  split; [exact E1|]. split; [exact E3|].
  intros Hz j Hj. destruct (E4 Hz) as [_ Hc]. specialize (Hc j).
  case_decide; [exact Hc|lia].
Qed.

Lemma divideMatrixRow_at row divisor w :
  shaped eqCount (cells w) -> (row < eqCount)%nat ->
  let w' := divideMatrixRow eqCount (row + 1) divisor w in
  shaped eqCount (cells w')
  /\ (forall i j, i <> row -> cell (cells w') i j = cell (cells w) i j)
  /\ (flag w' = 0 ->
      forall j, (j <= eqCount)%nat ->
        divide (cell (cells w) row j) divisor 0
        = (cell (cells w') row j, 0))
  /\ (flag w = 0 ->
      (forall j, (j <= eqCount)%nat ->
         snd (divide (cell (cells w) row j) divisor 0) = 0) ->
      flag w' = 0).
Proof.
  intros Hs Hrow. cbn zeta. unfold divideMatrixRow.
  destruct (Nat.ltb_spec (row + 1) 1); [lia|].
  destruct (Nat.ltb_spec eqCount (row + 1)); [lia|]. cbn [orb].
  destruct (divideColumns_effect eqCount (row + 1) divisor ltac:(lia)
              (eqCount + 1) 0 w Hs ltac:(lia)) as (E1 & _ & E3 & E4 & E5).
  replace (row + 1 - 1)%nat with row in * by lia.
  split; [exact E1|]. split; [exact E3|]. split.
  - intros Hz j Hj. destruct (E4 Hz) as [_ Hc]. specialize (Hc j).
    case_decide; [exact Hc|lia].
  - intros Hw Hall. apply E5; [exact Hw|]. intros j Hj. apply Hall. lia.
Qed.

Lemma addMatrixRows_at row rowToAdd w :
  shaped eqCount (cells w) ->
  (row < eqCount)%nat -> (rowToAdd < eqCount)%nat ->
  let w' := addMatrixRows stack eqCount (row + 1) (rowToAdd + 1) w in
  shaped eqCount (cells w')
  /\ (forall i j, i <> row -> cell (cells w') i j = cell (cells w) i j)
  /\ (flag w' = 0 ->
      forall j, (j <= eqCount)%nat ->
        add (stack (reads w + j)%nat) (cell (cells w) row j)
            (cell (cells w) rowToAdd j) 0
        = (cell (cells w') row j, 0)).
Proof.
  intros Hs Hrow Hadd. cbn zeta. unfold addMatrixRows.
  destruct (Nat.ltb_spec (row + 1) 1); [lia|].
  destruct (Nat.ltb_spec eqCount (row + 1)); [lia|].
  destruct (Nat.ltb_spec (rowToAdd + 1) 1); [lia|].
  destruct (Nat.ltb_spec eqCount (rowToAdd + 1)); [lia|]. cbn [orb].
  destruct (addColumns_effect eqCount (row + 1) ltac:(lia) stack
              (rowToAdd + 1) (eqCount + 1) 0 w Hs ltac:(lia))
    as (E1 & _ & E3 & E4 & _).
  replace (row + 1 - 1)%nat with row in * by lia.
  replace (rowToAdd + 1 - 1)%nat with rowToAdd in * by lia.
  split; [exact E1|]. split; [exact E3|].
  intros Hz j Hj. destruct (E4 Hz) as (_ & _ & Hc). specialize (Hc j).
  replace (j - 0)%nat with j in Hc by lia.
  case_decide; [exact Hc|lia].
Qed.

Variables (row column : nat).
Hypothesis rowInRange : (row < eqCount)%nat.
Hypothesis columnInRange : (column <= eqCount)%nat.

Lemma clearRow_step rowCounter w w' :
  clearing eqCount row column w ->
  (rowCounter < eqCount)%nat -> rowCounter <> row ->
  clearable (cell (cells w) rowCounter column) ->
  clearRow stack eqCount row column rowCounter w = Next w' ->
  clearing eqCount row column w'
  /\ isEmpty (cell (cells w') rowCounter column) = true
  /\ (forall i j, i <> row -> i <> rowCounter ->
        cell (cells w') i j = cell (cells w) i j)
  /\ (isEmpty (cell (cells w) rowCounter column) = true -> w' = w).
Proof using rowInRange columnInRange.
  intros (Hs & Hf & Hp) Hrc Hne Hm H. unfold clearRow in H.
  destruct (isEmpty (cell (cells w) rowCounter column)) eqn:Em.
  { inversion H; subst w'. unfold clearing. auto. }
  destruct Hm as [Hm|(Hwf & Hn0 & Hb)]; [congruence|].
  set (m := cell (cells w) rowCounter column) in *.
  destruct (multiplyMatrixRow_at row m w Hs rowInRange) as (S1 & O1 & C1).
  set (w1 := multiplyMatrixRow eqCount (row + 1) m w) in *.
  destruct (Z.eqb_spec (flag w1) 0) as [F1|]; [|discriminate H].
  destruct (addMatrixRows_at rowCounter row w1 S1 Hrc rowInRange)
    as (S2 & O2 & C2).
  set (w2 := addMatrixRows stack eqCount (rowCounter + 1) (row + 1) w1) in *.
  destruct (Z.eqb_spec (flag w2) 0) as [F2|]; [|discriminate H].
  destruct (divideMatrixRow_at row m w2 S2 rowInRange) as (S3 & O3 & C3 & _).
  set (w3 := divideMatrixRow eqCount (row + 1) m w2) in *.
  destruct (Z.eqb_spec (flag w3) 0) as [F3|]; [|discriminate H].
  cbn [negb] in H. inversion H; subst w'. clear H.
  (* the pivot cell times the multiplier *)
  pose proof (C1 F1 column columnInRange) as Hmul.
  rewrite Hp, (multiply_minus_one m 0 Hwf Hn0) in Hmul.
  injection Hmul as Hmul.
  (* the sum in the row cleared *)
  pose proof (C2 F2 column columnInRange) as Hadd.
  rewrite (O1 rowCounter column Hne) in Hadd. fold m in Hadd.
  rewrite <- Hmul in Hadd.
  apply (add_cancels m Hwf Hn0) in Hadd.
  (* the pivot row divided again *)
  pose proof (C3 F3 column columnInRange) as Hdiv.
  rewrite (O2 row column ltac:(congruence)), <- Hmul in Hdiv.
  rewrite (divide_restores m Hwf Hn0 0 Hb) in Hdiv.
  injection Hdiv as Hdiv.
  split; [|split; [|split]].
  - unfold clearing. auto.
  - rewrite (O3 rowCounter column Hne), Hadd. reflexivity.
  - intros i j Hi Hj. rewrite O3, O2, O1 by assumption. reflexivity.
  - discriminate.
Qed.

Lemma clearAbove_steps count :
  forall w w',
    clearing eqCount row column w -> (count <= row)%nat ->
    (forall i, (i < count)%nat -> clearable (cell (cells w) i column)) ->
    clearAbove stack eqCount row column count w = Next w' ->
    clearing eqCount row column w'
    /\ (forall i, (i < count)%nat ->
          isEmpty (cell (cells w') i column) = true)
    /\ forall i j, i <> row ->
         (count <= i)%nat \/ isEmpty (cell (cells w) i column) = true ->
         cell (cells w') i j = cell (cells w) i j.
Proof using rowInRange columnInRange.
  induction count as [|count IH]; intros w w' Hw Hc Hgood H;
    cbn [clearAbove] in H.
  - inversion H; subst w'. split; [exact Hw|]. split; [|auto].
    intros i Hi. lia.
  - destruct (clearRow stack eqCount row column count w) as [s w1|w1] eqn:E;
      [discriminate H|].
    destruct (clearRow_step count w w1 Hw ltac:(lia) ltac:(lia)
                (Hgood count ltac:(lia)) E) as (Hw1 & He & Ho & Hsame).
    destruct (IH w1 w' Hw1 ltac:(lia)) as (Hw' & He' & Ho'); [|exact H|].
    { intros i Hi. rewrite Ho by lia. apply Hgood. lia. }
    split; [exact Hw'|]. split.
    + intros i Hi. destruct (decide (i = count)) as [->|];
        [|apply He'; lia].
      rewrite Ho' by side. exact He.
    + intros i j Hi [Hci|Hei].
      * rewrite Ho', Ho by side. reflexivity.
      * destruct (decide (i = count)) as [->|Hic].
        -- rewrite Ho' by side. rewrite (Hsame Hei). reflexivity.
        -- rewrite Ho'
             by first [assumption | right; rewrite Ho by lia; exact Hei].
           apply Ho; lia.
Qed.

Lemma clearBelow_steps count :
  forall rowCounter w w',
    clearing eqCount row column w -> (row < rowCounter)%nat ->
    (rowCounter + count <= eqCount)%nat ->
    (forall i, (rowCounter <= i < rowCounter + count)%nat ->
       clearable (cell (cells w) i column)) ->
    clearBelow stack eqCount row column count rowCounter w = Next w' ->
    clearing eqCount row column w'
    /\ (forall i, (rowCounter <= i < rowCounter + count)%nat ->
          isEmpty (cell (cells w') i column) = true)
    /\ forall i j, i <> row ->
         (i < rowCounter)%nat \/ (rowCounter + count <= i)%nat
         \/ isEmpty (cell (cells w) i column) = true ->
         cell (cells w') i j = cell (cells w) i j.
Proof using rowInRange columnInRange.
  induction count as [|count IH]; intros rowCounter w w' Hw Hr Hc Hgood H;
    cbn [clearBelow] in H.
  - inversion H; subst w'. split; [exact Hw|]. split; [|auto].
    intros i Hi. lia.
  - destruct (clearRow stack eqCount row column rowCounter w)
      as [s w1|w1] eqn:E; [discriminate H|].
    destruct (clearRow_step rowCounter w w1 Hw ltac:(lia) ltac:(lia)
                (Hgood rowCounter ltac:(lia)) E) as (Hw1 & He & Ho & Hsame).
    destruct (IH (S rowCounter) w1 w' Hw1 ltac:(lia) ltac:(lia))
      as (Hw' & He' & Ho'); [|exact H|].
    { intros i Hi. rewrite Ho by lia. apply Hgood. lia. }
    split; [exact Hw'|]. split.
    + intros i Hi. destruct (decide (i = rowCounter)) as [->|];
        [|apply He'; lia].
      rewrite Ho' by side. exact He.
    + intros i j Hi [Hci|[Hci|Hei]].
      * rewrite Ho', Ho by side. reflexivity.
      * rewrite Ho', Ho by side. reflexivity.
      * destruct (decide (i = rowCounter)) as [->|Hic].
        -- rewrite Ho' by side. rewrite (Hsame Hei). reflexivity.
        -- rewrite Ho'
             by first [assumption
                      | right; right; rewrite Ho by lia; exact Hei].
           apply Ho; lia.
Qed.

End RowsFromZero.

(** X25: one pivot of [solveSystem], from the division by the pivot to
    the second sign flip, in a matrix of at most 32767 equations.  Entered
    with the flag clear at a pivot whose numerator is not 0, when the pivot
    and every non-empty cell of its column are well formed with a non-zero
    numerator and a product of numerator and denominator that fits 32
    bits: if the step hands on, the flag is still clear, the pivot cell
    holds 1/1 with sign 0, every other cell of the pivot column is empty,
    and the rows whose cell in that column was empty already are
    unchanged. *)
Theorem pivotStep_clears_column stack eqCount row column w w' :
  Z.of_nat eqCount <= 32767 -> shaped eqCount (cells w) -> flag w = 0 ->
  (row < eqCount)%nat -> (column <= eqCount)%nat ->
  wellFormed (cell (cells w) row column) ->
  numerator (cell (cells w) row column) <> 0 ->
  numerator (cell (cells w) row column)
  * denominator (cell (cells w) row column) <= max_unsigned32 ->
  (forall i, (i < eqCount)%nat -> i <> row ->
     clearable (cell (cells w) i column)) ->
  pivotStep stack eqCount row column w = Next w' ->
  shaped eqCount (cells w') /\ flag w' = 0
  /\ cell (cells w') row column = mkFraction 1 1 0
  /\ (forall i, (i < eqCount)%nat -> i <> row ->
        isEmpty (cell (cells w') i column) = true)
  /\ forall i j, i <> row ->
       isEmpty (cell (cells w) i column) = true ->
       cell (cells w') i j = cell (cells w) i j.
Proof.
  intros _ Hs Hf Hrow Hcol Hwf Hn0 Hb Hgood H. unfold pivotStep in H.
  set (p := cell (cells w) row column) in *.
  (* the pivot row divided by the pivot *)
  assert (Hnormal : exists w1,
    (if negb (isOne p)
     then if negb (flag (divideMatrixRow eqCount (row + 1) p w) =? 0)
          then Return OVERFLOW (divideMatrixRow eqCount (row + 1) p w)
          else Next (divideMatrixRow eqCount (row + 1) p w)
     else Next w) = Next w1
    /\ shaped eqCount (cells w1) /\ flag w1 = 0
    /\ cell (cells w1) row column = mkFraction 1 1 0
    /\ forall i j, i <> row -> cell (cells w1) i j = cell (cells w) i j).
  { destruct (isOne p) eqn:HO; cbn [negb].
    - exists w. split; [reflexivity|]. apply isOne_eq in HO. auto.
    - destruct (divideMatrixRow_at eqCount row p w Hs Hrow)
        as (S1 & O1 & C1 & _).
      destruct (Z.eqb_spec (flag (divideMatrixRow eqCount (row + 1) p w)) 0)
        as [F1|F1]; cbn [negb].
      + eexists. split; [reflexivity|]. split; [exact S1|].
        split; [exact F1|]. split; [|exact O1].
        pose proof (C1 F1 column Hcol) as Hdiv. fold p in Hdiv.
        rewrite (divide_self p Hwf Hn0 0 Hb) in Hdiv. congruence.
      + cbn [negb] in H. discriminate H. }
  destruct Hnormal as (w1 & Hn & S1 & F1 & P1 & O1). rewrite Hn in H.
  destruct (negateRow_effect eqCount row w1 S1 Hrow) as (S2 & F2 & C2).
  set (w2 := negateRow eqCount row w1) in *.
  assert (Hw2 : clearing eqCount row column w2).
  { split; [exact S2|]. split; [congruence|].
    rewrite C2, P1. case_decide; [reflexivity|lia]. }
  assert (Hcells2 : forall i j, i <> row ->
            cell (cells w2) i j = cell (cells w) i j).
  { intros i j Hi. rewrite C2. case_decide; [lia|]. apply O1, Hi. }
  destruct (clearAbove stack eqCount row column row w2) as [s w3|w3] eqn:EA;
    [discriminate H|].
  destruct (clearAbove_steps stack eqCount row column Hrow Hcol row w2 w3 Hw2
              ltac:(lia)) as (Hw3 & He3 & Ho3); [|exact EA|].
  { intros i Hi. rewrite Hcells2 by lia. apply Hgood; lia. }
  destruct (clearBelow stack eqCount row column (eqCount - (row + 1))
              (row + 1) w3) as [s w4|w4] eqn:EB; [discriminate H|].
  destruct (clearBelow_steps stack eqCount row column Hrow Hcol
              (eqCount - (row + 1)) (row + 1) w3 w4 Hw3 ltac:(lia)
              ltac:(lia)) as (Hw4 & He4 & Ho4); [|exact EB|].
  { intros i Hi. rewrite Ho3, Hcells2 by side.
    apply Hgood; lia. }
  inversion H; subst w'. clear H.
  destruct Hw4 as (S4 & F4 & P4).
  destruct (negateRow_effect eqCount row w4 S4 Hrow) as (S5 & F5 & C5).
  split; [exact S5|]. split; [congruence|]. split; [|split].
  - rewrite C5, P4. case_decide; [reflexivity|lia].
  - intros i Hi Hne. rewrite C5. case_decide; [lia|].
    destruct (Nat.lt_ge_cases i row).
    + rewrite Ho4 by side. apply He3. lia.
    + apply He4. lia.
  - intros i j Hi Hei. rewrite C5. case_decide; [lia|].
    assert (Hei2 : isEmpty (cell (cells w2) i column) = true)
      by (rewrite Hcells2 by exact Hi; exact Hei).
    assert (Hei3 : isEmpty (cell (cells w3) i column) = true)
      by (rewrite Ho3 by auto; exact Hei2).
    rewrite Ho4, Ho3 by auto. apply Hcells2, Hi.
Qed.

Lemma pivotStep_clears_column_witness :
  exists w',
    pivotStep (fun _ => 0) 2 0 0 (memberWork regularSystem) = Next w'
    /\ cell (cells w') 0 0 = mkFraction 1 1 0
    /\ isEmpty (cell (cells w') 1 0) = true.
Proof.
  assert (Hrun : exists w',
            pivotStep (fun _ => 0) 2 0 0 (memberWork regularSystem)
            = Next w') by (eexists; vm_compute; reflexivity).
  destruct Hrun as [w' Hrun]. exists w'. split; [exact Hrun|].
  destruct (pivotStep_clears_column (fun _ => 0) 2 0 0
              (memberWork regularSystem) w')
    as (_ & _ & Hp & Hc & _).
  - lia.
  - apply regularSystem_configured.
  - reflexivity.
  - lia.
  - lia.
  - unfold wellFormed, is_uint32, max_unsigned32. vm_compute.
    repeat split; intros; discriminate.
  - vm_compute. discriminate.
  - vm_compute. discriminate.
  - intros i Hi Hne. assert (i = 1%nat) as -> by lia. right.
    unfold wellFormed, is_uint32, max_unsigned32. vm_compute.
    repeat split; intros; discriminate.
  - exact Hrun.
  - split; [exact Hp|]. apply Hc; lia.
Defined.

(** ** Diagonal systems *)

Lemma flipSign_twice x :
  isEmpty x = true \/ sign x = 0 \/ sign x = 1 ->
  flipSign (flipSign x) = x.
Proof. apply negate_twice. Qed.

Lemma negateRow_twice eqCount row w :
  shaped eqCount (cells w) -> (row < eqCount)%nat ->
  (forall j, (j <= eqCount)%nat ->
     isEmpty (cell (cells w) row j) = true
     \/ sign (cell (cells w) row j) = 0 \/ sign (cell (cells w) row j) = 1) ->
  negateRow eqCount row (negateRow eqCount row w)
  = mkWork (cells w) (flag w) (reads w).
Proof.
  intros Hs Hrow Hsigns.
  destruct (negateRow_effect eqCount row w Hs Hrow) as (S1 & F1 & C1).
  destruct (negateRow_effect eqCount row (negateRow eqCount row w) S1 Hrow)
    as (S2 & F2 & C2).
  assert (Hcells : cells (negateRow eqCount row (negateRow eqCount row w))
                   = cells w).
  { apply (shaped_cells_eq eqCount); [exact S2|exact Hs|].
    intros i j Hi Hj. rewrite C2, C1.
    case_decide as Hd; [|reflexivity].
    destruct Hd as [-> _]. apply flipSign_twice, Hsigns, Hj. }
  unfold negateRow in *. cbn [cells flag reads] in *.
  rewrite Hcells. reflexivity.
Qed.

Lemma multiply_zero_left x overFlow :
  multiply zeroFraction x overFlow = (zeroFraction, overFlow).
Proof. reflexivity. Qed.

Lemma divide_zero_left x overFlow :
  divide zeroFraction x overFlow = (zeroFraction, overFlow).
Proof. reflexivity. Qed.

Lemma stored_empty b : isEmpty (stored b) = true -> stored b = zeroFraction.
Proof.
  unfold isEmpty, stored. cbn [numerator denominator]. intros H.
  apply andb_prop in H as [H _]. apply Z.eqb_eq in H.
  assert (b = 0) as -> by lia. reflexivity.
Qed.

Section Diagonal.

Variables (stack : nat -> Z) (eqCount : nat) (a b : nat -> Z).

Hypothesis coefficients :
  forall i, (i < eqCount)%nat ->
    a i <> 0 /\ -32768 <= a i <= 32767 /\ -32768 <= b i <= 32767.

Lemma clearAbove_nothing row column count :
  forall w,
    (forall i, (i < count)%nat ->
       isEmpty (cell (cells w) i column) = true) ->
    clearAbove stack eqCount row column count w = Next w.
Proof.
  induction count as [|count IH]; intros w He; [reflexivity|].
  cbn [clearAbove]. unfold clearRow. rewrite He by lia.
  apply IH. intros i Hi. apply He. lia.
Qed.

Lemma clearBelow_nothing row column count :
  forall rowCounter w,
    (forall i, (rowCounter <= i < rowCounter + count)%nat ->
       isEmpty (cell (cells w) i column) = true) ->
    clearBelow stack eqCount row column count rowCounter w = Next w.
Proof.
  induction count as [|count IH]; intros rowCounter w He; [reflexivity|].
  cbn [clearBelow]. unfold clearRow. rewrite He by lia.
  apply IH. intros i Hi. apply He. lia.
Qed.

Lemma reducedCell_other k i j :
  i <> k -> reducedCell eqCount a b (S k) i j = reducedCell eqCount a b k i j.
Proof.
  intros Hi. unfold reducedCell.
  destruct (Nat.ltb_spec i (S k)), (Nat.ltb_spec i k); try lia; reflexivity.
Qed.

Lemma reducedCell_signs k j :
  (k < eqCount)%nat ->
  let x := reducedCell eqCount a b (S k) k j in
  isEmpty x = true \/ sign x = 0 \/ sign x = 1.
Proof using coefficients.
  intros Hk. cbn zeta. unfold reducedCell.
  destruct (Nat.ltb_spec k (S k)); [|lia].
  destruct (j =? k)%nat; [auto|].
  destruct (j =? eqCount)%nat; [|auto].
  destruct (coefficients k Hk) as (Ha0 & Ha & Hb).
  apply (stored_quotient (a k) (b k) Ha0 Ha Hb).
Qed.

Lemma pivot_row_cells k j :
  (k < eqCount)%nat ->
  if isOne (stored (a k))
  then reducedCell eqCount a b (S k) k j = diagonalCell eqCount a b k j
  else divide (diagonalCell eqCount a b k j) (stored (a k)) 0
       = (reducedCell eqCount a b (S k) k j, 0).
Proof using coefficients.
  intros Hk. destruct (coefficients k Hk) as (Ha0 & Ha & Hb).
  destruct (stored_quotient (a k) (b k) Ha0 Ha Hb) as (_ & Hn & _).
  unfold reducedCell, diagonalCell.
  destruct (Nat.ltb_spec k (S k)); [|lia].
  destruct (isOne (stored (a k))) eqn:HO.
  - destruct (j =? k)%nat; [symmetry; apply isOne_eq, HO|].
    destruct (j =? eqCount)%nat; [exact Hn|reflexivity].
  - destruct Hn as [HAA HBA].
    destruct (j =? k)%nat; [exact HAA|].
    destruct (j =? eqCount)%nat; [exact HBA|reflexivity].
Qed.

Lemma pivotStep_diagonal k w :
  reducedTo eqCount a b k w -> (k < eqCount)%nat ->
  exists w',
    pivotStep stack eqCount k k w = Next w'
    /\ reducedTo eqCount a b (S k) w'.
Proof using coefficients.
  intros (Hs & Hf & Hc) Hk. unfold pivotStep.
  assert (Hrow : forall j, (j <= eqCount)%nat ->
            cell (cells w) k j = diagonalCell eqCount a b k j).
  { intros j Hj. rewrite Hc by lia. unfold reducedCell.
    destruct (Nat.ltb_spec k k); [lia|reflexivity]. }
  assert (Hp : cell (cells w) k k = stored (a k)).
  { rewrite Hrow by lia. unfold diagonalCell. rewrite Nat.eqb_refl.
    reflexivity. }
  rewrite Hp.
  (* the pivot row divided by the pivot *)
  assert (Hnormal : exists w1,
    (if negb (isOne (stored (a k)))
     then
       if negb (flag (divideMatrixRow eqCount (k + 1) (stored (a k)) w) =? 0)
       then Return OVERFLOW
              (divideMatrixRow eqCount (k + 1) (stored (a k)) w)
       else Next (divideMatrixRow eqCount (k + 1) (stored (a k)) w)
     else Next w) = Next w1
    /\ reducedTo eqCount a b (S k) w1).
  { pose proof (fun j => pivot_row_cells k j Hk) as Hcells.
    destruct (isOne (stored (a k))) eqn:HO; cbn [negb].
    - exists w. split; [reflexivity|]. split; [exact Hs|]. split; [exact Hf|].
      intros i j Hi Hj. destruct (decide (i = k)) as [->|Hik].
      + rewrite Hcells. apply Hrow, Hj.
      + rewrite reducedCell_other by exact Hik. apply Hc; assumption.
    - destruct (divideMatrixRow_at eqCount k (stored (a k)) w Hs Hk)
        as (S1 & O1 & C1 & F1).
      assert (Hflag : flag (divideMatrixRow eqCount (k + 1) (stored (a k)) w)
                      = 0).
      { apply F1; [exact Hf|]. intros j Hj.
        rewrite Hrow, Hcells by exact Hj. reflexivity. }
      rewrite Hflag. cbn [Z.eqb negb].
      eexists. split; [reflexivity|]. split; [exact S1|].
      split; [exact Hflag|].
      intros i j Hi Hj. destruct (decide (i = k)) as [->|Hik].
      + pose proof (C1 Hflag j Hj) as Hd.
        rewrite Hrow, Hcells in Hd by exact Hj. congruence.
      + rewrite O1, reducedCell_other by exact Hik. apply Hc; assumption. }
  destruct Hnormal as (w1 & -> & S1 & F1 & C1).
  destruct (negateRow_effect eqCount k w1 S1 Hk) as (S2 & F2 & C2).
  assert (Hzero : forall i, (i < eqCount)%nat -> i <> k ->
            isEmpty (cell (cells (negateRow eqCount k w1)) i k) = true).
  { intros i Hi Hik. rewrite C2. case_decide; [lia|].
    rewrite C1 by lia. unfold reducedCell, diagonalCell.
    destruct (Nat.eqb_spec k i); [lia|].
    destruct (Nat.eqb_spec k eqCount); [lia|].
    destruct (i <? S k)%nat; reflexivity. }
  rewrite clearAbove_nothing by (intros i Hi; apply Hzero; lia).
  rewrite clearBelow_nothing by (intros i Hi; apply Hzero; lia).
  rewrite negateRow_twice; [|exact S1|exact Hk|].
  2:{ intros j Hj. rewrite C1 by lia. apply reducedCell_signs, Hk. }
  eexists. split; [reflexivity|]. split; [exact S1|]. split; [exact F1|].
  exact C1.
Qed.

Lemma eliminate_diagonal fuel :
  forall k w,
    reducedTo eqCount a b k w -> (k <= eqCount)%nat ->
    (eqCount - k <= fuel)%nat ->
    exists w',
      eliminate fuel stack eqCount k k w = Some (Next w')
      /\ reducedTo eqCount a b eqCount w'.
Proof using coefficients.
  induction fuel as [|fuel IH]; intros k w Hw Hk Hfuel.
  - assert (k = eqCount) as -> by lia. exists w. split; [|exact Hw].
    cbn [eliminate]. rewrite Nat.ltb_irrefl. reflexivity.
  - cbn [eliminate]. destruct (Nat.ltb_spec k eqCount) as [Hlt|Hge];
      cbn [negb].
    2:{ assert (k = eqCount) as -> by lia. exists w. split; auto. }
    destruct Hw as (Hs & Hf & Hc).
    assert (Hp : cell (cells w) k k = stored (a k)).
    { rewrite Hc by lia. unfold reducedCell, diagonalCell.
      rewrite Nat.ltb_irrefl, Nat.eqb_refl. reflexivity. }
    rewrite Hp.
    destruct (coefficients k Hlt) as (Ha0 & Ha & Hb).
    destruct (stored_quotient (a k) (b k) Ha0 Ha Hb) as (HA & _).
    rewrite HA.
    destruct (pivotStep_diagonal k (mkWork (cells w) (flag w) (reads w)))
      as (w1 & Hstep & Hw1); [split; [|split]; assumption|exact Hlt|].
    rewrite Hstep. apply IH; [exact Hw1|lia|lia].
Qed.

Variable original : list (list fraction).

Hypothesis diagonal :
  forall i j, (i < eqCount)%nat -> (j <= eqCount)%nat ->
    cell original i j = diagonalCell eqCount a b i j.

Variable w : work.
Hypothesis reduced : reducedTo eqCount a b eqCount w.

Lemma totalRow_diagonal i (Hi : (i < eqCount)%nat) count :
  forall j total w0,
    cells w0 = cells w -> flag w0 = 0 -> (j + count = eqCount)%nat ->
    ((j <= i)%nat -> isEmpty total = true) ->
    ((i < j)%nat -> total = stored (b i)) ->
    exists w1,
      totalRow stack eqCount original i count j total w0
      = Next (stored (b i), w1)
      /\ cells w1 = cells w /\ flag w1 = 0.
Proof using coefficients diagonal reduced.
  destruct reduced as (_ & _ & Hc).
  induction count as [|count IH]; intros j total w0 Hcells Hflag Hj He Ht.
  - cbn [totalRow]. rewrite Ht by lia. eauto.
  - cbn [totalRow]. rewrite diagonal, Hcells, Hc, Hflag by lia.
    unfold reducedCell at 1, diagonalCell at 1.
    destruct (Nat.ltb_spec j eqCount); [|lia].
    destruct (Nat.eqb_spec eqCount j); [lia|].
    rewrite Nat.eqb_refl.
    destruct (Nat.eqb_spec j i) as [->|Hji].
    + destruct (coefficients i Hi) as (Ha0 & Ha & Hb).
      destruct (stored_quotient (a i) (b i) Ha0 Ha Hb) as (_ & _ & _ & HP & _).
      rewrite HP, add_empty_left by (apply He; lia).
      cbn [Z.eqb negb]. apply IH; cbn [cells flag]; auto; try lia.
    + destruct (Nat.eqb_spec j eqCount); [lia|].
      rewrite multiply_zero_left.
      assert (Hadd : add (stack (reads w0)) total zeroFraction 0
                     = (if (j <? i)%nat then zeroFraction else stored (b i),
                        0)).
      { destruct (Nat.ltb_spec j i).
        - apply add_empty_left, He. lia.
        - rewrite Ht by lia. unfold add.
          destruct (isEmpty (stored (b i))) eqn:Eb; [|reflexivity].
          rewrite (stored_empty _ Eb). reflexivity. }
      rewrite Hadd. cbn [Z.eqb negb]. apply IH; cbn [cells flag]; auto.
      * lia.
      * intros Hle. destruct (Nat.ltb_spec j i); [reflexivity|lia].
      * intros Hlt. destruct (Nat.ltb_spec j i); [lia|reflexivity].
Qed.

Lemma verifyRows_diagonal count :
  forall i solutionCheck w0,
    cells w0 = cells w -> flag w0 = 0 -> (i + count = eqCount)%nat ->
    exists w1,
      verifyRows stack eqCount original count i solutionCheck w0 = Next w1
      /\ cells w1 = cells w /\ flag w1 = 0.
Proof using coefficients diagonal reduced.
  induction count as [|count IH]; intros i solutionCheck w0 Hcells Hflag Hi.
  - cbn [verifyRows]. eauto.
  - cbn [verifyRows].
    destruct (totalRow_diagonal i ltac:(lia) eqCount 0
                (mkFraction 0 0 (sign solutionCheck)) w0 Hcells Hflag
                ltac:(lia) ltac:(reflexivity) ltac:(lia))
      as (w1 & -> & Hcells1 & Hflag1).
    rewrite diagonal by lia. unfold diagonalCell.
    destruct (Nat.eqb_spec eqCount i); [lia|]. rewrite Nat.eqb_refl.
    rewrite (proj2 (fraction_eqb_eq _ _) eq_refl). cbn [negb].
    apply IH; [assumption|assumption|lia].
Qed.

End Diagonal.

(** X26: a diagonal system of any size up to 32767: equation i reads
    a_i * x_i = b_i with 16-bit integers, a_i not 0, every other
    coefficient 0.  [solveSystem] returns SOLVED with the flag clear under
    every environment, and entry i of the solution vector is |b_i|/|a_i|
    in lowest terms with the sign of b_i/a_i, so x_i * a_i = b_i as
    rationals. *)
Theorem solveSystem_diagonal env st (a b : nat -> Z) :
  configured st -> mallocSucceeds env = true ->
  (forall i, (i < eqCount st)%nat ->
     a i <> 0 /\ -32768 <= a i <= 32767 /\ -32768 <= b i <= 32767) ->
  (forall i j, (i < eqCount st)%nat -> (j <= eqCount st)%nat ->
     cell (originalCoefficient st) i j = diagonalCell (eqCount st) a b i j) ->
  exists st',
    solveSystem env st = Some (SOLVED, st')
    /\ overFlow st' = 0
    /\ forall i, (i < eqCount st)%nat ->
         solutionCoefficient st' !! i = Some (quotient (a i) (b i))
         /\ (toQ (quotient (a i) (b i)) * inject_Z (a i)
             == inject_Z (b i))%Q.
Proof.
  intros (Hn & _ & Ho & Hl) Hmalloc Hcoef Hdiag.
  unfold solveSystem. rewrite Hmalloc. cbn [negb].
  rewrite (copyMatrix_of_shaped _ _ Ho).
  destruct (eliminate_diagonal (stackWord env) (eqCount st) a b Hcoef
              (eqCount st) 0 (mkWork (originalCoefficient st) 0 0))
    as (w & -> & Hw); [|lia|lia|].
  { split; [exact Ho|]. split; [reflexivity|]. exact Hdiag. }
  pose proof Hw as (Hs & Hf & Hc).
  unfold checkResult.
  assert (Hlast : cell (cells w) (eqCount st - 1) (eqCount st - 1)
                  = mkFraction 1 1 0).
  { rewrite Hc by lia. unfold reducedCell.
    destruct (Nat.ltb_spec (eqCount st - 1) (eqCount st)); [|lia].
    rewrite Nat.eqb_refl. reflexivity. }
  rewrite Hlast. cbn [isEmpty numerator denominator Z.eqb andb].
  destruct (verifyRows_diagonal (stackWord env) (eqCount st) a b Hcoef
              (originalCoefficient st) Hdiag w Hw (eqCount st) 0
              (mkFraction 0 0 (solutionCheckSign env)) w eq_refl Hf
              ltac:(lia)) as (w1 & -> & Hcells1 & Hflag1).
  eexists. split; [reflexivity|]. cbn [overFlow solutionCoefficient].
  split; [exact Hflag1|]. intros i Hi. split.
  - rewrite storeSolution_lookup. case_decide as Hd; [|lia].
    rewrite Hcells1, Hc by lia. unfold reducedCell.
    destruct (Nat.ltb_spec i (eqCount st)); [|lia].
    destruct (Nat.eqb_spec (eqCount st) i); [lia|].
    rewrite Nat.eqb_refl. reflexivity.
  - destruct (Hcoef i Hi) as (Ha0 & Ha & Hb).
    apply (stored_quotient (a i) (b i) Ha0 Ha Hb).
Qed.

Lemma solveSystem_diagonal_witness :
  exists st',
    solveSystem (constantStack 1) (systemOf [[2; 0; 4]; [0; -3; 6]])
    = Some (SOLVED, st')
    /\ solutionCoefficient st' !! 1%nat = Some (mkFraction 2 1 1).
Proof.
  destruct (solveSystem_diagonal (constantStack 1)
              (systemOf [[2; 0; 4]; [0; -3; 6]])
              (fun i => match i with O => 2 | _ => -3 end)
              (fun i => match i with O => 4 | _ => 6 end))
    as (st' & Hrun & _ & Hsol).
  - unfold configured, shaped. vm_compute.
    repeat split; try discriminate; repeat constructor.
  - reflexivity.
  - intros i Hi. change (eqCount _) with 2%nat in Hi.
    destruct i as [|[|i]]; [| |lia]; repeat split; (lia || discriminate).
  - intros i j Hi Hj. change (eqCount _) with 2%nat in Hi, Hj |- *.
    destruct i as [|[|i]]; [| |lia];
      (destruct j as [|[|[|j]]]; [| | |lia]); vm_compute; reflexivity.
  - exists st'. split; [exact Hrun|].
    destruct (Hsol 1%nat) as [H _]; [vm_compute; lia|].
    rewrite H. vm_compute. reflexivity.
Defined.
